(** * HaberAI ETL core: a shallow embedding of the migration pipeline

    The development follows the TypeScript sources of the repository:
    - [src/lib/mongodb.ts] (content cleaner and the two content validators),
    - the relational ETL service (transformPost, processBatch, migrateAllPosts),
    - the vector-only ETL service (transformPostToVector, categorizeEvent,
      migrateToVectorOnly),
    - [src/lib/vector-service.ts] (embedding generation and batch storage).

    JavaScript strings are sequences of UTF-16 code units; numbers are IEEE 754
    binary64 values; remote services are oracles that either answer or throw. *)

From Stdlib Require Import String Ascii.
From Stdlib Require Import List ZArith NArith Bool Lia.
From Stdlib Require Import Floats.SpecFloat.
Import ListNotations.

(* ================================================================== *)
(** ** JavaScript strings *)
(* ================================================================== *)

Module JS.

(** A code unit of a JavaScript string (0 .. 65535). *)
Definition jschar := N.
Definition jsstring := list jschar.

(** ASCII literals, for readable messages and keywords. *)
Definition js (s : string) : jsstring :=
map N_of_ascii (list_ascii_of_string s).

Definition ch (a : ascii) : jschar := N_of_ascii a.

Definition jschar_eqb (a b : jschar) : bool := N.eqb a b.

Fixpoint jsstring_eqb (a b : jsstring) : bool :=
match a, b with
| [], [] => true
| x :: a', y :: b' => jschar_eqb x y && jsstring_eqb a' b'
| _, _ => false
end.

(** [!s] for a value of type string: only the empty string is falsy. *)
Definition falsy (s : jsstring) : bool :=
match s with [] => true | _ => false end.

(** [!v] for a value of type [string | undefined]. *)
Definition falsy_opt (v : option jsstring) : bool :=
match v with None => true | Some s => falsy s end.

(** [v || ''] *)
Definition or_empty (v : option jsstring) : jsstring :=
match v with None => [] | Some s => s end.

(** ECMAScript WhiteSpace and LineTerminator code units: the class [\s] of a
  regular expression and the characters removed by [String.prototype.trim]. *)
Definition is_ws (c : jschar) : bool :=
((9 <=? c) && (c <=? 13) || (c =? 32) || (c =? 160) || (c =? 5760)
 || (8192 <=? c) && (c <=? 8202) || (c =? 8232) || (c =? 8233)
 || (c =? 8239) || (c =? 8287) || (c =? 12288) || (c =? 65279))%N.

(** Line terminators: the characters [.] does not match (no [s] flag). *)
Definition is_line_terminator (c : jschar) : bool :=
((c =? 10) || (c =? 13) || (c =? 8232) || (c =? 8233))%N.

(** The class [\w] without the [u] flag: [A-Za-z0-9_]. *)
Definition is_word (c : jschar) : bool :=
((65 <=? c) && (c <=? 90) || (97 <=? c) && (c <=? 122)
 || (48 <=? c) && (c <=? 57) || (c =? 95))%N.

Definition lt_sign : jschar := 60%N.   (* '<' *)
Definition gt_sign : jschar := 62%N.   (* '>' *)
Definition space : jschar := 32%N.

Fixpoint dropWhile (p : jschar -> bool) (s : jsstring) : jsstring :=
match s with
| [] => []
| c :: r => if p c then dropWhile p r else s
end.

Fixpoint takeWhile (p : jschar -> bool) (s : jsstring) : jsstring :=
match s with
| [] => []
| c :: r => if p c then c :: takeWhile p r else []
end.

Definition trimStart (s : jsstring) : jsstring := dropWhile is_ws s.
Definition trimEnd (s : jsstring) : jsstring := rev (dropWhile is_ws (rev s)).

(** [String.prototype.trim] *)
Definition trim (s : jsstring) : jsstring := trimEnd (trimStart s).

(** [s.substring(0, n)] *)
Definition substring0 (n : nat) (s : jsstring) : jsstring := firstn n s.

(** [parts.join(sep)] *)
Fixpoint join (sep : jsstring) (parts : list jsstring) : jsstring :=
match parts with
| [] => []
| [p] => p
| p :: rest => p ++ sep ++ join sep rest
end.

(** Decimal rendering of a non-negative integer, as template literals do. *)
Fixpoint uint_to_js (d : Decimal.uint) : jsstring :=
match d with
| Decimal.Nil => []
| Decimal.D0 r => 48%N :: uint_to_js r
| Decimal.D1 r => 49%N :: uint_to_js r
| Decimal.D2 r => 50%N :: uint_to_js r
| Decimal.D3 r => 51%N :: uint_to_js r
| Decimal.D4 r => 52%N :: uint_to_js r
| Decimal.D5 r => 53%N :: uint_to_js r
| Decimal.D6 r => 54%N :: uint_to_js r
| Decimal.D7 r => 55%N :: uint_to_js r
| Decimal.D8 r => 56%N :: uint_to_js r
| Decimal.D9 r => 57%N :: uint_to_js r
end.

Definition nat_to_js (n : nat) : jsstring := uint_to_js (Nat.to_uint n).

Definition Z_to_js (z : Z) : jsstring :=
match z with
| Z0 => js "0"
| Zpos p => uint_to_js (Pos.to_uint p)
| Zneg p => ch "-" :: uint_to_js (Pos.to_uint p)
end.

(** Case-insensitive comparison of an input code unit with an ASCII pattern
  character under the [i] flag (no [u] flag).  Canonicalisation maps a
  code unit to its upper case, except that a non-ASCII unit is never
  mapped to an ASCII one; an ASCII letter of the pattern therefore matches
  exactly its two ASCII cases, and any other pattern character matches
  only itself. *)
Definition ascii_upper (c : jschar) : jschar :=
if ((97 <=? c) && (c <=? 122))%N then (c - 32)%N else c.

Definition ci_eqb (pat c : jschar) : bool :=
N.eqb (ascii_upper pat) (ascii_upper c).

(** [pat] is a prefix of [s], with [eqb] comparing pattern and input units. *)
Fixpoint prefix_by (eqb : jschar -> jschar -> bool) (pat s : jsstring) : bool :=
match pat, s with
| [], _ => true
| p :: pat', c :: s' => eqb p c && prefix_by eqb pat' s'
| _ :: _, [] => false
end.

(** Number of code units before the first occurrence of [c]. *)
Fixpoint index_of (c : jschar) (s : jsstring) : option nat :=
match s with
| [] => None
| x :: r => if N.eqb x c then Some 0 else option_map S (index_of c r)
end.

(** *** Global replacement

  [s.replace(/re/g, repl)] for a pattern whose matches are never empty:
  the matcher [m] gives the length of the match that starts at the head of
  its argument, when there is one.  The scan goes left to right; after a
  match it resumes behind the matched text. *)
Section Replace.
Variable m : jsstring -> option nat.
Variable repl : jsstring.

Fixpoint replace_from (skip : nat) (s : jsstring) : jsstring :=
match s with
| [] => []
| c :: r =>
  match skip with
  | S k => replace_from k r
  | O =>
      match m s with
      | Some (S n) => repl ++ replace_from n r
      | _ => c :: replace_from 0 r
      end
  end
end.

Definition replaceAll (s : jsstring) : jsstring := replace_from 0 s.
End Replace.

End JS.
Import JS.

(* ================================================================== *)
(** ** Content cleaner ([src/lib/mongodb.ts]) *)
(* ================================================================== *)

(** [/<NAME[^>]*>.*?<\/NAME>/i] at the head of [s].  The class [[^>]*] ends at
    the first ['>'] behind the opening name; the lazy [.*?] then stops at the
    first closing tag that is reached without crossing a line terminator. *)
Fixpoint find_close (closer : jsstring) (s : jsstring) : option nat :=
  if prefix_by ci_eqb closer s then Some 0
  else match s with
       | [] => None
       | c :: r =>
           if is_line_terminator c then None
           else option_map S (find_close closer r)
       end.

Definition match_block (opener closer : jsstring) (s : jsstring) : option nat :=
  if prefix_by ci_eqb opener s then
    let r1 := skipn (length opener) s in
    match index_of gt_sign r1 with
    | None => None
    | Some k1 =>
        match find_close closer (skipn (S k1) r1) with
        | None => None
        | Some k2 => Some (length opener + k1 + 1 + k2 + length closer)
        end
    end
  else None.

(** [/<script[^>]*>.*?<\/script>/gi] *)
Definition match_script : jsstring -> option nat :=
  match_block (js "<script") (js "</script>").

(** [/<style[^>]*>.*?<\/style>/gi] *)
Definition match_style : jsstring -> option nat :=
  match_block (js "<style") (js "</style>").

(** [/<[^>]*>/g] *)
Definition match_tag (s : jsstring) : option nat :=
  match s with
  | c :: r =>
      if N.eqb c lt_sign then option_map (fun k => S (S k)) (index_of gt_sign r)
      else None
  | [] => None
  end.

(** [/\s+/g] *)
Definition match_spaces (s : jsstring) : option nat :=
  match length (takeWhile is_ws s) with
  | O => None
  | n => Some n
  end.

Definition cleanHtmlContent (html : jsstring) : jsstring :=
  if falsy html then []
  else
    trim
      (replaceAll match_spaces [space]
        (replaceAll match_tag [space]
          (replaceAll match_style []
            (replaceAll match_script [] html)))).

(** *** Shapes of a cleaned text *)

(** No ['<'] is followed, anywhere behind it, by a ['>']. *)
Fixpoint tagfree (s : jsstring) : Prop :=
  match s with
  | [] => True
  | c :: r => (c = lt_sign -> ~ In gt_sign r) /\ tagfree r
  end.

(** Every white-space unit is a single U+0020 followed by a non-space. *)
Fixpoint ws_norm (s : jsstring) : Prop :=
  match s with
  | [] => True
  | c :: r =>
      (is_ws c = true ->
       c = space /\ match r with [] => True | d :: _ => is_ws d = false end)
      /\ ws_norm r
  end.

(* ================================================================== *)
(** ** Data model ([src/types/mongodb.ts]) *)
(* ================================================================== *)

(** A thrown value: an [Error] with its message, or anything else. *)
Inductive Thrown :=
| ErrorObj (message : jsstring)
| NonError.

(** [error instanceof Error ? error.message : fallback] *)
Definition error_message (fallback : jsstring) (e : Thrown) : jsstring :=
  match e with
  | ErrorObj msg => msg
  | NonError => fallback
  end.

(** The outcome of a call that may throw. *)
Inductive Outcome (A : Type) :=
| Returned (a : A)
| Threw (e : Thrown).
Arguments Returned {A} a.
Arguments Threw {A} e.

(** A [Date]: a time value in milliseconds, or the invalid date. *)
Inductive JsDate :=
| DateAt (ms : Z)
| InvalidDate.

(** An [ObjectId], identified with its hexadecimal rendering. *)
Definition ObjectId := jsstring.
Definition ObjectId_toString (i : ObjectId) : jsstring := i.

Record PostContent := { text : option jsstring }.

Record PostCover := {
  attachment_id : option jsstring;
  public_path : option jsstring
}.

(** [MongoPost].  The fields [post_text] and [post_body] are the untyped
    [text] and [body] properties that the relaxed validator and the vector
    transformer read through [(post as any)]. *)
Record MongoPost := {
  _id : ObjectId;
  is_old_record : option bool;
  weight : option Z;
  integer_id : option Z;
  old_id : option Z;
  author_id : option jsstring;
  created_at : JsDate;
  published_at : option JsDate;
  title : option jsstring;
  summary : option jsstring;
  seo_description : option jsstring;
  seo_keywords : option jsstring;
  old_slug : option jsstring;
  slug : option jsstring;
  categories : option (list jsstring);
  hit : option Z;
  show_on_mainpage : option bool;
  location : option Z;
  topics : option (list jsstring);
  source_id : option jsstring;
  status : option Z;
  attachments : option PostCover;
  content : option PostContent;
  post_text : option jsstring;
  post_body : option jsstring
}.

(** [post.content?.text] *)
Definition content_text (post : MongoPost) : option jsstring :=
  match content post with
  | None => None
  | Some c => text c
  end.

Inductive JobStatus := pending | running | completed | failed.

Record MigrationJob := {
  job_id : jsstring;
  source_db : jsstring;
  target_channel_id : jsstring;
  job_status : JobStatus;
  total_records : nat;
  processed_records : nat;
  failed_records : nat;
  started_at : option JsDate;
  completed_at : option JsDate;
  error_message_of : option jsstring;
  last_processed_id : option jsstring
}.

(* ================================================================== *)
(** ** Content validators *)
(* ================================================================== *)

Record ValidationResult := {
  isValid : bool;
  issues : list jsstring
}.

(** [if (c) issues.push(msg)] *)
Definition push_when (c : bool) (msg : jsstring) (issues : list jsstring)
  : list jsstring :=
  if c then issues ++ [msg] else issues.

(** [!post.title || post.title.trim().length === 0] *)
Definition title_missing (post : MongoPost) : bool :=
  falsy_opt (title post) || (length (trim (or_empty (title post))) =? 0).

(** [post.title && post.title.length > n] *)
Definition title_longer_than (n : nat) (post : MongoPost) : bool :=
  negb (falsy_opt (title post)) && (n <? length (or_empty (title post))).

(** [${post.status}] *)
Definition status_to_js (s : option Z) : jsstring :=
  match s with
  | None => js "undefined"
  | Some z => Z_to_js z
  end.

Definition status_is (z : Z) (s : option Z) : bool :=
  match s with
  | Some v => Z.eqb v z
  | None => false
  end.

(** The validator of [src/lib/mongodb.ts]. *)
Module Strict.

Definition validatePostContent (post : MongoPost) : ValidationResult :=
let issues := [] in
let issues := push_when (title_missing post)
                (js "Missing or empty title") issues in
let issues :=
  push_when (falsy_opt (content_text post)
             || (length (trim (or_empty (content_text post))) =? 0))
    (js "Missing or empty content") issues in
let cleanContent := cleanHtmlContent (or_empty (content_text post)) in
let issues := push_when (length cleanContent <? 50)
                (js "Content too short (minimum 50 characters)") issues in
let issues := push_when (title_longer_than 200 post)
                (js "Title too long (maximum 200 characters)") issues in
let issues :=
  push_when (negb (status_is 1 (status post)))
    (js "Post status is " ++ status_to_js (status post)
       ++ js " (not published)") issues in
{| isValid := length issues =? 0; issues := issues |}.

End Strict.

(** The first truthy body candidate: [content.text], then the untyped [text]
    and [body], then [summary], then [seo_description]; [''] otherwise. *)
Definition resolve_content (post : MongoPost) : jsstring :=
  if negb (falsy_opt (content_text post)) then or_empty (content_text post)
  else if negb (falsy_opt (post_text post)) then or_empty (post_text post)
  else if negb (falsy_opt (post_body post)) then or_empty (post_body post)
  else if negb (falsy_opt (summary post)) then or_empty (summary post)
  else if negb (falsy_opt (seo_description post))
       then or_empty (seo_description post)
  else [].

(** The relaxed validator of the later revision of the same module. *)
Module Relaxed.

Definition validatePostContent (post : MongoPost) : ValidationResult :=
let issues := [] in
let issues := push_when (title_missing post)
                (js "Missing or empty title") issues in
let contentText := resolve_content post in
let issues :=
  push_when (falsy contentText || (length (trim contentText) =? 0))
    (js "Missing or empty content in all possible fields") issues in
let cleanContent := cleanHtmlContent contentText in
let issues :=
  push_when (length cleanContent <? 5)
    (js "Content too short (" ++ nat_to_js (length cleanContent)
       ++ js " chars, minimum 5 characters)") issues in
let issues := push_when (title_longer_than 500 post)
                (js "Title too long (maximum 500 characters)") issues in
let issues :=
  push_when (match status post with
             | None => false
             | Some z => negb (Z.eqb z 1) && negb (Z.eqb z 0)
             end)
    (js "Post status is " ++ status_to_js (status post)
       ++ js " (unusual status)") issues in
{| isValid := length issues =? 0; issues := issues |}.

End Relaxed.


(** *** The validation rules as the specification words them

    One rule set for both modes, differing in the thresholds only: title
    present and non-empty; body resolved from the candidate fields and
    non-empty; cleaned body of at least [minBody] units; title of at most
    [maxTitle] units; status accepted. *)
Definition stated_rules (minBody maxTitle : nat) (accepted : option Z -> bool)
    (post : MongoPost) : bool :=
  negb (falsy_opt (title post))
  && negb (falsy (resolve_content post))
  && (minBody <=? length (cleanHtmlContent (resolve_content post)))
  && (length (or_empty (title post)) <=? maxTitle)
  && accepted (status post).

Definition strict_status (s : option Z) : bool := status_is 1 s.

Definition relaxed_status (s : option Z) : bool :=
  match s with
  | None => true
  | Some z => Z.eqb z 1 || Z.eqb z 0
  end.

(** A post with nothing but an identifier and a creation date. *)
Definition blank_post (i : ObjectId) : MongoPost :=
  {| _id := i; is_old_record := None; weight := None; integer_id := None;
     old_id := None; author_id := None; created_at := DateAt 0;
     published_at := None; title := None; summary := None;
     seo_description := None; seo_keywords := None; old_slug := None;
     slug := None; categories := None; hit := None; show_on_mainpage := None;
     location := None; topics := None; source_id := None; status := None;
     attachments := None; content := None; post_text := None;
     post_body := None |}.

Definition with_title (t : jsstring) (p : MongoPost) : MongoPost :=
  {| _id := _id p; is_old_record := is_old_record p; weight := weight p;
     integer_id := integer_id p; old_id := old_id p; author_id := author_id p;
     created_at := created_at p; published_at := published_at p;
     title := Some t; summary := summary p;
     seo_description := seo_description p; seo_keywords := seo_keywords p;
     old_slug := old_slug p; slug := slug p; categories := categories p;
     hit := hit p; show_on_mainpage := show_on_mainpage p;
     location := location p; topics := topics p; source_id := source_id p;
     status := status p; attachments := attachments p; content := content p;
     post_text := post_text p; post_body := post_body p |}.

Definition with_summary (t : jsstring) (p : MongoPost) : MongoPost :=
  {| _id := _id p; is_old_record := is_old_record p; weight := weight p;
     integer_id := integer_id p; old_id := old_id p; author_id := author_id p;
     created_at := created_at p; published_at := published_at p;
     title := title p; summary := Some t;
     seo_description := seo_description p; seo_keywords := seo_keywords p;
     old_slug := old_slug p; slug := slug p; categories := categories p;
     hit := hit p; show_on_mainpage := show_on_mainpage p;
     location := location p; topics := topics p; source_id := source_id p;
     status := status p; attachments := attachments p; content := content p;
     post_text := post_text p; post_body := post_body p |}.

Definition with_status (z : Z) (p : MongoPost) : MongoPost :=
  {| _id := _id p; is_old_record := is_old_record p; weight := weight p;
     integer_id := integer_id p; old_id := old_id p; author_id := author_id p;
     created_at := created_at p; published_at := published_at p;
     title := title p; summary := summary p;
     seo_description := seo_description p; seo_keywords := seo_keywords p;
     old_slug := old_slug p; slug := slug p; categories := categories p;
     hit := hit p; show_on_mainpage := show_on_mainpage p;
     location := location p; topics := topics p; source_id := source_id p;
     status := Some z; attachments := attachments p; content := content p;
     post_text := post_text p; post_body := post_body p |}.

Definition with_content (t : jsstring) (p : MongoPost) : MongoPost :=
  {| _id := _id p; is_old_record := is_old_record p; weight := weight p;
     integer_id := integer_id p; old_id := old_id p; author_id := author_id p;
     created_at := created_at p; published_at := published_at p;
     title := title p; summary := summary p;
     seo_description := seo_description p; seo_keywords := seo_keywords p;
     old_slug := old_slug p; slug := slug p; categories := categories p;
     hit := hit p; show_on_mainpage := show_on_mainpage p;
     location := location p; topics := topics p; source_id := source_id p;
     status := status p; attachments := attachments p;
     content := Some {| text := Some t |};
     post_text := post_text p; post_body := post_body p |}.

Definition with_body (t : jsstring) (p : MongoPost) : MongoPost :=
  {| _id := _id p; is_old_record := is_old_record p; weight := weight p;
     integer_id := integer_id p; old_id := old_id p; author_id := author_id p;
     created_at := created_at p; published_at := published_at p;
     title := title p; summary := summary p;
     seo_description := seo_description p; seo_keywords := seo_keywords p;
     old_slug := old_slug p; slug := slug p; categories := categories p;
     hit := hit p; show_on_mainpage := show_on_mainpage p;
     location := location p; topics := topics p; source_id := source_id p;
     status := status p; attachments := attachments p; content := content p;
     post_text := post_text p; post_body := Some t |}.

(** Sample texts. *)
Definition sixty_units : jsstring :=
  js "Merkez bankasi faiz kararini acikladi ve piyasalar hareketlendi.".

(** A published record with a body and a title of three spaces. *)
Definition blank_title_post : MongoPost :=
  with_status 1 (with_content sixty_units
    (with_title (js "   ") (blank_post (js "65a1f0c2d4e5f6a7b8c9d0e5")))).

(** A published record whose only body text is its summary. *)
Definition summary_only_post : MongoPost :=
  with_status 1 (with_summary sixty_units
    (with_title (js "Haber") (blank_post (js "65a1f0c2d4e5f6a7b8c9d0e1")))).


(* ================================================================== *)
(** ** Numbers: IEEE 754 binary64 *)
(* ================================================================== *)

Module F64.

Definition prec : Z := 53.
Definition emax : Z := 1024.

Definition float := spec_float.

Definition nan : float := S754_nan.
Definition zero : float := S754_zero false.

Definition add : float -> float -> float := SFadd prec emax.
Definition mul : float -> float -> float := SFmul prec emax.
Definition div : float -> float -> float := SFdiv prec emax.
Definition sqrt : float -> float := SFsqrt prec emax.

(** [a === b] and [a < b] on numbers. *)
Definition eqb : float -> float -> bool := SFeqb.
Definition ltb : float -> float -> bool := SFltb.

(** An integer as a number (rounded to nearest when it needs more than 53
  bits). *)
Definition of_Z (z : Z) : float := binary_normalize prec emax z 0 false.
Definition of_nat (n : nat) : float := of_Z (Z.of_nat n).

(** The literals [0.1], [0.01] and [10000]: a decimal literal denotes the
  double nearest to it, which is what the correctly rounded quotient is. *)
Definition lit_0_1 : float := div (of_Z 1) (of_Z 10).
Definition lit_0_01 : float := div (of_Z 1) (of_Z 100).
Definition lit_10000 : float := of_Z 10000.

Definition is_nan (x : float) : bool :=
match x with S754_nan => true | _ => false end.

Definition is_zero (x : float) : bool :=
match x with S754_zero _ => true | _ => false end.

(** Neither NaN nor an infinity. *)
Definition is_finite (x : float) : bool :=
match x with S754_nan | S754_infinity _ => false | _ => true end.

End F64.

(** ToInt32, the conversion behind [<<] and [&]. *)
Definition to_int32 (z : Z) : Z :=
  ((z + 2147483648) mod 4294967296 - 2147483648)%Z.

(* ================================================================== *)
(** ** Fallback embedding ([src/lib/vector-service.ts]) *)
(* ================================================================== *)

(** [simpleHash]: [hash = ((hash << 5) - hash) + char; hash = hash & hash],
    then [Math.abs]. *)
Definition simpleHash_step (hash : Z) (char : jschar) : Z :=
  to_int32 (to_int32 (hash * 32) - hash + Z.of_N char)%Z.

Definition simpleHash (str : jsstring) : Z :=
  Z.abs (fold_left simpleHash_step str 0%Z).

(** [s.match(/\w+/g) || []]: the maximal runs of word characters. *)
Fixpoint words_from (cur : jsstring) (s : jsstring) : list jsstring :=
  match s with
  | [] => match cur with [] => [] | _ => [rev cur] end
  | c :: r =>
      if is_word c then words_from (c :: cur) r
      else match cur with
           | [] => words_from [] r
           | _ => rev cur :: words_from [] r
           end
  end.

Definition match_words (s : jsstring) : list jsstring := words_from [] s.

(** A value stored in the frequency record: a count, or the text that
    results from adding [1] to a function or object found on the prototype
    chain (a text that is not a numeral, whatever its exact wording). *)
Inductive FreqVal :=
| Count (n : nat)
| NotANumeral.

(** The names every plain object inherits from [Object.prototype]. *)
Definition inherited_function_names : list jsstring :=
  [js "constructor"; js "hasOwnProperty"; js "isPrototypeOf";
   js "propertyIsEnumerable"; js "toLocaleString"; js "toString";
   js "valueOf"; js "__defineGetter__"; js "__defineSetter__";
   js "__lookupGetter__"; js "__lookupSetter__"].

Definition proto_name : jsstring := js "__proto__".

(** A plain object used as a record: its own properties in creation order. *)
Definition FreqRecord := list (jsstring * FreqVal).

Fixpoint own_get (o : FreqRecord) (k : jsstring) : option FreqVal :=
  match o with
  | [] => None
  | (k', v) :: r => if jsstring_eqb k' k then Some v else own_get r k
  end.

Fixpoint own_set (o : FreqRecord) (k : jsstring) (v : FreqVal) : FreqRecord :=
  match o with
  | [] => [(k, v)]
  | (k', v') :: r =>
      if jsstring_eqb k' k then (k', v) :: r else (k', v') :: own_set r k v
  end.

(** [wordFreq[word] = (wordFreq[word] || 0) + 1] on an object literal.
    An own count is incremented.  A missing key reads [undefined] and gets
    count 1, unless the name is inherited: an inherited function is truthy,
    adding [1] to it concatenates texts, and the text becomes an own
    property; [__proto__] reads the prototype object, and assigning a text
    to it is ignored. *)
Definition count_word (o : FreqRecord) (word : jsstring) : FreqRecord :=
  match own_get o word with
  | Some (Count n) => own_set o word (Count (S n))
  | Some NotANumeral => own_set o word NotANumeral
  | None =>
      if jsstring_eqb word proto_name then o
      else if existsb (jsstring_eqb word) inherited_function_names
           then own_set o word NotANumeral
           else own_set o word (Count 1)
  end.

(** Array-index keys: canonical decimal numerals up to 2^32 - 2. *)
Definition is_digit (c : jschar) : bool := ((48 <=? c) && (c <=? 57))%N.

Definition numeral_value (k : jsstring) : N :=
  fold_left (fun acc c => (acc * 10 + (c - 48))%N) k 0%N.

Definition array_index (k : jsstring) : option N :=
  match k with
  | [] => None
  | c :: r =>
      if forallb is_digit k
         && (negb (N.eqb c 48) || match r with [] => true | _ => false end)
         && (length k <=? 10)
         && (numeral_value k <=? 4294967294)%N
      then Some (numeral_value k)
      else None
  end.

Fixpoint insert_by_index (e : N * (jsstring * FreqVal))
    (l : list (N * (jsstring * FreqVal))) : list (N * (jsstring * FreqVal)) :=
  match l with
  | [] => [e]
  | x :: r => if (fst e <? fst x)%N then e :: l else x :: insert_by_index e r
  end.

(** [Object.entries]: array-index keys in ascending numeric order, then the
    other keys in creation order. *)
Definition Object_entries (o : FreqRecord) : list (jsstring * FreqVal) :=
  let indexed :=
    fold_right
      (fun kv acc =>
         match array_index (fst kv) with
         | Some i => insert_by_index (i, kv) acc
         | None => acc
         end) [] o in
  map snd indexed
  ++ filter (fun kv => match array_index (fst kv) with
                       | Some _ => false | None => true end) o.

(** The code points of a text, as string iteration yields them: a high
    surrogate followed by a low one is one code point. *)
Fixpoint code_points (s : jsstring) : list N :=
  match s with
  | [] => []
  | c :: r =>
      match r with
      | d :: r' =>
          if ((55296 <=? c) && (c <=? 56319)
              && (56320 <=? d) && (d <=? 57343))%N
          then match code_points r with
               | _ :: rest => (65536 + (c - 55296) * 1024 + (d - 56320))%N :: rest
               | [] => [c]
               end
          else c :: code_points r
      | [] => [c]
      end
  end.

(** [new Set(xs).size] *)
Definition distinct_count (xs : list N) : nat := length (nodup N.eq_dec xs).

(** [arr[i] = f(arr[i])] for an index inside the array. *)
Fixpoint update_at (i : nat) (f : F64.float -> F64.float) (l : list F64.float)
  : list F64.float :=
  match l, i with
  | [], _ => []
  | x :: r, O => f x :: r
  | x :: r, S j => x :: update_at j f r
  end.

Section SimpleEmbedding.
(** Host functions: [String.prototype.toLowerCase], [Math.cos] and
    [Math.sin] (implementation-approximated). *)
Variable toLowerCase : jsstring -> jsstring.
Variable Math_cos Math_sin : F64.float -> F64.float.

(** [freq / words.length]: a text that is not a numeral converts to NaN. *)
Definition freq_ratio (freq : FreqVal) (nwords : nat) : F64.float :=
  match freq with
  | Count n => F64.div (F64.of_nat n) (F64.of_nat nwords)
  | NotANumeral => F64.nan
  end.

(** The inner loop over [i = 0 .. 4] for one entry of the record. *)
Definition scatter_word (vectorSize nwords : nat)
    (embedding : list F64.float) (entry : jsstring * FreqVal)
  : list F64.float :=
  let hash := simpleHash (fst entry) in
  fold_left
    (fun emb i =>
       let position :=
         Z.to_nat ((hash + Z.of_nat i * 307) mod Z.of_nat vectorSize) in
       update_at position
         (fun old =>
            F64.add old
              (F64.mul (freq_ratio (snd entry) nwords)
                 (Math_cos (F64.mul (F64.of_nat i) F64.lit_0_1))))
         emb)
    (seq 0 5) embedding.

(** The loop that fills entries still equal to zero among the first
    hundred. *)
Definition fill_statistics (vectorSize textLength uniqueChars : nat)
    (embedding : list F64.float) : list F64.float :=
  fold_left
    (fun emb i =>
       update_at i
         (fun old =>
            if F64.eqb old F64.zero then
              F64.div
                (F64.mul
                   (F64.mul (F64.of_nat textLength) (F64.of_nat uniqueChars))
                   (Math_sin (F64.mul (F64.of_nat i) F64.lit_0_01)))
                F64.lit_10000
            else old)
         emb)
    (seq 0 (Nat.min 100 vectorSize)) embedding.

Definition magnitude_of (embedding : list F64.float) : F64.float :=
  F64.sqrt
    (fold_left (fun sum val => F64.add sum (F64.mul val val))
       embedding F64.zero).

Definition generateSimpleEmbedding (vectorSize : nat) (text : jsstring)
  : list F64.float :=
  let words := match_words (toLowerCase text) in
  let embedding := repeat F64.zero vectorSize in
  let wordFreq := fold_left count_word words [] in
  let embedding :=
    fold_left (scatter_word vectorSize (length words))
      (Object_entries wordFreq) embedding in
  let textLength := length text in
  let uniqueChars := distinct_count (code_points (toLowerCase text)) in
  let embedding :=
    fill_statistics vectorSize textLength uniqueChars embedding in
  let magnitude := magnitude_of embedding in
  if F64.ltb F64.zero magnitude
  then map (fun val => F64.div val magnitude) embedding
  else embedding.
End SimpleEmbedding.


(* ================================================================== *)
(** ** Target records *)
(* ================================================================== *)

(** The [source_metadata] blob built by the relational transformer. *)
Record SourceMetadata := {
  mongo_id : jsstring;
  sm_integer_id : option Z;
  sm_old_id : option Z;
  sm_slug : option jsstring;
  sm_old_slug : option jsstring;
  sm_categories : list jsstring;
  sm_topics : list jsstring;
  hit_count : Z;
  sm_seo_keywords : option jsstring;
  sm_author_id : option jsstring;
  sm_source_id : option jsstring;
  sm_location : option Z;
  sm_is_old_record : option bool;
  sm_weight : option Z;
  sm_show_on_mainpage : option bool;
  sm_attachments : option PostCover;
  original_raw_content : jsstring;
  migration_timestamp : jsstring
}.

(** [TransformationResult.data] *)
Record ArticleData := {
  art_title : option jsstring;
  art_content : jsstring;
  art_summary : option jsstring;
  art_published_at : option JsDate;
  art_channel_id : jsstring;
  art_source_metadata : SourceMetadata
}.

Record TransformationResult := {
  success : bool;
  data : option ArticleData;
  error : option jsstring;
  skipped : bool;
  skip_reason : option jsstring
}.

(** The row handed to [newsArticlesApi.create]. *)
Record ArticleInsert := {
  row_data : ArticleData;
  analysis_completed : bool;
  migrated_at : jsstring
}.

Record NewsChannel := {
  channel_id : jsstring;
  channel_name : jsstring
}.

(** [NewsArticleVector] *)
Record NewsArticleVector := {
  nav_id : jsstring;
  nav_channel_id : jsstring;
  nav_title : option jsstring;
  nav_content : jsstring;
  nav_published_at : JsDate;
  nav_categories : list jsstring;
  nav_topics : list jsstring;
  political_score : option F64.float;
  event_category : option jsstring;
  source_url : option jsstring;
  original_mongo_id : option jsstring
}.

Record PointPayload := {
  pl_channel_id : jsstring;
  pl_title : option jsstring;
  pl_content : jsstring;
  content_preview : jsstring;
  pl_published_at : jsstring;
  pl_categories : list jsstring;
  pl_topics : list jsstring;
  pl_political_score : option F64.float;
  pl_event_category : option jsstring;
  pl_source_url : option jsstring;
  pl_original_mongo_id : option jsstring
}.

Record VectorPoint := {
  point_id : jsstring;
  vector : list F64.float;
  payload : PointPayload
}.

Record VectorTransformation := {
  v_success : bool;
  v_data : option NewsArticleVector;
  v_error : option jsstring;
  v_skipped : bool;
  v_skip_reason : option jsstring
}.

Record ErrorDetail := {
  post_id : jsstring;
  detail : jsstring
}.

(** [MigrationResult] *)
Record MigrationResult := {
  mr_success : bool;
  processed : nat;
  inserted : nat;
  mr_skipped : nat;
  mr_errors : nat;
  duration : Z;
  error_details : list ErrorDetail
}.

Record FetchOptions := {
  fo_limit : option nat;
  fo_skip : option nat;
  fo_fromDate : option JsDate;
  fo_toDate : option JsDate;
  fo_lastId : option jsstring
}.

(** Calls on the relational store and on the vector index, as far as the
    outside can tell them apart when it decides to fail one. *)
Inductive RelCall :=
| ChannelsGetAll
| ChannelsCreate (name : jsstring)
| ArticlesCreate (row : ArticleInsert).

Inductive VecCall :=
| GetCollections
| CreateCollection (name : jsstring) (size : nat)
| CreatePayloadIndex (name field : jsstring)
| GetCollection (name : jsstring)
| Upsert (name : jsstring) (pts : list VectorPoint).

(* ================================================================== *)
(** ** The world and its computations *)
(* ================================================================== *)

(** Everything outside the process: the source database, the network, the
    clock, the entropy pool.  [Env] is its state; each call on it answers
    and moves it on. *)
Record Outside (Env : Type) := {
  Date_now_at : Env -> Z * Env;
  randomUUID_at : Env -> jsstring * Env;
  fresh_channel_id : Env -> jsstring * Env;
  (** the source reader, at its interface *)
  mongo_connect_at : Env -> Outcome unit * Env;
  mongo_disconnect_at : Env -> Outcome unit * Env;
  mongo_healthCheck_at : Env -> bool * Env;
  mongo_fetchPosts_at : FetchOptions -> Env -> Outcome (list MongoPost) * Env;
  mongo_getPostCount_at :
    option JsDate -> option JsDate -> Env -> Outcome nat * Env;
  (** whether the store or the index refuses a call (constraint, network) *)
  rel_fault : RelCall -> Env -> option Thrown * Env;
  vec_fault : VecCall -> Env -> option Thrown * Env;
  (** the remote embedding model: the [data] array of its response *)
  openai_embeddings_create :
    jsstring -> Env -> Outcome (list (list F64.float)) * Env
}.
Arguments Date_now_at {Env} _ _.
Arguments randomUUID_at {Env} _ _.
Arguments fresh_channel_id {Env} _ _.
Arguments mongo_connect_at {Env} _ _.
Arguments mongo_disconnect_at {Env} _ _.
Arguments mongo_healthCheck_at {Env} _ _.
Arguments mongo_fetchPosts_at {Env} _ _ _.
Arguments mongo_getPostCount_at {Env} _ _ _ _.
Arguments rel_fault {Env} _ _ _.
Arguments vec_fault {Env} _ _ _.
Arguments openai_embeddings_create {Env} _ _ _.

(** Host functions of the language runtime. *)
Record Host := {
  toLowerCase : jsstring -> jsstring;
  Math_cos : F64.float -> F64.float;
  Math_sin : F64.float -> F64.float;
  (** [Date.prototype.toISOString] of a valid time value *)
  toISOString_of : Z -> jsstring
}.

(** The relational store, the vector index and the mutable fields of the
    service objects. *)
Record World (Env : Type) := {
  env : Env;
  channels : list NewsChannel;
  articles : list ArticleInsert;
  collections : list (jsstring * nat);
  payload_indexes : list (jsstring * jsstring);
  points : list VectorPoint;
  defaultChannelId : option jsstring
}.
Arguments env {Env} _.
Arguments channels {Env} _.
Arguments articles {Env} _.
Arguments collections {Env} _.
Arguments payload_indexes {Env} _.
Arguments points {Env} _.
Arguments defaultChannelId {Env} _.

Section Computations.
Variable Env : Type.

Definition set_env (e : Env) (w : World Env) : World Env :=
  {| env := e; channels := channels w; articles := articles w;
     collections := collections w; payload_indexes := payload_indexes w;
     points := points w; defaultChannelId := defaultChannelId w |}.

Definition M (A : Type) : Type := World Env -> Outcome A * World Env.

Definition ret {A} (a : A) : M A := fun w => (Returned a, w).

Definition throw {A} (e : Thrown) : M A := fun w => (Threw e, w).

Definition bind {A B} (c : M A) (k : A -> M B) : M B :=
  fun w =>
    match c w with
    | (Returned a, w') => k a w'
    | (Threw e, w') => (Threw e, w')
    end.

(** [try { c } catch (e) { h e }] *)
Definition try_catch {A} (c : M A) (h : Thrown -> M A) : M A :=
  fun w =>
    match c w with
    | (Returned a, w') => (Returned a, w')
    | (Threw e, w') => h e w'
    end.

(** [try { c } finally { f }] *)
Definition try_finally {A} (c : M A) (f : M unit) : M A :=
  fun w =>
    match c w with
    | (r, w') =>
        match f w' with
        | (Returned _, w'') => (r, w'')
        | (Threw e, w'') => (Threw e, w'')
        end
    end.

Definition modify (f : World Env -> World Env) : M unit :=
  fun w => (Returned tt, f w).

Definition read {A} (f : World Env -> A) : M A :=
  fun w => (Returned (f w), w).

(** A call on the outside that cannot throw. *)
Definition ask {A} (f : Env -> A * Env) : M A :=
  fun w => let (a, e) := f (env w) in (Returned a, set_env e w).

(** A call on the outside that may throw. *)
Definition call {A} (f : Env -> Outcome A * Env) : M A :=
  fun w => let (r, e) := f (env w) in (r, set_env e w).

(** A call on a target service: refused, or carried out. *)
Definition guarded {A} (fault : Env -> option Thrown * Env) (act : M A)
  : M A :=
  fun w =>
    match fault (env w) with
    | (Some e, env') => (Threw e, set_env env' w)
    | (None, env') => act (set_env env' w)
    end.
End Computations.
Arguments set_env {Env} e w.
Arguments ret {Env A} a _.
Arguments throw {Env A} e _.
Arguments bind {Env A B} c k _.
Arguments try_catch {Env A} c h _.
Arguments try_finally {Env A} c f _.
Arguments modify {Env} f _.
Arguments read {Env A} f _.
Arguments ask {Env A} f _.
Arguments call {Env A} f _.
Arguments guarded {Env A} fault act _.

Declare Scope etl_scope.
Delimit Scope etl_scope with etl.
Notation "x <- c ;; k" := (bind c (fun x => k))
  (at level 61, c at next level, right associativity) : etl_scope.
Notation "c ;;; k" := (bind c (fun _ => k))
  (at level 61, right associativity) : etl_scope.
Open Scope etl_scope.


(* ================================================================== *)
(** ** Service calls *)
(* ================================================================== *)

Set Implicit Arguments.

Section Services.
Variable Env : Type.
Variable out : Outside Env.
Variable host : Host.

Definition Date_now : M Env Z := ask (Date_now_at out).

(** [new Date().toISOString()] *)
Definition now_iso : M Env jsstring :=
  t <- Date_now ;; ret (toISOString_of host t).

(** [date.toISOString()], a RangeError on the invalid date. *)
Definition toISOString (d : JsDate) : M Env jsstring :=
  match d with
  | DateAt ms => ret (toISOString_of host ms)
  | InvalidDate => throw (ErrorObj (js "Invalid time value"))
  end.

Definition randomUUID : M Env jsstring := ask (randomUUID_at out).

(** *** Source reader *)
Definition mongo_connect : M Env unit := call (mongo_connect_at out).
Definition mongo_disconnect : M Env unit := call (mongo_disconnect_at out).
Definition mongo_healthCheck : M Env bool := ask (mongo_healthCheck_at out).
Definition mongo_fetchPosts (o : FetchOptions) : M Env (list MongoPost) :=
  call (mongo_fetchPosts_at out o).
Definition mongo_getPostCount (fromDate toDate : option JsDate)
  : M Env nat :=
  call (mongo_getPostCount_at out fromDate toDate).

(** *** Relational writer *)
Definition newsChannelsApi_getAll : M Env (list NewsChannel) :=
  guarded (rel_fault out ChannelsGetAll) (read channels).

Definition newsChannelsApi_create (name : jsstring) : M Env NewsChannel :=
  guarded (rel_fault out (ChannelsCreate name))
    (i <- ask (fresh_channel_id out) ;;
     let c := {| channel_id := i; channel_name := name |} in
     modify (fun w =>
       {| env := env w; channels := channels w ++ [c];
          articles := articles w; collections := collections w;
          payload_indexes := payload_indexes w; points := points w;
          defaultChannelId := defaultChannelId w |}) ;;;
     ret c).

Definition newsArticlesApi_create (row : ArticleInsert) : M Env unit :=
  guarded (rel_fault out (ArticlesCreate row))
    (modify (fun w =>
       {| env := env w; channels := channels w;
          articles := articles w ++ [row]; collections := collections w;
          payload_indexes := payload_indexes w; points := points w;
          defaultChannelId := defaultChannelId w |})).

Definition set_defaultChannelId (i : jsstring) : M Env unit :=
  modify (fun w =>
    {| env := env w; channels := channels w; articles := articles w;
       collections := collections w; payload_indexes := payload_indexes w;
       points := points w; defaultChannelId := Some i |}).

(** *** Vector index *)
Definition qdrant_getCollections : M Env (list (jsstring * nat)) :=
  guarded (vec_fault out GetCollections) (read collections).

Definition qdrant_createCollection (name : jsstring) (size : nat)
  : M Env unit :=
  guarded (vec_fault out (CreateCollection name size))
    (modify (fun w =>
       {| env := env w; channels := channels w; articles := articles w;
          collections := collections w ++ [(name, size)];
          payload_indexes := payload_indexes w; points := points w;
          defaultChannelId := defaultChannelId w |})).

Definition qdrant_createPayloadIndex (name field : jsstring) : M Env unit :=
  guarded (vec_fault out (CreatePayloadIndex name field))
    (modify (fun w =>
       {| env := env w; channels := channels w; articles := articles w;
          collections := collections w;
          payload_indexes := payload_indexes w ++ [(name, field)];
          points := points w;
          defaultChannelId := defaultChannelId w |})).

Definition qdrant_getCollection (name : jsstring) : M Env nat :=
  guarded (vec_fault out (GetCollection name))
    (read (fun w => length (points w))).

(** An upsert replaces the stored point of the same identifier. *)
Definition upsert_point (stored : list VectorPoint) (p : VectorPoint)
  : list VectorPoint :=
  filter (fun q => negb (jsstring_eqb (point_id q) (point_id p))) stored
  ++ [p].

Definition qdrant_upsert (name : jsstring) (pts : list VectorPoint)
  : M Env unit :=
  guarded (vec_fault out (Upsert name pts))
    (modify (fun w =>
       {| env := env w; channels := channels w; articles := articles w;
          collections := collections w;
          payload_indexes := payload_indexes w;
          points := fold_left upsert_point pts (points w);
          defaultChannelId := defaultChannelId w |})).

(* ================================================================ *)
(** ** Relational ETL service *)
(* ================================================================ *)

(** [a || b || ''] *)
Definition first_truthy (a b : option jsstring) : jsstring :=
  if negb (falsy_opt a) then or_empty a
  else if negb (falsy_opt b) then or_empty b
  else [].

(** [s || undefined] *)
Definition truthy_or_undefined (s : jsstring) : option jsstring :=
  if falsy s then None else Some s.

Definition list_or_empty {A} (l : option (list A)) : list A :=
  match l with Some x => x | None => [] end.

(** [n || 0] *)
Definition number_or_zero (n : option Z) : Z :=
  match n with Some z => z | None => 0%Z end.

Definition skipped_result (issues : list jsstring) : TransformationResult :=
  {| success := false; data := None; error := None; skipped := true;
     skip_reason :=
       Some (js "Validation failed: " ++ join (js ", ") issues) |}.

(** The summary of [transformPost]: the given summary or SEO description,
    else the first 200 units of the cleaned body, with an ellipsis when
    the body is longer. *)
Definition derive_summary (mongoPost : MongoPost) (cleanContent : jsstring)
  : jsstring :=
  let summary :=
    first_truthy (summary mongoPost) (seo_description mongoPost) in
  if falsy summary && negb (falsy cleanContent) then
    let summary := substring0 200 cleanContent in
    if 200 <? length cleanContent then summary ++ js "..." else summary
  else summary.

(** [transformPost].  On a record of the declared type no statement of
    the [try] block throws, so the [catch] branch produces no result. *)
Definition transformPost (mongoPost : MongoPost) (channelId : jsstring)
  : M Env TransformationResult :=
  let validation := Strict.validatePostContent mongoPost in
  if negb (isValid validation) then ret (skipped_result (issues validation))
  else
    let rawContent := or_empty (content_text mongoPost) in
    let cleanContent := cleanHtmlContent rawContent in
    let summary := derive_summary mongoPost cleanContent in
    stamp <- now_iso ;;
    let sourceMetadata :=
      {| mongo_id := ObjectId_toString (_id mongoPost);
         sm_integer_id := integer_id mongoPost;
         sm_old_id := old_id mongoPost;
         sm_slug := slug mongoPost;
         sm_old_slug := old_slug mongoPost;
         sm_categories := list_or_empty (categories mongoPost);
         sm_topics := list_or_empty (topics mongoPost);
         hit_count := number_or_zero (hit mongoPost);
         sm_seo_keywords := seo_keywords mongoPost;
         sm_author_id := author_id mongoPost;
         sm_source_id := source_id mongoPost;
         sm_location := location mongoPost;
         sm_is_old_record := is_old_record mongoPost;
         sm_weight := weight mongoPost;
         sm_show_on_mainpage := show_on_mainpage mongoPost;
         sm_attachments := attachments mongoPost;
         original_raw_content := rawContent;
         migration_timestamp := stamp |} in
    ret {| success := true;
           data := Some {| art_title := title mongoPost;
                           art_content := cleanContent;
                           art_summary := truthy_or_undefined summary;
                           art_published_at := published_at mongoPost;
                           art_channel_id := channelId;
                           art_source_metadata := sourceMetadata |};
           error := None; skipped := false; skip_reason := None |}.

Record BatchResults := {
  successful : nat;
  failed_count : nat;
  skipped_count : nat;
  errors : list jsstring
}.

Definition no_results : BatchResults :=
  {| successful := 0; failed_count := 0; skipped_count := 0; errors := [] |}.

(** [results.failed++; results.errors.push(msg)] *)
Definition record_failure (msg : jsstring) (r : BatchResults) : BatchResults :=
  {| successful := successful r; failed_count := S (failed_count r);
     skipped_count := skipped_count r; errors := errors r ++ [msg] |}.

Definition record_skip (r : BatchResults) : BatchResults :=
  {| successful := successful r; failed_count := failed_count r;
     skipped_count := S (skipped_count r); errors := errors r |}.

Definition record_success (r : BatchResults) : BatchResults :=
  {| successful := S (successful r); failed_count := failed_count r;
     skipped_count := skipped_count r; errors := errors r |}.

(** [${v}] of an optional text *)
Definition opt_to_js (v : option jsstring) : jsstring :=
  match v with Some s => s | None => js "undefined" end.

Definition post_label (post : MongoPost) : jsstring :=
  js "Post " ++ ObjectId_toString (_id post) ++ js ": ".

(** The transformer is reached through [this]; the loop is written over
    any transformer of that type. *)
Definition Transformer : Type :=
  MongoPost -> jsstring -> M Env TransformationResult.

(** The [try] block of the [for] loop of [processBatch]. *)
Definition attemptPost (transform : Transformer) (channelId : jsstring)
    (post : MongoPost) (results : BatchResults) : M Env BatchResults :=
  transformation <- transform post channelId ;;
  if negb (success transformation) then
    if skipped transformation then ret (record_skip results)
    else ret (record_failure
                (post_label post ++ opt_to_js (error transformation))
                results)
  else
    match data transformation with
    | None =>
        ret (record_failure
               (post_label post ++ js "No transformation data") results)
    | Some d =>
        stamp <- now_iso ;;
        newsArticlesApi_create
          {| row_data := d; analysis_completed := false;
             migrated_at := stamp |} ;;;
        ret (record_success results)
    end.

(** One turn of that loop, [catch] included. *)
Definition processPost (transform : Transformer) (channelId : jsstring)
    (post : MongoPost) (results : BatchResults) : M Env BatchResults :=
  try_catch (attemptPost transform channelId post results)
    (fun e =>
       ret (record_failure
              (post_label post ++ error_message (js "Unknown error") e)
              results)).

(** A record fails when its transformation reports an error, or when its
    transformation or the write of its row throws.  [msg] is the message
    the failure leaves and [w'] the world it leaves. *)
Inductive record_fails (transform : Transformer) (channelId : jsstring)
    (post : MongoPost) (results : BatchResults) (w : World Env)
  : jsstring -> World Env -> Prop :=
| fails_reported (t : TransformationResult) (w' : World Env) :
    transform post channelId w = (Returned t, w') ->
    success t = false -> skipped t = false ->
    record_fails transform channelId post results w
      (post_label post ++ opt_to_js (error t)) w'
| fails_thrown (e : Thrown) (w' : World Env) :
    attemptPost transform channelId post results w = (Threw e, w') ->
    record_fails transform channelId post results w
      (post_label post ++ error_message (js "Unknown error") e) w'.

Fixpoint processPosts (transform : Transformer) (channelId : jsstring)
    (posts : list MongoPost) (results : BatchResults) : M Env BatchResults :=
  match posts with
  | [] => ret results
  | post :: rest =>
      r <- processPost transform channelId post results ;;
      processPosts transform channelId rest r
  end.

Definition processBatchWith (transform : Transformer)
    (posts : list MongoPost) (channelId : jsstring) : M Env BatchResults :=
  processPosts transform channelId posts no_results.

(** [ETLService.processBatch] *)
Definition processBatch (posts : list MongoPost) (channelId : jsstring)
  : M Env BatchResults :=
  processBatchWith transformPost posts channelId.

(** [ensureDefaultChannel] *)
Definition ensureDefaultChannel (channelName : jsstring) : M Env jsstring :=
  cached <- read defaultChannelId ;;
  if negb (falsy_opt cached) then ret (or_empty cached)
  else
    try_catch
      (chans <- newsChannelsApi_getAll ;;
       match find (fun c => jsstring_eqb (channel_name c) channelName) chans
       with
       | Some existing =>
           set_defaultChannelId (channel_id existing) ;;;
           ret (channel_id existing)
       | None =>
           _ <- now_iso ;;
           newChannel <- newsChannelsApi_create channelName ;;
           set_defaultChannelId (channel_id newChannel) ;;;
           ret (channel_id newChannel)
       end)
      (fun e => throw e).

Record MigrateOptions := {
  fromDate : option JsDate;
  toDate : option JsDate;
  channelName : option jsstring;
  dryRun : option bool
}.

(** The variables of the [while] loop of [migrateAllPosts]. *)
Record LoopState := {
  migrationJob : MigrationJob;
  lastId : option jsstring;
  totalProcessed : nat;
  totalFailed : nat;
  allErrors : list jsstring
}.

Definition with_progress (job : MigrationJob) (done bad : nat)
    (cursor : option jsstring) : MigrationJob :=
  {| job_id := job_id job; source_db := source_db job;
     target_channel_id := target_channel_id job;
     job_status := job_status job; total_records := total_records job;
     processed_records := done; failed_records := bad;
     started_at := started_at job; completed_at := completed_at job;
     error_message_of := error_message_of job;
     last_processed_id := cursor |}.

Definition with_failure (job : MigrationJob) (msg : jsstring)
  : MigrationJob :=
  {| job_id := job_id job; source_db := source_db job;
     target_channel_id := target_channel_id job;
     job_status := failed; total_records := total_records job;
     processed_records := processed_records job;
     failed_records := failed_records job;
     started_at := started_at job; completed_at := completed_at job;
     error_message_of := Some msg;
     last_processed_id := last_processed_id job |}.

Definition with_status_of (job : MigrationJob) (s : JobStatus)
  : MigrationJob :=
  {| job_id := job_id job; source_db := source_db job;
     target_channel_id := target_channel_id job;
     job_status := s; total_records := total_records job;
     processed_records := processed_records job;
     failed_records := failed_records job;
     started_at := started_at job; completed_at := completed_at job;
     error_message_of := error_message_of job;
     last_processed_id := last_processed_id job |}.

Definition with_completed_at (job : MigrationJob) (t : Z) : MigrationJob :=
  {| job_id := job_id job; source_db := source_db job;
     target_channel_id := target_channel_id job;
     job_status := job_status job; total_records := total_records job;
     processed_records := processed_records job;
     failed_records := failed_records job;
     started_at := started_at job; completed_at := Some (DateAt t);
     error_message_of := error_message_of job;
     last_processed_id := last_processed_id job |}.

(** The part of the loop body behind a non-empty fetch: process the batch,
    add up, move the cursor to the last fetched record. *)
Definition afterFetch (batch : list MongoPost) (channelId : jsstring)
    (st : LoopState) : M Env LoopState :=
  batchResults <- processBatch batch channelId ;;
  let totalProcessed :=
    totalProcessed st + (successful batchResults + skipped_count batchResults)
  in
  let totalFailed := totalFailed st + failed_count batchResults in
  let allErrors := allErrors st ++ errors batchResults in
  let lastId :=
    match rev batch with
    | lastPost :: _ => Some (ObjectId_toString (_id lastPost))
    | [] => lastId st
    end in
  ret {| migrationJob :=
           with_progress (migrationJob st) totalProcessed totalFailed lastId;
         lastId := lastId;
         totalProcessed := totalProcessed;
         totalFailed := totalFailed;
         allErrors := allErrors |}.

(** One turn of the [while] loop; the flag is [hasMore] without [break]. *)
Definition loopBody (batchSize : nat) (opts : MigrateOptions)
    (channelId : jsstring) (st : LoopState) : M Env (bool * LoopState) :=
  try_catch
    (batch <- mongo_fetchPosts
                {| fo_limit := Some batchSize; fo_skip := None;
                   fo_fromDate := fromDate opts; fo_toDate := toDate opts;
                   fo_lastId := lastId st |} ;;
     if length batch =? 0 then ret (false, st)
     else
       st' <- afterFetch batch channelId st ;;
       ret (true, st'))
    (fun e =>
       ret (false,
            {| migrationJob :=
                 with_failure (migrationJob st)
                   (error_message (js "Unknown error") e);
               lastId := lastId st;
               totalProcessed := totalProcessed st;
               totalFailed := totalFailed st;
               allErrors := allErrors st |})).

(** The [while] loop, bounded by [fuel] turns; [None] when the bound is
    reached with the loop still running. *)
Fixpoint migrateLoop (fuel : nat) (batchSize : nat) (opts : MigrateOptions)
    (channelId : jsstring) (st : LoopState) : M Env (option LoopState) :=
  match fuel with
  | O => ret None
  | S fuel' =>
      r <- loopBody batchSize opts channelId st ;;
      if fst r then migrateLoop fuel' batchSize opts channelId (snd r)
      else ret (Some (snd r))
  end.

(** [migrateAllPosts] *)
Definition migrateAllPosts (fuel : nat) (batchSize : nat)
    (opts : MigrateOptions) : M Env (option MigrationJob) :=
  let name :=
    match channelName opts with
    | Some n => n
    | None => js "MongoDB Import"
    end in
  let dry := match dryRun opts with Some b => b | None => false end in
  mongo_connect ;;;
  try_finally
    (channelId <- ensureDefaultChannel name ;;
     totalCount <- mongo_getPostCount (fromDate opts) (toDate opts) ;;
     t0 <- Date_now ;;
     t1 <- Date_now ;;
     let job :=
       {| job_id := js "migration_" ++ Z_to_js t0;
          source_db := js "mongodb";
          target_channel_id := channelId;
          job_status := running;
          total_records := totalCount;
          processed_records := 0;
          failed_records := 0;
          started_at := Some (DateAt t1);
          completed_at := None;
          error_message_of := None;
          last_processed_id := None |} in
     if dry then ret (Some (with_status_of job completed))
     else
       r <- migrateLoop fuel batchSize opts channelId
              {| migrationJob := job; lastId := None; totalProcessed := 0;
                 totalFailed := 0; allErrors := [] |} ;;
       match r with
       | None => ret None
       | Some st =>
           t2 <- Date_now ;;
           let job := with_completed_at (migrationJob st) t2 in
           ret (Some (match job_status job with
                      | failed => job
                      | _ => with_status_of job completed
                      end))
       end)
    mongo_disconnect.

(* ================================================================ *)
(** ** Vector service ([src/lib/vector-service.ts]) *)
(* ================================================================ *)

Record VectorConfig := {
  qdrantUrl : jsstring;
  openaiApiKey : jsstring;
  collectionName : jsstring;
  vectorSize : nat
}.

(** The constructor's defaults: [config?.vectorSize || 1536] and so on. *)
Definition VectorService_new (url key name : option jsstring)
    (size : option nat) : VectorConfig :=
  {| qdrantUrl := if falsy_opt url then js "http://localhost:6333"
                  else or_empty url;
     openaiApiKey := or_empty key;
     collectionName := if falsy_opt name then js "news_embeddings"
                       else or_empty name;
     vectorSize := match size with
                   | Some (S n) => S n
                   | _ => 1536
                   end |}.

(** [this.openai] is set only with a non-empty API key. *)
Definition has_openai (cfg : VectorConfig) : bool :=
  negb (falsy (openaiApiKey cfg)).

Definition simpleEmbedding (cfg : VectorConfig) (text : jsstring)
  : list F64.float :=
  generateSimpleEmbedding (toLowerCase host) (Math_cos host) (Math_sin host)
    (vectorSize cfg) text.

(** [generateEmbedding] *)
Definition generateEmbedding (cfg : VectorConfig) (text : jsstring)
  : M Env (list F64.float) :=
  try_catch
    (if has_openai cfg then
       response <- call (openai_embeddings_create out text) ;;
       match response with
       | embedding :: _ => ret embedding
       | [] => throw (ErrorObj (js "Cannot read properties of undefined"))
       end
     else ret (simpleEmbedding cfg text))
    (fun _ => ret (simpleEmbedding cfg text)).

Definition index_fields : list jsstring :=
  [js "channel_id"; js "categories"; js "published_at";
   js "event_category"; js "topics"; js "political_score"].

Fixpoint createIndexes (name : jsstring) (fields : list jsstring)
  : M Env unit :=
  match fields with
  | [] => ret tt
  | f :: rest =>
      qdrant_createPayloadIndex name f ;;; createIndexes name rest
  end.

(** [initializeCollection] *)
Definition initializeCollection (cfg : VectorConfig) : M Env unit :=
  try_catch
    (cols <- qdrant_getCollections ;;
     if existsb (fun col => jsstring_eqb (fst col) (collectionName cfg)) cols
     then
       _ <- qdrant_getCollection (collectionName cfg) ;; ret tt
     else
       qdrant_createCollection (collectionName cfg) (vectorSize cfg) ;;;
       createIndexes (collectionName cfg) index_fields)
    (fun e => throw e).

(** [getCollectionStats] *)
Definition getCollectionStats (cfg : VectorConfig) : M Env nat :=
  try_catch (qdrant_getCollection (collectionName cfg)) (fun e => throw e).

(** The point of one article, once its embedding is known. *)
Definition point_of (article : NewsArticleVector)
    (embedding : list F64.float) (iso : jsstring) : VectorPoint :=
  {| point_id := nav_id article;
     vector := embedding;
     payload :=
       {| pl_channel_id := nav_channel_id article;
          pl_title := nav_title article;
          pl_content := nav_content article;
          content_preview := substring0 500 (nav_content article);
          pl_published_at := iso;
          pl_categories := nav_categories article;
          pl_topics := nav_topics article;
          pl_political_score := political_score article;
          pl_event_category := event_category article;
          pl_source_url := source_url article;
          pl_original_mongo_id := original_mongo_id article |} |}.

(** [`${article.title}\n\n${article.content}`] *)
Definition contentForEmbedding (article : NewsArticleVector) : jsstring :=
  opt_to_js (nav_title article) ++ [10%N; 10%N] ++ nav_content article.

(** One turn of the [for] loop of [storeArticlesBatch]: an article whose
    preparation throws is left out, the others go on. *)
Definition preparePoint (cfg : VectorConfig) (pts : list VectorPoint)
    (article : NewsArticleVector) : M Env (list VectorPoint) :=
  try_catch
    (embedding <- generateEmbedding cfg (contentForEmbedding article) ;;
     iso <- toISOString (nav_published_at article) ;;
     ret (pts ++ [point_of article embedding iso]))
    (fun _ => ret pts).

Fixpoint preparePoints (cfg : VectorConfig) (pts : list VectorPoint)
    (arts : list NewsArticleVector) : M Env (list VectorPoint) :=
  match arts with
  | [] => ret pts
  | a :: rest =>
      pts' <- preparePoint cfg pts a ;; preparePoints cfg pts' rest
  end.

(** [storeArticlesBatch] *)
Definition storeArticlesBatch (cfg : VectorConfig)
    (arts : list NewsArticleVector) : M Env unit :=
  if length arts =? 0 then ret tt
  else
    try_catch
      (pts <- preparePoints cfg [] arts ;;
       if 0 <? length pts then qdrant_upsert (collectionName cfg) pts
       else ret tt)
      (fun e => throw e).

(* ================================================================ *)
(** ** Vector-only ETL service *)
(* ================================================================ *)

(** [text.match(/\b(k1|k2|...)\b/)]: some keyword occurs with a word
    boundary on both sides.  [prev] is the unit before the position. *)
Definition is_word_opt (c : option jschar) : bool :=
  match c with Some x => is_word x | None => false end.

Definition boundary (before after : option jschar) : bool :=
  xorb (is_word_opt before) (is_word_opt after).

Definition keyword_at (prev : option jschar) (s : jsstring) (kw : jsstring)
  : bool :=
  prefix_by jschar_eqb kw s
  && boundary prev (hd_error s) (* \b before the keyword *)
  && boundary (last (map Some kw) prev)
              (hd_error (skipn (length kw) s)).

Fixpoint keywords_from (kws : list jsstring) (prev : option jschar)
    (s : jsstring) : bool :=
  existsb (keyword_at prev s) kws
  || match s with
     | [] => false
     | c :: r => keywords_from kws (Some c) r
     end.

Definition matches_keywords (kws : list jsstring) (text : jsstring) : bool :=
  keywords_from kws None text.

(** Keywords; letters outside ASCII are given by their code units. *)
Definition kw_politics : list jsstring :=
  [js "se" ++ [231%N] ++ js "im";                 (* seçim *)
   js "parti"; js "milletvekili";
   js "ba" ++ [351%N] ++ js "kan";               (* başkan *)
   js "h" ++ [252%N] ++ js "k" ++ [252%N] ++ js "met";   (* hükümet *)
   js "meclis"; js "politika"].

Definition kw_economy : list jsstring :=
  [js "ekonomi"; js "dolar"; js "euro"; js "borsa"; js "enflasyon";
   js "faiz"; js "tcmb";
   js "merkez bankas" ++ [305%N]].               (* merkez bankası *)

Definition kw_sports : list jsstring :=
  [js "futbol"; js "basketbol"; js "spor";
   js "ma" ++ [231%N];                           (* maç *)
   js "tak" ++ [305%N] ++ js "m";                (* takım *)
   js "galatasaray";
   js "fenerbah" ++ [231%N] ++ js "e";           (* fenerbahçe *)
   js "be" ++ [351%N] ++ js "ikta" ++ [351%N]].  (* beşiktaş *)

Definition kw_technology : list jsstring :=
  [js "teknoloji"; js "yapay zeka"; js "internet"; js "bilgisayar";
   js "telefon"; js "uygulama"].

Definition kw_health : list jsstring :=
  [js "sa" ++ [287%N] ++ js "l" ++ [305%N] ++ js "k";   (* sağlık *)
   js "hastane"; js "doktor"; js "tedavi";
   js "a" ++ [351%N; 305%N];                     (* aşı *)
   js "covid"; js "corona"].

(** [categorizeEvent] *)
Definition categorizeEvent (title content : jsstring) : jsstring :=
  let text := toLowerCase host (title ++ [space] ++ content) in
  if matches_keywords kw_politics text then js "politics"
  else if matches_keywords kw_economy text then js "economy"
  else if matches_keywords kw_sports text then js "sports"
  else if matches_keywords kw_technology text then js "technology"
  else if matches_keywords kw_health text then js "health"
  else js "general".

Definition skipped_vector (reason : jsstring) : VectorTransformation :=
  {| v_success := false; v_data := None; v_error := None;
     v_skipped := true; v_skip_reason := Some reason |}.

(** [transformPostToVector] *)
Definition transformPostToVector (mongoPost : MongoPost)
  : M Env VectorTransformation :=
  let validation := Relaxed.validatePostContent mongoPost in
  if negb (isValid validation) then
    ret (skipped_vector
           (js "Validation failed: " ++ join (js ", ") (issues validation)))
  else
    let rawContent := resolve_content mongoPost in
    let cleanContent := cleanHtmlContent rawContent in
    if falsy cleanContent || (length (trim cleanContent) <? 5) then
      ret (skipped_vector
             (js "Content too short after cleaning: "
                ++ nat_to_js (length cleanContent) ++ js " characters"))
    else
      uuid <- randomUUID ;;
      ret {| v_success := true;
             v_data :=
               Some {| nav_id := uuid;
                       nav_channel_id := js "mongodb-import";
                       nav_title := title mongoPost;
                       nav_content := cleanContent;
                       nav_published_at :=
                         match published_at mongoPost with
                         | Some d => d
                         | None => created_at mongoPost
                         end;
                       nav_categories := list_or_empty (categories mongoPost);
                       nav_topics := list_or_empty (topics mongoPost);
                       political_score := None;
                       event_category :=
                         Some (categorizeEvent
                                 (opt_to_js (title mongoPost)) cleanContent);
                       source_url :=
                         if falsy_opt (slug mongoPost) then None
                         else Some (js "/" ++ or_empty (slug mongoPost));
                       original_mongo_id :=
                         Some (ObjectId_toString (_id mongoPost)) |};
             v_error := None; v_skipped := false; v_skip_reason := None |}.

Definition VectorTransformer : Type :=
  MongoPost -> M Env VectorTransformation.

Definition no_migration : MigrationResult :=
  {| mr_success := true; processed := 0; inserted := 0; mr_skipped := 0;
     mr_errors := 0; duration := 0%Z; error_details := [] |}.

Definition count_processed (r : MigrationResult) : MigrationResult :=
  {| mr_success := mr_success r; processed := S (processed r);
     inserted := inserted r; mr_skipped := mr_skipped r;
     mr_errors := mr_errors r; duration := duration r;
     error_details := error_details r |}.

Definition count_skipped (r : MigrationResult) : MigrationResult :=
  {| mr_success := mr_success r; processed := processed r;
     inserted := inserted r; mr_skipped := S (mr_skipped r);
     mr_errors := mr_errors r; duration := duration r;
     error_details := error_details r |}.

Definition count_errors (n : nat) (d : ErrorDetail) (r : MigrationResult)
  : MigrationResult :=
  {| mr_success := mr_success r; processed := processed r;
     inserted := inserted r; mr_skipped := mr_skipped r;
     mr_errors := mr_errors r + n; duration := duration r;
     error_details := error_details r ++ [d] |}.

Definition count_inserted (n : nat) (r : MigrationResult) : MigrationResult :=
  {| mr_success := mr_success r; processed := processed r;
     inserted := inserted r + n; mr_skipped := mr_skipped r;
     mr_errors := mr_errors r; duration := duration r;
     error_details := error_details r |}.

Definition with_duration (d : Z) (r : MigrationResult) : MigrationResult :=
  {| mr_success := mr_success r; processed := processed r;
     inserted := inserted r; mr_skipped := mr_skipped r;
     mr_errors := mr_errors r; duration := d;
     error_details := error_details r |}.

(** One turn of the inner [for] loop of [migrateToVectorOnly]. *)
Definition collectPost (transform : VectorTransformer)
    (acc : MigrationResult * list NewsArticleVector) (post : MongoPost)
  : M Env (MigrationResult * list NewsArticleVector) :=
  let result := count_processed (fst acc) in
  transformation <- transform post ;;
  if v_skipped transformation then ret (count_skipped result, snd acc)
  else
    match v_success transformation, v_data transformation with
    | true, Some d => ret (result, snd acc ++ [d])
    | _, _ =>
        ret (count_errors 1
               {| post_id := ObjectId_toString (_id post);
                  detail :=
                    if falsy_opt (v_error transformation)
                    then js "Unknown transformation error"
                    else or_empty (v_error transformation) |}
               result,
             snd acc)
    end.

Fixpoint collectPosts (transform : VectorTransformer)
    (acc : MigrationResult * list NewsArticleVector) (posts : list MongoPost)
  : M Env (MigrationResult * list NewsArticleVector) :=
  match posts with
  | [] => ret acc
  | post :: rest =>
      acc' <- collectPost transform acc post ;;
      collectPosts transform acc' rest
  end.

(** The write that closes a batch. *)
Definition writeBatch (cfg : VectorConfig) (dry : bool)
    (vectorArticles : list NewsArticleVector) (result : MigrationResult)
  : M Env MigrationResult :=
  if negb dry && (0 <? length vectorArticles) then
    try_catch
      (storeArticlesBatch cfg vectorArticles ;;;
       ret (count_inserted (length vectorArticles) result))
      (fun e =>
         ret (count_errors (length vectorArticles)
                {| post_id := js "batch";
                   detail :=
                     error_message (js "Unknown vector storage error") e |}
                result))
  else if dry then ret (count_inserted (length vectorArticles) result)
  else ret result.

Record VectorOptions := {
  vo_limit : option nat;
  vo_offset : option nat;
  vo_dateRange : option (JsDate * JsDate);
  vo_dryRun : option bool
}.

Definition vo_dry (o : VectorOptions) : bool :=
  match vo_dryRun o with Some b => b | None => false end.

(** [options.limit ? Math.min(options.limit, 500) : 500] *)
Definition effectiveLimit (o : VectorOptions) : nat :=
  match vo_limit o with
  | Some (S n) => Nat.min (S n) 500
  | _ => 500
  end.

(** The [while] loop of [migrateToVectorOnly].  A turn that does not leave
    the loop raises [processed] by the size of a non-empty batch, and the
    loop runs only below [effectiveLimit]: [fuel] counts the turns. *)
Fixpoint vectorLoop (fuel : nat) (transform : VectorTransformer)
    (cfg : VectorConfig) (batchSize : nat) (o : VectorOptions)
    (totalPosts : nat) (currentOffset : nat) (result : MigrationResult)
  : M Env MigrationResult :=
  match fuel with
  | O => ret result
  | S fuel' =>
      if (currentOffset <? totalPosts)
         && (processed result <? effectiveLimit o)
      then
        let remainingLimit :=
          Nat.min batchSize (effectiveLimit o - processed result) in
        batch <- mongo_fetchPosts
                   {| fo_limit := Some remainingLimit;
                      fo_skip := Some currentOffset;
                      fo_fromDate := option_map fst (vo_dateRange o);
                      fo_toDate := option_map snd (vo_dateRange o);
                      fo_lastId := None |} ;;
        if length batch =? 0 then ret result
        else
          acc <- collectPosts transform (result, []) batch ;;
          result' <- writeBatch cfg (vo_dry o) (snd acc) (fst acc) ;;
          vectorLoop fuel' transform cfg batchSize o totalPosts
            (currentOffset + remainingLimit) result'
      else ret result
  end.

(** [Math.round((t1 - t0) / 1000)] *)
Definition round_seconds (t0 t1 : Z) : Z :=
  ((2 * (t1 - t0) + 1000) / 2000)%Z.

Definition migrateToVectorOnlyWith (transform : VectorTransformer)
    (cfg : VectorConfig) (batchSize : nat) (o : VectorOptions)
  : M Env MigrationResult :=
  startTime <- Date_now ;;
  try_catch
    (isConnected <- mongo_healthCheck ;;
     (if isConnected then ret tt else mongo_connect) ;;;
     initializeCollection cfg ;;;
     totalPosts <- mongo_getPostCount (option_map fst (vo_dateRange o))
                     (option_map snd (vo_dateRange o)) ;;
     result <- vectorLoop (effectiveLimit o) transform cfg batchSize o
                 totalPosts
                 (match vo_offset o with Some n => n | None => 0 end)
                 no_migration ;;
     endTime <- Date_now ;;
     let result := with_duration (round_seconds startTime endTime) result in
     try_catch (_ <- getCollectionStats cfg ;; ret tt) (fun _ => ret tt) ;;;
     ret result)
    (fun e => _ <- Date_now ;; throw e).

(** [migrateToVectorOnly] *)
Definition migrateToVectorOnly (cfg : VectorConfig) (batchSize : nat)
    (o : VectorOptions) : M Env MigrationResult :=
  migrateToVectorOnlyWith transformPostToVector cfg batchSize o.


End Services.

Unset Implicit Arguments.


(* ================================================================== *)
(** ** What a computation leaves alone *)
(* ================================================================== *)

(** [c] inserts no article row and upserts no vector point. *)
Definition keeps_records {Env A : Type} (c : M Env A) : Prop :=
  forall w, articles (snd (c w)) = articles w
            /\ points (snd (c w)) = points w.

(* ================================================================== *)
(** ** A small outside, for examples *)
(* ================================================================== *)

Module Demo.

Definition body_text : jsstring :=
  js "<p>Merkez bankasi faiz kararini acikladi; piyasalar <b>hareketli</b> bir gun gecirdi.</p>".

Definition post (i : string) (t : string) : MongoPost :=
  with_status 1 (with_content body_text (with_title (js t) (blank_post (js i)))).

Definition first_post : MongoPost := post "65a1f0c2d4e5f6a7b8c9d0e1" "Faiz karari".
Definition refused_post : MongoPost := post "65a1f0c2d4e5f6a7b8c9d0e2" "Yasak".
Definition short_post : MongoPost :=
  with_content (js "kisa") (post "65a1f0c2d4e5f6a7b8c9d0e3" "Kisa haber").
Definition last_post : MongoPost := post "65a1f0c2d4e5f6a7b8c9d0e4" "Borsa gunu".

Definition source : list MongoPost :=
  [first_post; refused_post; short_post; last_post].

(** The records behind the cursor, in identifier order. *)
Fixpoint after_cursor (cursor : jsstring) (l : list MongoPost)
  : list MongoPost :=
  match l with
  | [] => []
  | p :: r =>
      if jsstring_eqb (ObjectId_toString (_id p)) cursor then r
      else after_cursor cursor r
  end.

Definition fetch (o : FetchOptions) : list MongoPost :=
  let scan := match fo_lastId o with
              | Some c => after_cursor c source
              | None => source
              end in
  let scan := skipn (match fo_skip o with Some k => k | None => 0 end) scan in
  firstn (match fo_limit o with Some k => k | None => 100 end) scan.

Definition refuses (c : RelCall) : option Thrown :=
  match c with
  | ArticlesCreate row =>
      if jsstring_eqb (or_empty (art_title (row_data row))) (js "Yasak")
      then Some (ErrorObj (js "row violates a check constraint"))
      else None
  | _ => None
  end.

(** The state of this outside is the number of calls made so far. *)
Definition outside : Outside nat :=
  {| Date_now_at := fun n => ((1750000000000 + Z.of_nat n)%Z, S n);
     randomUUID_at := fun n => (js "uuid-" ++ nat_to_js n, S n);
     fresh_channel_id := fun n => (js "channel-" ++ nat_to_js n, S n);
     mongo_connect_at := fun n => (Returned tt, S n);
     mongo_disconnect_at := fun n => (Returned tt, S n);
     mongo_healthCheck_at := fun n => (true, S n);
     mongo_fetchPosts_at := fun o n => (Returned (fetch o), S n);
     mongo_getPostCount_at := fun _ _ n => (Returned (length source), S n);
     rel_fault := fun c n => (refuses c, S n);
     vec_fault := fun _ n => (None, S n);
     openai_embeddings_create :=
       fun _ n => (Threw (ErrorObj (js "insufficient_quota")), S n) |}.

Definition ascii_lower (c : jschar) : jschar :=
  if ((65 <=? c) && (c <=? 90))%N then (c + 32)%N else c.

(** A host that lowers ASCII letters only, approximates cosine and sine
    by their first Taylor terms, and renders a time value by its number. *)
Definition host : Host :=
  {| toLowerCase := map ascii_lower;
     Math_cos := fun x =>
       F64.add (F64.of_Z 1)
         (F64.div (F64.mul x x) (F64.of_Z (-2)));
     Math_sin := fun x =>
       F64.add x
         (F64.div (F64.mul x (F64.mul x x)) (F64.of_Z (-6)));
     toISOString_of := fun ms => js "T" ++ Z_to_js ms |}.

Definition world : World nat :=
  {| env := 0; channels := []; articles := []; collections := [];
     payload_indexes := []; points := []; defaultChannelId := None |}.

Definition dry_options : MigrateOptions :=
  {| fromDate := None; toDate := None; channelName := None;
     dryRun := Some true |}.

Definition real_options : MigrateOptions :=
  {| fromDate := None; toDate := None; channelName := None;
     dryRun := Some false |}.

Definition processed_of (r : Outcome (option MigrationJob)) : option nat :=
  match r with
  | Returned (Some job) => Some (processed_records job)
  | _ => None
  end.

Definition config_with_key : VectorConfig :=
  VectorService_new None (Some (js "sk-demo")) None (Some 8).

Definition config_without_key : VectorConfig :=
  VectorService_new None None None (Some 8).

Definition article (i t : string) : NewsArticleVector :=
  {| nav_id := js i; nav_channel_id := js "mongodb-import";
     nav_title := Some (js t);
     nav_content := js "faiz karari piyasalari hareketlendirdi";
     nav_published_at := DateAt 1750000000000;
     nav_categories := []; nav_topics := []; political_score := None;
     event_category := Some (js "economy"); source_url := None;
     original_mongo_id := None |}.

Definition two_articles : list NewsArticleVector :=
  [article "uuid-1" "Faiz karari"; article "uuid-2" "Borsa gunu"].


End Demo.


(* ================================================================== *)
(** ** Specification-side definitions *)
(* ================================================================== *)

(** The classifier as the specification words it: an ordered list of
    keyword rules, the first matching rule wins, ["general"] otherwise. *)
Definition category_rules : list (jsstring * list jsstring) :=
  [(js "politics", kw_politics); (js "economy", kw_economy);
   (js "sports", kw_sports); (js "technology", kw_technology);
   (js "health", kw_health)].

Definition first_matching_rule (rules : list (jsstring * list jsstring))
    (text : jsstring) : jsstring :=
  match find (fun rule => matches_keywords (snd rule) text) rules with
  | Some rule => fst rule
  | None => js "general"
  end.

(** The time value of a valid date. *)
Definition date_ms (d : JsDate) : Z :=
  match d with DateAt ms => ms | InvalidDate => 0%Z end.

(** The point of an article under the local fallback embedding. *)
Definition fallback_point (host : Host) (cfg : VectorConfig)
    (article : NewsArticleVector) : VectorPoint :=
  point_of article (simpleEmbedding host cfg (contentForEmbedding article))
    (toISOString_of host (date_ms (nav_published_at article))).

(** No remote embedding can be had: no client is configured, or every call
    of the remote model throws. *)
Definition remote_unavailable {Env : Type} (out : Outside Env)
    (cfg : VectorConfig) : Prop :=
  has_openai cfg = false
  \/ forall text e, exists err e',
       openai_embeddings_create out text e = (Threw err, e').


(* ================================================================== *)
(** ** Predicates for the further properties *)
(* ================================================================== *)

(** Everything but the article rows and the outside is as before. *)
Definition rest_kept {Env : Type} (w w' : World Env) : Prop :=
  channels w' = channels w /\ collections w' = collections w
  /\ payload_indexes w' = payload_indexes w /\ points w' = points w
  /\ defaultChannelId w' = defaultChannelId w.

(** The job record agrees with the variables of the migration loop. *)
Definition job_tracks (st : LoopState) : Prop :=
  processed_records (migrationJob st) = totalProcessed st
  /\ failed_records (migrationJob st) = totalFailed st
  /\ length (allErrors st) = totalFailed st
  /\ last_processed_id (migrationJob st) = lastId st.

(** A job under way, and a job that has ended. *)
Definition job_live (job : MigrationJob) : Prop :=
  job_status job = running /\ error_message_of job = None.

Definition job_ended (job : MigrationJob) : Prop :=
  (job_status job = completed /\ error_message_of job = None)
  \/ (job_status job = failed /\ exists msg, error_message_of job = Some msg).

(** The sample outside with a store that refuses nothing. *)
Definition healthy_outside : Outside nat :=
  {| Date_now_at := Date_now_at Demo.outside;
     randomUUID_at := randomUUID_at Demo.outside;
     fresh_channel_id := fresh_channel_id Demo.outside;
     mongo_connect_at := mongo_connect_at Demo.outside;
     mongo_disconnect_at := mongo_disconnect_at Demo.outside;
     mongo_healthCheck_at := mongo_healthCheck_at Demo.outside;
     mongo_fetchPosts_at := mongo_fetchPosts_at Demo.outside;
     mongo_getPostCount_at := mongo_getPostCount_at Demo.outside;
     rel_fault := fun _ n => (None, S n);
     vec_fault := vec_fault Demo.outside;
     openai_embeddings_create := openai_embeddings_create Demo.outside |}.

(** The article's publication date can be rendered. *)
Definition has_valid_date (article : NewsArticleVector) : bool :=
  match nav_published_at article with
  | DateAt _ => true
  | InvalidDate => false
  end.

(** The source reader returns no more records than a positive limit asks
    for (a limit of zero means no limit to the source database). *)
Definition honours_limit {Env : Type} (out : Outside Env) : Prop :=
  forall o e posts e' k,
    mongo_fetchPosts_at out o e = (Returned posts, e') ->
    fo_limit o = Some k -> 0 < k -> length posts <= k.

(** Every record counted as processed is counted once more, as inserted,
    skipped or error, or waits among the [pending] articles of the batch. *)
Definition balanced (r : MigrationResult) (pending : nat) : Prop :=
  processed r = inserted r + mr_skipped r + mr_errors r + pending.

(** The vector index refuses no call. *)
Definition index_healthy {Env : Type} (out : Outside Env) : Prop :=
  forall c e, fst (vec_fault out c e) = None.

(** An article whose publication date is the invalid date. *)
Definition undated_article : NewsArticleVector :=
  {| nav_id := js "uuid-9"; nav_channel_id := js "mongodb-import";
     nav_title := Some (js "Tarihsiz");
     nav_content := js "tarihi okunamayan haber";
     nav_published_at := InvalidDate;
     nav_categories := []; nav_topics := []; political_score := None;
     event_category := Some (js "general"); source_url := None;
     original_mongo_id := None |}.

Definition dry_vector_options : VectorOptions :=
  {| vo_limit := Some 3; vo_offset := None; vo_dateRange := None;
     vo_dryRun := Some true |}.

(** The keywords of all five rules. *)
Definition all_keywords : list jsstring :=
  kw_politics ++ kw_economy ++ kw_sports ++ kw_technology ++ kw_health.

(** The keyword ends in a unit that [\w] does not match. *)
Definition ends_outside_ascii (kw : jsstring) : bool :=
  negb (is_word (last kw 0%N)).

(* ================================================================== *)
(** ** Further entry points *)
(* ================================================================== *)

(** The result of [getMigrationStats]. *)
Record MigrationStats := {
  total_articles : nat;
  analyzed_articles : nat;
  migration_sources : list jsstring;
  latest_migration : option JsDate
}.

(** [a > b] on two dates: the comparison of their time values, false as
    soon as one of them is NaN. *)
Definition date_gt (a b : JsDate) : bool :=
  match a, b with
  | DateAt x, DateAt y => (y <? x)%Z
  | _, _ => false
  end.

(** The row that the edge function inserts. *)
Record EdgeArticle := {
  ea_channel_id : jsstring;
  ea_title : jsstring;
  ea_content : jsstring;
  ea_summary : option jsstring;
  ea_published_at : option jsstring;
  ea_analysis_completed : bool;
  ea_migrated_at : jsstring
}.

(** The counters [processed], [failed] and [skip] of the edge function. *)
Record EdgeCounts := {
  ec_processed : nat;
  ec_failed : nat;
  ec_skip : nat
}.

Definition edge_processed (c : EdgeCounts) : EdgeCounts :=
  {| ec_processed := S (ec_processed c); ec_failed := ec_failed c;
     ec_skip := ec_skip c |}.

Definition edge_failed (c : EdgeCounts) : EdgeCounts :=
  {| ec_processed := ec_processed c; ec_failed := S (ec_failed c);
     ec_skip := ec_skip c |}.

Definition edge_skipped (c : EdgeCounts) : EdgeCounts :=
  {| ec_processed := ec_processed c; ec_failed := ec_failed c;
     ec_skip := S (ec_skip c) |}.

Section MoreServices.
Variable Env : Type.
Variable out : Outside Env.
Variable host : Host.

(** [storeArticle] ([src/lib/vector-service.ts]).  The first statement of
    the [try] block reads [article.title.substring]. *)
Definition storeArticle (cfg : VectorConfig) (article : NewsArticleVector)
  : M Env unit :=
  try_catch
    ((match nav_title article with
      | Some _ => ret tt
      | None =>
          throw (ErrorObj (js "Cannot read properties of undefined"))
      end) ;;;
     embedding <- generateEmbedding out host cfg
                    (contentForEmbedding article) ;;
     iso <- toISOString host (nav_published_at article) ;;
     qdrant_upsert out (collectionName cfg)
       [point_of article embedding iso])
    (fun e => throw e).

(** [getMigrationStats].  [newsArticlesApi.getByChannelId] is the query of
    the relational store; [new Date(string)] is the host's parser. *)
Variable getByChannelId : jsstring -> nat -> M Env (list ArticleInsert).
Variable Date_parse : jsstring -> JsDate.

(** One turn of [articles.forEach]. *)
Definition latest_step (latest : option JsDate) (article : ArticleInsert)
  : option JsDate :=
  if falsy (migrated_at article) then latest
  else
    let migrationDate := Date_parse (migrated_at article) in
    match latest with
    | None => Some migrationDate
    | Some l => if date_gt migrationDate l then Some migrationDate
                else latest
    end.

Definition getMigrationStats (channelId : jsstring) : M Env MigrationStats :=
  try_catch
    (fetched <- getByChannelId channelId 1000 ;;
     ret {| total_articles := length fetched;
            analyzed_articles := length (filter analysis_completed fetched);
            migration_sources := [];
            latest_migration := fold_left latest_step fetched None |})
    (fun e => throw e).

(** [transformToVector] ([src/lib/supabase.ts]): [null] is [None]. *)
Definition transformToVector (post : MongoPost)
    (channelId supabaseArticleId : jsstring) : option NewsArticleVector :=
  if falsy_opt (title post) || falsy_opt (content_text post) then None
  else
    let cleanContent := cleanHtmlContent (or_empty (content_text post)) in
    if length cleanContent <? 50 then None
    else
      Some {| nav_id := supabaseArticleId;
              nav_channel_id := channelId;
              nav_title := title post;
              nav_content := cleanContent;
              nav_published_at :=
                match published_at post with
                | Some d => d
                | None => created_at post
                end;
              nav_categories := list_or_empty (categories post);
              nav_topics := list_or_empty (topics post);
              political_score := None;
              event_category :=
                Some (categorizeEvent host (opt_to_js (title post))
                        cleanContent);
              source_url :=
                if falsy_opt (slug post) then None
                else Some (js "/" ++ or_empty (slug post));
              original_mongo_id := None |}.

(** The loop of [migrateWithVectors] over the inserted rows:
    [insertedArticles[i]] (only its [id] is read) is paired with
    [posts[i]]; past the end of [posts] the transformer gives [null]. *)
Fixpoint vectorBatchOf (insertedArticles : list jsstring)
    (posts : list MongoPost) (channelId : jsstring)
  : list NewsArticleVector :=
  match insertedArticles with
  | [] => []
  | article_id :: more =>
      match posts with
      | originalPost :: _ =>
          match transformToVector originalPost channelId article_id with
          | Some vectorArticle => [vectorArticle]
          | None => []
          end
      | [] => []
      end ++ vectorBatchOf more (tl posts) channelId
  end.

(** One turn of the [for await] loop of the edge function
    ([supabase/functions/migrate-news-data/index.ts]); [insert] answers
    whether the store reported an error. *)
Variable edge_insert : EdgeArticle -> M Env bool.

Definition migrateRecord (channelId : jsstring) (counts : EdgeCounts)
    (post : MongoPost) : M Env EdgeCounts :=
  try_catch
    (if falsy_opt (title post) || falsy_opt (content_text post)
     then ret (edge_skipped counts)
     else
       let cleanContent :=
         cleanHtmlContent (or_empty (content_text post)) in
       let summary := derive_summary post cleanContent in
       iso <- match published_at post with
              | Some d => (i <- toISOString host d ;; ret (Some i))
              | None => ret None
              end ;;
       stamp <- now_iso out host ;;
       refused <- edge_insert
                    {| ea_channel_id := channelId;
                       ea_title := or_empty (title post);
                       ea_content := cleanContent;
                       ea_summary := truthy_or_undefined summary;
                       ea_published_at := iso;
                       ea_analysis_completed := false;
                       ea_migrated_at := stamp |} ;;
       ret (if refused then edge_failed counts
            else edge_processed counts))
    (fun _ => ret (edge_failed counts)).

Fixpoint migrateRecords (channelId : jsstring) (counts : EdgeCounts)
    (posts : list MongoPost) : M Env EdgeCounts :=
  match posts with
  | [] => ret counts
  | post :: rest =>
      counts' <- migrateRecord channelId counts post ;;
      migrateRecords channelId counts' rest
  end.

End MoreServices.

(** A row of the relational store with the given migration stamp. *)
Definition sample_row (stamp : jsstring) : ArticleInsert :=
  {| row_data :=
       {| art_title := Some (js "Faiz karari");
          art_content := js "Merkez bankasi faiz kararini acikladi";
          art_summary := None;
          art_published_at := None;
          art_channel_id := js "channel-4";
          art_source_metadata :=
            {| mongo_id := js "65a1f0c2d4e5f6a7b8c9d0e1";
               sm_integer_id := None; sm_old_id := None;
               sm_slug := None; sm_old_slug := None;
               sm_categories := []; sm_topics := []; hit_count := 0%Z;
               sm_seo_keywords := None; sm_author_id := None;
               sm_source_id := None; sm_location := None;
               sm_is_old_record := None; sm_weight := None;
               sm_show_on_mainpage := None; sm_attachments := None;
               original_raw_content :=
                 js "<p>Merkez bankasi faiz kararini acikladi</p>";
               migration_timestamp := js "2025-06-16T20:30:56.000Z" |} |};
     analysis_completed := false;
     migrated_at := stamp |}.

(** A reader that answers with three rows: one without a stamp, one with
    an unreadable stamp, one with a proper stamp; and one that answers
    with the first and the last of them. *)
Definition sample_rows : list ArticleInsert :=
  [sample_row []; sample_row (js "bozuk");
   sample_row (js "2025-06-16T20:30:56.000Z")].

Definition sample_reader (channelId : jsstring) (limit : nat)
  : M nat (list ArticleInsert) :=
  ret (firstn limit sample_rows).

Definition sound_reader (channelId : jsstring) (limit : nat)
  : M nat (list ArticleInsert) :=
  ret (firstn limit [sample_row [];
                     sample_row (js "2025-06-16T20:30:56.000Z")]).

Definition sample_parse (s : jsstring) : JsDate :=
  if jsstring_eqb s (js "bozuk") then InvalidDate
  else DateAt 1750105856000.

(** A store of the edge function that accepts every row. *)
Definition accepting_insert (a : EdgeArticle) : M nat bool := ret false.

(** A record that only its status keeps from being accepted. *)
Definition draft_post : MongoPost :=
  with_status 0 (Demo.post "65a1f0c2d4e5f6a7b8c9d0e5" "Taslak haber").

(** A record whose cleaned body is longer than 200 units. *)
Definition long_body : jsstring :=
  js "<p>Merkez bankasi politika faizini degistirmedi; karar metninde enflasyon gorunumundeki iyilesmenin surdugu, ancak kuresel piyasalardaki belirsizligin yakindan izlendigi belirtildi ve sikilasma adimlarinin gerektiginde yeniden atilacagi vurgulandi.</p>".

Definition long_post : MongoPost :=
  with_status 1
    (with_content long_body
       (with_title (js "Faiz sabit")
          (blank_post (js "65a1f0c2d4e5f6a7b8c9d0e6")))).

(** A batch whose second article carries the invalid date. *)
Definition mixed_articles : list NewsArticleVector :=
  [Demo.article "uuid-1" "Faiz karari"; undated_article;
   Demo.article "uuid-2" "Borsa gunu"].

(* ================================================================== *)
(** ** Comparing a dry run with a real run *)
(* ================================================================== *)

(** The same outside with another answer of the source reader to
    [fetchPosts]. *)
Definition with_fetchPosts {Env : Type}
    (fetch : FetchOptions -> Env -> Outcome (list MongoPost) * Env)
    (out : Outside Env) : Outside Env :=
  {| Date_now_at := Date_now_at out;
     randomUUID_at := randomUUID_at out;
     fresh_channel_id := fresh_channel_id out;
     mongo_connect_at := mongo_connect_at out;
     mongo_disconnect_at := mongo_disconnect_at out;
     mongo_healthCheck_at := mongo_healthCheck_at out;
     mongo_fetchPosts_at := fetch;
     mongo_getPostCount_at := mongo_getPostCount_at out;
     rel_fault := rel_fault out;
     vec_fault := vec_fault out;
     openai_embeddings_create := openai_embeddings_create out |}.

(** The options of a run, with the dry-run flag set. *)
Definition as_dry_run (o : VectorOptions) : VectorOptions :=
  {| vo_limit := vo_limit o; vo_offset := vo_offset o;
     vo_dateRange := vo_dateRange o; vo_dryRun := Some true |}.

(** Two worlds that differ at most in the points of the vector index. *)
Definition same_but_points {Env : Type} (w w' : World Env) : Prop :=
  env w = env w' /\ channels w = channels w' /\ articles w = articles w'
  /\ collections w = collections w'
  /\ payload_indexes w = payload_indexes w'
  /\ defaultChannelId w = defaultChannelId w'.

(** Two computations that, started in two such worlds, end alike: with the
    same outcome, in two such worlds. *)
Definition agree {Env A : Type} (c c' : M Env A) : Prop :=
  forall w w',
    same_but_points w w' ->
    fst (c w) = fst (c' w') /\ same_but_points (snd (c w)) (snd (c' w')).

(** The vector index accepts every call, and its calls and those of the
    embedding service leave the rest of the outside as it is: what the
    source reader, the clock and the identifier generator answer does not
    depend on them. *)
Definition quiet_index {Env : Type} (out : Outside Env) : Prop :=
  forall c e, vec_fault out c e = (None, e).

Definition quiet_embedder {Env : Type} (out : Outside Env) : Prop :=
  forall text e, snd (openai_embeddings_create out text e) = e.

(** The sample outside with such an index and embedding service. *)
Definition quiet_outside : Outside nat :=
  {| Date_now_at := Date_now_at Demo.outside;
     randomUUID_at := randomUUID_at Demo.outside;
     fresh_channel_id := fresh_channel_id Demo.outside;
     mongo_connect_at := mongo_connect_at Demo.outside;
     mongo_disconnect_at := mongo_disconnect_at Demo.outside;
     mongo_healthCheck_at := mongo_healthCheck_at Demo.outside;
     mongo_fetchPosts_at := mongo_fetchPosts_at Demo.outside;
     mongo_getPostCount_at := mongo_getPostCount_at Demo.outside;
     rel_fault := rel_fault Demo.outside;
     vec_fault := fun _ n => (None, n);
     openai_embeddings_create :=
       fun _ n => (Threw (ErrorObj (js "insufficient_quota")), n) |}.

Definition real_vector_options : VectorOptions :=
  {| vo_limit := None; vo_offset := None; vo_dateRange := None;
     vo_dryRun := Some false |}.

(* ================================================================== *)
(** * Properties *)
(* ================================================================== *)

(** ** Lists of code units *)

Lemma index_of_None (c : jschar) (s : jsstring) :
  index_of c s = None <-> ~ In c s.
Proof.
  induction s as [|x r IH]; simpl.
  - tauto.
  - destruct (N.eqb_spec x c) as [->|Hne].
    + split; [discriminate | intros H; exfalso; apply H; now left].
    + destruct (index_of c r) as [n|]; simpl; split.
      * discriminate.
      * intros H. assert (Hr : ~ In c r) by tauto.
        apply IH in Hr. discriminate.
      * intros _ [H|H]; [congruence | now apply IH in H].
      * reflexivity.
Qed.

Lemma dropWhile_suffix (p : jschar -> bool) (s : jsstring) :
  s = takeWhile p s ++ dropWhile p s.
Proof.
  induction s as [|c r IH]; simpl; [reflexivity|].
  destruct (p c); simpl; [now f_equal | reflexivity].
Qed.

Lemma dropWhile_idem (p : jschar -> bool) (s : jsstring) :
  dropWhile p (dropWhile p s) = dropWhile p s.
Proof.
  induction s as [|c r IH]; simpl; [reflexivity|].
  destruct (p c) eqn:E; [assumption | simpl; now rewrite E].
Qed.

Lemma dropWhile_head (p : jschar -> bool) (s : jsstring) (c : jschar) (r : jsstring) :
  dropWhile p s = c :: r -> p c = false.
Proof.
  induction s as [|x t IH]; simpl; [discriminate|].
  destruct (p x) eqn:E; [assumption | intros H; injection H as -> _; exact E].
Qed.

Lemma dropWhile_id (p : jschar -> bool) (c : jschar) (r : jsstring) :
  p c = false -> dropWhile p (c :: r) = c :: r.
Proof. intros H; simpl; now rewrite H. Qed.

Lemma trimEnd_prefix (s : jsstring) : exists b, s = trimEnd s ++ b.
Proof.
  unfold trimEnd.
  exists (rev (takeWhile is_ws (rev s))).
  rewrite <- rev_app_distr, <- dropWhile_suffix, rev_involutive. reflexivity.
Qed.

Lemma trimEnd_idem (s : jsstring) : trimEnd (trimEnd s) = trimEnd s.
Proof. unfold trimEnd. now rewrite rev_involutive, dropWhile_idem. Qed.

Lemma trim_idem (s : jsstring) : trim (trim s) = trim s.
Proof.
  unfold trim.
  set (y := trimStart s).
  assert (Hy : trimStart (trimEnd y) = trimEnd y).
  { destruct (trimEnd_prefix y) as [b Hb].
    destruct (trimEnd y) as [|c r] eqn:E; [reflexivity|].
    unfold trimStart. apply dropWhile_id.
    subst y. unfold trimStart in Hb. simpl in Hb.
    now apply dropWhile_head in Hb. }
  rewrite Hy. apply trimEnd_idem.
Qed.

(** ** The replacement engine *)

Section ReplaceFacts.
Variable m : jsstring -> option nat.
Variable repl : jsstring.

Lemma replace_from_skip (k : nat) (s : jsstring) :
  replace_from m repl k s = replace_from m repl 0 (skipn k s).
Proof.
  revert k; induction s as [|c r IH]; intros [|k]; simpl; try reflexivity.
  apply IH.
Qed.

(** Where no suffix is matched the text is left as it is. *)
Lemma replace_id (P : jsstring -> Prop) :
  (forall c r, P (c :: r) -> P r) ->
  (forall t, P t -> m t = None) ->
  forall s, P s -> replaceAll m repl s = s.
Proof.
  intros Psuf Pm. unfold replaceAll.
  induction s as [|c r IH]; intros HP; simpl; [reflexivity|].
  rewrite (Pm _ HP). f_equal. apply IH. eapply Psuf; eauto.
Qed.

Lemma replace_from_In (x : jschar) (k : nat) (s : jsstring) :
  ~ In x repl -> In x (replace_from m repl k s) -> In x s.
Proof.
  intros Hx. revert k; induction s as [|c r IH]; intros k; simpl; [tauto|].
  destruct k as [|k].
  - destruct (m (c :: r)) as [[|n]|]; simpl.
    + intros [H|H]; [now left | right; eauto].
    + rewrite in_app_iff. intros [H|H]; [contradiction | right; eauto].
    + intros [H|H]; [now left | right; eauto].
  - intros H; right; eauto.
Qed.
End ReplaceFacts.

(** ** Markup-free and whitespace-normal texts *)

Lemma tagfree_app_r (a b : jsstring) : tagfree (a ++ b) -> tagfree b.
Proof. induction a as [|c r IH]; simpl; [tauto | intros [_ H]; auto]. Qed.

Lemma tagfree_app_l (a b : jsstring) : tagfree (a ++ b) -> tagfree a.
Proof.
  induction a as [|c r IH]; simpl; [tauto|].
  intros [H1 H2]. split; [|auto].
  intros E Hin. apply (H1 E). apply in_app_iff. now left.
Qed.

Lemma ws_norm_app_r (a b : jsstring) : ws_norm (a ++ b) -> ws_norm b.
Proof. induction a as [|c r IH]; simpl; [tauto | intros [_ H]; auto]. Qed.

Lemma ws_norm_app_l (a b : jsstring) : ws_norm (a ++ b) -> ws_norm a.
Proof.
  induction a as [|c r IH]; simpl; [tauto|].
  intros [H1 H2]. split; [|auto].
  intros E. destruct (H1 E) as [-> Hn]. split; [reflexivity|].
  destruct r; simpl in *; auto.
Qed.

Lemma trim_prefix_suffix (s : jsstring) : exists a b, s = a ++ trim s ++ b.
Proof.
  unfold trim.
  destruct (trimEnd_prefix (trimStart s)) as [b Hb].
  exists (takeWhile is_ws s), b.
  rewrite <- Hb. apply dropWhile_suffix.
Qed.

Lemma tagfree_trim (s : jsstring) : tagfree s -> tagfree (trim s).
Proof.
  destruct (trim_prefix_suffix s) as (a & b & E). intros H.
  rewrite E in H. now apply tagfree_app_r, tagfree_app_l in H.
Qed.

Lemma ws_norm_trim (s : jsstring) : ws_norm s -> ws_norm (trim s).
Proof.
  destruct (trim_prefix_suffix s) as (a & b & E). intros H.
  rewrite E in H. now apply ws_norm_app_r, ws_norm_app_l in H.
Qed.

Lemma tagfree_plain_app (a b : jsstring) :
  ~ In lt_sign a -> tagfree b -> tagfree (a ++ b).
Proof.
  induction a as [|x t IH]; simpl; [tauto|].
  intros Hl Hb. split; [|apply IH; tauto].
  intros ->. exfalso. apply Hl. now left.
Qed.

(** A replacement text without angle brackets keeps a text markup-free. *)
Lemma tagfree_replace (m : jsstring -> option nat) (repl : jsstring) :
  ~ In lt_sign repl -> ~ In gt_sign repl ->
  forall s k, tagfree s -> tagfree (replace_from m repl k s).
Proof.
  intros Hl Hg. induction s as [|c r IH]; intros k; simpl; [tauto|].
  intros [H1 H2]. destruct k as [|k]; [|auto].
  assert (Hkeep : tagfree (c :: replace_from m repl 0 r)).
  { simpl. split; [|auto]. intros E Hin. apply (H1 E).
    eapply replace_from_In; eauto. }
  destruct (m (c :: r)) as [[|n]|]; try exact Hkeep.
  apply tagfree_plain_app; auto.
Qed.

(** Stripping the tags leaves a markup-free text. *)
Lemma tagfree_strip (s : jsstring) (k : nat) :
  tagfree (replace_from match_tag [space] k s).
Proof.
  assert (Hg : ~ In gt_sign [space]) by (simpl; intros [H|[]]; discriminate).
  revert k; induction s as [|c r IH]; intros k; simpl; [exact I|].
  destruct k as [|k]; [|apply IH].
  destruct (N.eqb_spec c lt_sign) as [->|Hne].
  - destruct (index_of gt_sign r) as [j|] eqn:E; simpl.
    + split; [discriminate | apply IH].
    + split; [|apply IH]. intros _ Hin.
      apply replace_from_In in Hin; [|exact Hg].
      apply index_of_None in E. contradiction.
  - simpl. split; [intros; contradiction | apply IH].
Qed.

(** Matchers that need an opening and a closing bracket find nothing in a
    markup-free text. *)
Lemma match_tag_tagfree (t : jsstring) : tagfree t -> match_tag t = None.
Proof.
  destruct t as [|c r]; simpl; [reflexivity|]. intros [H _].
  destruct (N.eqb_spec c lt_sign) as [E|]; [|reflexivity].
  apply H, index_of_None in E. now rewrite E.
Qed.

Lemma ci_eqb_lt (c : jschar) : ci_eqb lt_sign c = true -> c = lt_sign.
Proof.
  unfold ci_eqb. replace (ascii_upper lt_sign) with lt_sign by reflexivity.
  unfold ascii_upper, lt_sign.
  destruct ((97 <=? c) && (c <=? 122))%N eqn:E; intros H; apply N.eqb_eq in H.
  - apply andb_prop in E as [E1 E2]. apply N.leb_le in E1. lia.
  - now symmetry.
Qed.

Lemma In_skipn (x : jschar) (n : nat) (s : jsstring) :
  In x (skipn n s) -> In x s.
Proof.
  revert s; induction n as [|n IH]; intros [|c r]; simpl; auto.
Qed.

Lemma match_block_tagfree (o closer t : jsstring) :
  tagfree t -> match_block (lt_sign :: o) closer t = None.
Proof.
  unfold match_block. destruct t as [|c r]; [reflexivity|].
  cbn [prefix_by]. intros [H _].
  destruct (ci_eqb lt_sign c) eqn:Ec; [|reflexivity].
  destruct (prefix_by ci_eqb o r); [|reflexivity].
  cbn [andb length skipn].
  apply ci_eqb_lt in Ec. specialize (H Ec).
  assert (E : index_of gt_sign (skipn (length o) r) = None).
  { apply index_of_None. intros Hin. apply H. eapply In_skipn; eauto. }
  now rewrite E.
Qed.

Lemma tagfree_tail (c : jschar) (r : jsstring) : tagfree (c :: r) -> tagfree r.
Proof. simpl; tauto. Qed.

(** ** Whitespace normalisation *)

Lemma takeWhile_length_skipn (p : jschar -> bool) (s : jsstring) :
  skipn (length (takeWhile p s)) s = dropWhile p s.
Proof.
  induction s as [|c r IH]; simpl; [reflexivity|].
  destruct (p c); simpl; [assumption | reflexivity].
Qed.

Lemma match_spaces_nonws (c : jschar) (r : jsstring) :
  is_ws c = false -> match_spaces (c :: r) = None.
Proof. intros H. unfold match_spaces. simpl. now rewrite H. Qed.

Lemma match_spaces_ws (c : jschar) (r : jsstring) :
  is_ws c = true ->
  match_spaces (c :: r) = Some (S (length (takeWhile is_ws r))).
Proof. intros H. unfold match_spaces. simpl. now rewrite H. Qed.

Lemma ws_norm_collapse (s : jsstring) (k : nat) :
  ws_norm (replace_from match_spaces [space] k s).
Proof.
  revert k; induction s as [|c r IH]; intros k; simpl; [exact I|].
  destruct k as [|k]; [|apply IH].
  destruct (is_ws c) eqn:Ec.
  - rewrite (match_spaces_ws c r Ec). simpl. split; [|apply IH].
    intros _. split; [reflexivity|].
    rewrite replace_from_skip, takeWhile_length_skipn.
    destruct (dropWhile is_ws r) as [|d t] eqn:Ed; simpl; [exact I|].
    pose proof (dropWhile_head _ _ _ _ Ed) as Hd.
    now rewrite (match_spaces_nonws d t Hd).
  - rewrite (match_spaces_nonws c r Ec). simpl. split; [|apply IH].
    rewrite Ec. discriminate.
Qed.

Lemma ws_norm_fixed (s : jsstring) :
  ws_norm s -> replaceAll match_spaces [space] s = s.
Proof.
  unfold replaceAll.
  induction s as [|c r IH]; simpl; [reflexivity|].
  intros [H1 H2]. destruct (is_ws c) eqn:Ec.
  - destruct (H1 eq_refl) as [-> Hn].
    rewrite (match_spaces_ws space r Ec).
    assert (E : takeWhile is_ws r = []).
    { destruct r as [|d t]; simpl; [reflexivity | now rewrite Hn]. }
    rewrite E. simpl. f_equal. auto.
  - rewrite (match_spaces_nonws c r Ec). f_equal. auto.
Qed.

(** ** The cleaner *)

Lemma clean_shape (x : jsstring) :
  tagfree (cleanHtmlContent x) /\ ws_norm (cleanHtmlContent x)
  /\ trim (cleanHtmlContent x) = cleanHtmlContent x.
Proof.
  unfold cleanHtmlContent. destruct (falsy x).
  - simpl. repeat split.
  - split; [|split].
    + apply tagfree_trim. unfold replaceAll at 1.
      apply tagfree_replace; try (simpl; intros [H|[]]; discriminate).
      apply tagfree_strip.
    + apply ws_norm_trim, ws_norm_collapse.
    + apply trim_idem.
Qed.

Lemma clean_fixed (c : jsstring) :
  tagfree c -> ws_norm c -> trim c = c -> cleanHtmlContent c = c.
Proof.
  intros Ht Hw Htrim. unfold cleanHtmlContent.
  destruct c as [|a r]; [reflexivity|]. cbn [falsy].
  unfold match_script, match_style, js. simpl map.
  rewrite (replace_id _ [] tagfree tagfree_tail
             (fun t H => match_block_tagfree _ _ t H) _ Ht).
  rewrite (replace_id _ [] tagfree tagfree_tail
             (fun t H => match_block_tagfree _ _ t H) _ Ht).
  rewrite (replace_id _ [space] tagfree tagfree_tail match_tag_tagfree _ Ht).
  rewrite (ws_norm_fixed _ Hw). exact Htrim.
Qed.

(** C8 — cleaning is idempotent: a second pass of [cleanHtmlContent] over
    an already cleaned text changes nothing. *)
Theorem cleanHtmlContent_idempotent (x : jsstring) :
  cleanHtmlContent (cleanHtmlContent x) = cleanHtmlContent x.
Proof.
  destruct (clean_shape x) as (Ht & Hw & Htrim).
  now apply clean_fixed.
Qed.

(** ** Validation *)

Lemma no_issue_iff (c1 c2 c3 c4 c5 : bool) (m1 m2 m3 m4 m5 : jsstring) :
  (length (push_when c5 m5 (push_when c4 m4 (push_when c3 m3
     (push_when c2 m2 (push_when c1 m1 []))))) =? 0)
  = negb c1 && negb c2 && negb c3 && negb c4 && negb c5.
Proof. destruct c1, c2, c3, c4, c5; reflexivity. Qed.

Lemma first_issue_kept (c1 c2 c3 c4 c5 : bool) (m1 m2 m3 m4 m5 : jsstring) :
  c1 = true ->
  In m1 (push_when c5 m5 (push_when c4 m4 (push_when c3 m3
     (push_when c2 m2 (push_when c1 m1 []))))).
Proof. intros ->. destruct c2, c3, c4, c5; simpl; auto. Qed.

Lemma length_zero_iff (s : jsstring) : (length s =? 0) = false <-> s <> [].
Proof. destruct s; simpl; split; congruence. Qed.

Lemma title_present_iff (post : MongoPost) :
  title_missing post = false <->
  exists t, title post = Some t /\ trim t <> [].
Proof.
  unfold title_missing. destruct (title post) as [t|]; simpl.
  - rewrite orb_false_iff, length_zero_iff. split.
    + intros [_ H]. eauto.
    + intros (t' & E & H). injection E as <-. split; [|assumption].
      destruct t; [now elim H | reflexivity].
  - split; [discriminate | intros (t & E & _); discriminate].
Qed.

Lemma title_bounded_iff (n : nat) (post : MongoPost) (t : jsstring) :
  title post = Some t ->
  (title_longer_than n post = false <-> length t <= n).
Proof.
  unfold title_longer_than. intros ->. simpl.
  destruct t as [|c r]; simpl.
  - split; [lia | reflexivity].
  - rewrite Nat.ltb_ge. reflexivity.
Qed.

Lemma strict_valid_iff (post : MongoPost) :
  isValid (Strict.validatePostContent post) = true <->
    (exists t, title post = Some t /\ trim t <> [] /\ length t <= 200)
    /\ (exists b, content_text post = Some b /\ trim b <> []
                  /\ 50 <= length (cleanHtmlContent b))
    /\ status post = Some 1%Z.
Proof.
  unfold Strict.validatePostContent. cbn [isValid].
  rewrite no_issue_iff. rewrite !andb_true_iff, !negb_true_iff.
  rewrite title_present_iff. split.
  - intros (((((t & Et & Htrim) & Hc) & Hlen) & Hlong) & Hst).
    split; [|split].
    + exists t. repeat split; auto. now apply (title_bounded_iff 200 post t Et).
    + destruct (content_text post) as [b|]; [|discriminate].
      simpl in *. apply orb_false_iff in Hc as [_ Hc].
      exists b. repeat split; [now apply length_zero_iff|].
      now apply Nat.ltb_ge.
    + destruct (status post) as [z|]; [|discriminate]. simpl in Hst.
      apply negb_false_iff, Z.eqb_eq in Hst. now subst.
  - intros ((t & Et & Htrim & Hlen) & (b & Eb & Hb & Hmin) & Hst).
    rewrite Eb, Hst. simpl. repeat split.
    + eauto.
    + apply orb_false_iff. split.
      * destruct b; [now elim Hb | reflexivity].
      * now apply length_zero_iff.
    + now apply Nat.ltb_ge.
    + now apply (title_bounded_iff 200 post t Et).
Qed.

Lemma relaxed_valid_iff (post : MongoPost) :
  isValid (Relaxed.validatePostContent post) = true <->
    (exists t, title post = Some t /\ trim t <> [] /\ length t <= 500)
    /\ (trim (resolve_content post) <> []
        /\ 5 <= length (cleanHtmlContent (resolve_content post)))
    /\ (status post = None \/ status post = Some 1%Z
        \/ status post = Some 0%Z).
Proof.
  unfold Relaxed.validatePostContent. cbn [isValid].
  rewrite no_issue_iff. rewrite !andb_true_iff, !negb_true_iff.
  rewrite title_present_iff. split.
  - intros (((((t & Et & Htrim) & Hc) & Hlen) & Hlong) & Hst).
    split; [|split].
    + exists t. repeat split; auto. now apply (title_bounded_iff 500 post t Et).
    + apply orb_false_iff in Hc as [_ Hc].
      split; [now apply length_zero_iff | now apply Nat.ltb_ge].
    + destruct (status post) as [z|]; [|now left]. right.
      apply andb_false_iff in Hst as [H|H];
        apply negb_false_iff, Z.eqb_eq in H; subst; auto.
  - intros ((t & Et & Htrim & Hlen) & (Hb & Hmin) & Hst).
    repeat split.
    + eauto.
    + apply orb_false_iff. split; [|now apply length_zero_iff].
      destruct (resolve_content post); [now elim Hb | reflexivity].
    + now apply Nat.ltb_ge.
    + now apply (title_bounded_iff 500 post t Et).
    + destruct Hst as [->|[->| ->]]; reflexivity.
Qed.

Lemma empty_title_rejected (post : MongoPost) :
  title_missing post = true ->
  (In (js "Missing or empty title") (issues (Strict.validatePostContent post))
   /\ isValid (Strict.validatePostContent post) = false)
  /\ (In (js "Missing or empty title")
        (issues (Relaxed.validatePostContent post))
      /\ isValid (Relaxed.validatePostContent post) = false).
Proof.
  intros H. split; split.
  - unfold Strict.validatePostContent. cbn [issues].
    now apply first_issue_kept.
  - unfold Strict.validatePostContent. cbn [isValid].
    rewrite no_issue_iff, H. reflexivity.
  - unfold Relaxed.validatePostContent. cbn [issues].
    now apply first_issue_kept.
  - unfold Relaxed.validatePostContent. cbn [isValid].
    rewrite no_issue_iff, H. reflexivity.
Qed.




(* ================================================================== *)
(** ** The relational orchestrator *)
(* ================================================================== *)

Section OrchestratorFacts.
Variable Env : Type.
Variable out : Outside Env.
Variable host : Host.

Lemma now_iso_returns (w : World Env) :
  exists s w', now_iso out host w = (Returned s, w')
               /\ articles w' = articles w /\ points w' = points w.
Proof.
  unfold now_iso, Date_now, bind, ask, ret.
  destruct (Date_now_at out (env w)) as [t e]. simpl. eauto.
Qed.

(** A turn of the loop never throws, and moves exactly one counter. *)
Lemma processPost_returns (transform : Transformer Env) (ch : jsstring)
    (post : MongoPost) (r : BatchResults) (w : World Env) :
  exists r' w',
    processPost out host transform ch post r w = (Returned r', w')
    /\ (r' = record_skip r \/ r' = record_success r
        \/ exists msg, r' = record_failure msg r).
Proof.
  unfold processPost, attemptPost, try_catch, bind.
  destruct (transform post ch w) as [[t|e] w1].
  - destruct (success t); simpl.
    + destruct (data t) as [d|].
      * destruct (now_iso_returns w1) as (s & w2 & -> & _).
        unfold newsArticlesApi_create, guarded, modify, ret.
        destruct (rel_fault out _ (env w2)) as [[e|] e2]; simpl; eauto 8.
      * unfold ret. eauto 8.
    + destruct (skipped t); unfold ret; eauto 8.
  - unfold ret. eauto 8.
Qed.

(** A failing record leaves the other counters alone. *)
Lemma processPost_failure (transform : Transformer Env) (ch : jsstring)
    (post : MongoPost) (r : BatchResults) (w w' : World Env)
    (msg : jsstring) :
  record_fails out host transform ch post r w msg w' ->
  processPost out host transform ch post r w
  = (Returned (record_failure msg r), w').
Proof.
  intros [t w1 Ht Hs Hk | e w1 He].
  - unfold processPost, attemptPost, try_catch, bind.
    rewrite Ht, Hs, Hk. reflexivity.
  - unfold processPost, try_catch. rewrite He. reflexivity.
Qed.

Lemma processPosts_app (transform : Transformer Env) (ch : jsstring)
    (pre rest : list MongoPost) (r : BatchResults) (w : World Env) :
  processPosts out host transform ch (pre ++ rest) r w
  = match processPosts out host transform ch pre r w with
    | (Returned r1, w1) => processPosts out host transform ch rest r1 w1
    | (Threw e, w1) => (Threw e, w1)
    end.
Proof.
  revert r w. induction pre as [|p pre IH]; intros r w; simpl.
  - reflexivity.
  - unfold bind at 1 2.
    destruct (processPost out host transform ch p r w) as [[r1|e] w1];
      [apply IH | reflexivity].
Qed.

Lemma processPosts_counts (transform : Transformer Env) (ch : jsstring)
    (posts : list MongoPost) (r : BatchResults) (w : World Env) :
  exists r' w',
    processPosts out host transform ch posts r w = (Returned r', w')
    /\ successful r' + failed_count r' + skipped_count r'
       = successful r + failed_count r + skipped_count r + length posts
    /\ length (errors r') + failed_count r
       = length (errors r) + failed_count r'.
Proof.
  revert r w. induction posts as [|p rest IH]; intros r w; simpl.
  - unfold ret. exists r, w. repeat split; lia.
  - unfold bind.
    destruct (processPost_returns transform ch p r w)
      as (r1 & w1 & -> & Hstep).
    destruct (IH r1 w1) as (r2 & w2 & -> & Hsum & Herr).
    exists r2, w2. split; [reflexivity|].
    destruct Hstep as [-> | [-> | [msg ->]]]; simpl in *;
      try rewrite length_app in *; simpl in *; lia.
Qed.

(** C10 — the three counters of [processBatch] partition the batch, and
    there is one error message per failed record. *)
Theorem processBatch_counter_partition (posts : list MongoPost)
    (channelId : jsstring) (w : World Env) :
  exists r w',
    processBatch out host posts channelId w = (Returned r, w')
    /\ successful r + failed_count r + skipped_count r = length posts
    /\ length (errors r) = failed_count r.
Proof.
  unfold processBatch, processBatchWith.
  destruct (processPosts_counts (transformPost out host) channelId posts
              no_results w) as (r & w' & E & Hsum & Herr).
  exists r, w'. simpl in *. repeat split; [assumption | lia | lia].
Qed.

Lemma afterFetch_returns (batch : list MongoPost) (ch : jsstring)
    (st : LoopState) (w : World Env) :
  exists st' w',
    afterFetch out host batch ch st w = (Returned st', w')
    /\ job_status (migrationJob st') = job_status (migrationJob st)
    /\ last_processed_id (migrationJob st') = lastId st'
    /\ lastId st' = match rev batch with
                    | lastPost :: _ => Some (ObjectId_toString (_id lastPost))
                    | [] => lastId st
                    end.
Proof.
  unfold afterFetch, bind.
  unfold processBatch, processBatchWith.
  destruct (processPosts_counts (transformPost out host) ch batch no_results w)
    as (r & w' & -> & _).
  unfold ret. eexists _, w'. split; [reflexivity|]. simpl. auto.
Qed.


(** C2 — after a turn of the migration loop whose fetch returned a
    non-empty batch, the job's cursor is the identifier of the last record
    of that batch, whatever happened to the records of the batch. *)
Theorem cursor_is_last_fetched_id (batchSize : nat) (opts : MigrateOptions)
    (channelId : jsstring) (st : LoopState) (w : World Env)
    (front : list MongoPost) (lastPost : MongoPost) (e' : Env) :
  mongo_fetchPosts_at out
    {| fo_limit := Some batchSize; fo_skip := None;
       fo_fromDate := fromDate opts; fo_toDate := toDate opts;
       fo_lastId := lastId st |} (env w)
    = (Returned (front ++ [lastPost]), e') ->
  exists st' w',
    loopBody out host batchSize opts channelId st w
      = (Returned (true, st'), w')
    /\ last_processed_id (migrationJob st')
       = Some (ObjectId_toString (_id lastPost))
    /\ lastId st' = Some (ObjectId_toString (_id lastPost)).
Proof.
  intros Hfetch.
  unfold loopBody, try_catch, bind at 1, mongo_fetchPosts, call.
  rewrite Hfetch.
  assert (Hlen : (length (front ++ [lastPost]) =? 0) = false).
  { rewrite length_app. simpl. apply Nat.eqb_neq. lia. }
  rewrite Hlen. unfold bind.
  destruct (afterFetch_returns (front ++ [lastPost]) channelId st
              (set_env e' w)) as (st' & w' & -> & _ & Hjob & Hid).
  rewrite rev_app_distr in Hid. simpl in Hid.
  exists st', w'. unfold ret. split; [reflexivity|].
  split; [now rewrite Hjob | assumption].
Qed.

End OrchestratorFacts.


(** Witness of C2: the first turn over the sample source with batches of
    two leaves the cursor on the second record, whose write failed. *)
Lemma cursor_is_last_fetched_id_witness :
  exists st' w',
    loopBody Demo.outside Demo.host 2 Demo.real_options (js "channel-4")
      {| migrationJob :=
           {| job_id := js "migration_0"; source_db := js "mongodb";
              target_channel_id := js "channel-4"; job_status := running;
              total_records := 4; processed_records := 0;
              failed_records := 0; started_at := None; completed_at := None;
              error_message_of := None; last_processed_id := None |};
         lastId := None; totalProcessed := 0; totalFailed := 0;
         allErrors := [] |}
      Demo.world = (Returned (true, st'), w')
    /\ last_processed_id (migrationJob st')
       = Some (js "65a1f0c2d4e5f6a7b8c9d0e2").
Proof.
  edestruct (cursor_is_last_fetched_id _ Demo.outside Demo.host 2
               Demo.real_options (js "channel-4")
               {| migrationJob :=
                    {| job_id := js "migration_0"; source_db := js "mongodb";
                       target_channel_id := js "channel-4";
                       job_status := running;
                       total_records := 4; processed_records := 0;
                       failed_records := 0; started_at := None;
                       completed_at := None;
                       error_message_of := None; last_processed_id := None |};
                  lastId := None; totalProcessed := 0; totalFailed := 0;
                  allErrors := [] |}
               Demo.world [Demo.first_post] Demo.refused_post 1)
    as (st' & w' & Hrun & Hcur & _).
  - reflexivity.
  - exists st', w'. split; [exact Hrun | exact Hcur].
Defined.

(* ================================================================== *)
(** ** The transformer *)
(* ================================================================== *)

Section TransformerFacts.
Variable Env : Type.
Variable out : Outside Env.
Variable host : Host.

(** C7 — for a valid record without summary and without SEO description,
    the transformer's summary is the first 200 units of the cleaned body
    followed by ["..."] (203 units in all) when the cleaned body is longer
    than 200 units, and the cleaned body itself, with nothing appended,
    when it has at most 200 units. *)
Theorem summary_derivation (post : MongoPost) (channelId : jsstring)
    (w : World Env) :
  isValid (Strict.validatePostContent post) = true ->
  falsy_opt (summary post) = true ->
  falsy_opt (seo_description post) = true ->
  let cleaned := cleanHtmlContent (or_empty (content_text post)) in
  exists t d w' s,
    transformPost out host post channelId w = (Returned t, w')
    /\ success t = true /\ data t = Some d
    /\ art_content d = cleaned
    /\ art_summary d = Some s
    /\ (200 < length cleaned ->
        s = firstn 200 cleaned ++ [46%N; 46%N; 46%N]
        /\ length s = 203
        /\ forall i, i < 200 -> nth_error s i = nth_error cleaned i)
    /\ (length cleaned <= 200 -> s = cleaned).
Proof.
  intros Hvalid Hsum Hseo cleaned.
  unfold transformPost. rewrite Hvalid. cbn [negb]. unfold bind.
  destruct (now_iso_returns _ out host w) as (stamp & w' & -> & _).
  unfold ret.
  apply strict_valid_iff in Hvalid as (_ & (b & Eb & _ & Hlen) & _).
  assert (Hc : 50 <= length cleaned) by (unfold cleaned; now rewrite Eb).
  assert (Hs : truthy_or_undefined (derive_summary post cleaned)
               = Some (if 200 <? length cleaned
                       then firstn 200 cleaned ++ [46%N; 46%N; 46%N]
                       else cleaned)).
  { unfold derive_summary, first_truthy. rewrite Hsum, Hseo. cbn [negb].
    destruct cleaned as [|c r] eqn:Ec; [simpl in Hc; lia|].
    cbn [falsy negb andb].
    destruct (200 <? length (c :: r)) eqn:E; unfold substring0.
    - reflexivity.
    - apply Nat.ltb_ge in E. rewrite (firstn_all2 (c :: r) E).
      reflexivity. }
  eexists _, _, w', _. split; [reflexivity|].
  cbn [success data art_content art_summary]. fold cleaned.
  split; [reflexivity|]. split; [reflexivity|]. split; [reflexivity|].
  split; [exact Hs|]. split.
  - intros Hlong. apply Nat.ltb_lt in Hlong as Hb. rewrite Hb.
    split; [reflexivity|]. split.
    + rewrite length_app, firstn_length_le by lia. reflexivity.
    + intros i Hi. rewrite nth_error_app1
        by (rewrite firstn_length_le by lia; exact Hi).
      rewrite nth_error_firstn. apply Nat.ltb_lt in Hi. now rewrite Hi.
  - intros Hshort. apply Nat.ltb_ge in Hshort. now rewrite Hshort.
Qed.

End TransformerFacts.

(** Witness of C7 on two sample records: one whose cleaned body has 245
    units, which is cut after the 200th, and one whose cleaned body has 76
    units, which is kept whole. *)
Lemma summary_derivation_witness :
  (exists t d w',
     transformPost Demo.outside Demo.host long_post (js "channel-4")
       Demo.world = (Returned t, w')
     /\ data t = Some d
     /\ 200 < length (art_content d)
     /\ art_summary d
        = Some (js "Merkez bankasi politika faizini degistirmedi; karar metninde enflasyon gorunumundeki iyilesmenin surdugu, ancak kuresel piyasalardaki belirsizligin yakindan izlendigi belirtildi ve sikilasma adimlarin..."))
  /\ (exists t d w',
        transformPost Demo.outside Demo.host Demo.first_post
          (js "channel-4") Demo.world = (Returned t, w')
        /\ data t = Some d
        /\ art_summary d
           = Some (js "Merkez bankasi faiz kararini acikladi; piyasalar hareketli bir gun gecirdi.")).
Proof.
  split.
  - destruct (summary_derivation _ Demo.outside Demo.host long_post
                (js "channel-4") Demo.world)
      as (t & d & w' & s & Hrun & _ & Hd & Hc & Hs & Hlong & _);
      [vm_compute; reflexivity | reflexivity | reflexivity |].
    assert (Hlen : 200 < length (cleanHtmlContent
                                   (or_empty (content_text long_post))))
      by (vm_compute; lia).
    destruct (Hlong Hlen) as (Hcut & _).
    exists t, d, w'. split; [exact Hrun|]. split; [exact Hd|].
    split; [rewrite Hc; exact Hlen|].
    rewrite Hs, Hcut. vm_compute. reflexivity.
  - destruct (summary_derivation _ Demo.outside Demo.host Demo.first_post
                (js "channel-4") Demo.world)
      as (t & d & w' & s & Hrun & _ & Hd & _ & Hs & _ & Hshort);
      [reflexivity | reflexivity | reflexivity |].
    exists t, d, w'. split; [exact Hrun|]. split; [exact Hd|].
    rewrite Hs, Hshort; [reflexivity | vm_compute; lia].
Defined.

(* ================================================================== *)
(** ** What the computations leave alone *)
(* ================================================================== *)

Section Frames.
Variable Env : Type.
Variable out : Outside Env.
Variable host : Host.

Lemma keeps_ret {A} (a : A) : keeps_records (ret (Env := Env) a).
Proof. intros w. simpl. auto. Qed.

Lemma keeps_throw {A} (e : Thrown) :
  keeps_records (throw (Env := Env) (A := A) e).
Proof. intros w. simpl. auto. Qed.

Lemma keeps_bind {A B} (c : M Env A) (k : A -> M Env B) :
  keeps_records c -> (forall a, keeps_records (k a)) ->
  keeps_records (bind c k).
Proof.
  intros Hc Hk w. unfold bind. specialize (Hc w).
  destruct (c w) as [[a|e] w1]; simpl in *; [|assumption].
  destruct (Hk a w1) as [H1 H2]. destruct Hc as [H3 H4].
  split; congruence.
Qed.

Lemma keeps_try_catch {A} (c : M Env A) (h : Thrown -> M Env A) :
  keeps_records c -> (forall e, keeps_records (h e)) ->
  keeps_records (try_catch c h).
Proof.
  intros Hc Hh w. unfold try_catch. specialize (Hc w).
  destruct (c w) as [[a|e] w1]; simpl in *; [assumption|].
  destruct (Hh e w1) as [H1 H2]. destruct Hc as [H3 H4].
  split; congruence.
Qed.

Lemma keeps_try_finally {A} (c : M Env A) (f : M Env unit) :
  keeps_records c -> keeps_records f -> keeps_records (try_finally c f).
Proof.
  intros Hc Hf w. unfold try_finally. specialize (Hc w).
  destruct (c w) as [r w1]. specialize (Hf w1).
  destruct (f w1) as [[u|e] w2]; simpl in *;
    destruct Hc, Hf; split; congruence.
Qed.

Lemma keeps_ask {A} (f : Env -> A * Env) : keeps_records (ask f).
Proof. intros w. unfold ask. destruct (f (env w)). simpl. auto. Qed.

Lemma keeps_call {A} (f : Env -> Outcome A * Env) : keeps_records (call f).
Proof. intros w. unfold call. destruct (f (env w)). simpl. auto. Qed.

Lemma keeps_read {A} (f : World Env -> A) : keeps_records (read f).
Proof. intros w. simpl. auto. Qed.

Lemma keeps_guarded {A} (fault : Env -> option Thrown * Env)
    (act : M Env A) :
  keeps_records act -> keeps_records (guarded fault act).
Proof.
  intros Ha w. unfold guarded.
  destruct (fault (env w)) as [[e|] e']; simpl; [auto|].
  apply (Ha (set_env e' w)).
Qed.

Lemma keeps_modify (f : World Env -> World Env) :
  (forall w, articles (f w) = articles w /\ points (f w) = points w) ->
  keeps_records (modify f).
Proof. intros Hf w. simpl. apply Hf. Qed.

Lemma keeps_if {A} (b : bool) (c d : M Env A) :
  keeps_records c -> keeps_records d ->
  keeps_records (if b then c else d).
Proof. destruct b; auto. Qed.

End Frames.

Create HintDb frame.

#[local] Hint Resolve keeps_ret keeps_throw keeps_ask keeps_call keeps_read
  keeps_if : frame.
#[local] Hint Extern 2 (keeps_records (bind _ _)) =>
  apply keeps_bind; [|intros ?] : frame.
#[local] Hint Extern 2 (keeps_records (try_catch _ _)) =>
  apply keeps_try_catch; [|intros ?] : frame.
#[local] Hint Extern 2 (keeps_records (try_finally _ _)) =>
  apply keeps_try_finally : frame.
#[local] Hint Extern 2 (keeps_records (guarded _ _)) =>
  apply keeps_guarded : frame.
#[local] Hint Extern 2 (keeps_records (modify _)) =>
  apply keeps_modify; intros ?; simpl; split; reflexivity : frame.
#[local] Hint Extern 3 (keeps_records (match ?x with _ => _ end)) =>
  destruct x : frame.

Ltac frame := auto 30 with frame.

Section DryRun.
Variable Env : Type.
Variable out : Outside Env.
Variable host : Host.

Lemma keeps_Date_now : keeps_records (Date_now out).
Proof. unfold Date_now. frame. Qed.

Lemma keeps_now_iso : keeps_records (now_iso out host).
Proof. unfold now_iso. pose proof keeps_Date_now. frame. Qed.

Lemma keeps_ensureDefaultChannel (name : jsstring) :
  keeps_records (ensureDefaultChannel out host name).
Proof.
  unfold ensureDefaultChannel, newsChannelsApi_getAll,
    newsChannelsApi_create, set_defaultChannelId.
  pose proof keeps_now_iso. frame.
Qed.

Lemma keeps_initializeCollection (cfg : VectorConfig) :
  keeps_records (initializeCollection out cfg).
Proof.
  unfold initializeCollection, qdrant_getCollections, qdrant_getCollection,
    qdrant_createCollection.
  assert (Hidx : forall fields,
             keeps_records (createIndexes out (collectionName cfg) fields)).
  { induction fields as [|f rest IH]; simpl;
      unfold qdrant_createPayloadIndex; frame. }
  frame.
Qed.

Lemma keeps_getCollectionStats (cfg : VectorConfig) :
  keeps_records (getCollectionStats out cfg).
Proof. unfold getCollectionStats, qdrant_getCollection. frame. Qed.

Lemma keeps_transformPostToVector (post : MongoPost) :
  keeps_records (transformPostToVector out host post).
Proof. unfold transformPostToVector, randomUUID. frame. Qed.

Lemma keeps_collectPosts (posts : list MongoPost)
    (acc : MigrationResult * list NewsArticleVector) :
  keeps_records (collectPosts (transformPostToVector out host) acc posts).
Proof.
  revert acc. induction posts as [|p rest IH]; intros acc; simpl.
  - frame.
  - unfold collectPost. pose proof keeps_transformPostToVector. frame.
Qed.

(** A dry batch write touches nothing and adds the batch to [inserted]. *)
Lemma writeBatch_dry (cfg : VectorConfig) (arts : list NewsArticleVector)
    (result : MigrationResult) (w : World Env) :
  writeBatch out host cfg true arts result w
  = (Returned (count_inserted (length arts) result), w).
Proof. reflexivity. Qed.

Lemma count_inserted_zero (result : MigrationResult) :
  count_inserted 0 result = result.
Proof.
  destruct result. unfold count_inserted. simpl. now rewrite Nat.add_0_r.
Qed.

(** A real batch write whose storage call returns adds the same number. *)
Lemma writeBatch_stored (cfg : VectorConfig) (arts : list NewsArticleVector)
    (result : MigrationResult) (w w' : World Env) :
  storeArticlesBatch out host cfg arts w = (Returned tt, w') ->
  writeBatch out host cfg false arts result w
  = (Returned (count_inserted (length arts) result), w').
Proof.
  intros Hstore. unfold writeBatch. cbn [negb andb].
  destruct arts as [|a rest].
  - simpl in *. unfold ret in *. injection Hstore as <-.
    now rewrite count_inserted_zero.
  - cbn [length Nat.ltb Nat.leb]. unfold try_catch, bind.
    rewrite Hstore. reflexivity.
Qed.

Lemma keeps_vectorLoop_dry (fuel : nat) (cfg : VectorConfig)
    (batchSize : nat) (o : VectorOptions) (total offset : nat)
    (result : MigrationResult) :
  vo_dry o = true ->
  keeps_records
    (vectorLoop out host fuel (transformPostToVector out host) cfg batchSize
       o total offset result).
Proof.
  intros Hdry. revert offset result.
  induction fuel as [|fuel IH]; intros offset result; simpl; [frame|].
  rewrite Hdry. unfold mongo_fetchPosts.
  pose proof keeps_collectPosts.
  assert (Hw : forall arts r, keeps_records
                                (writeBatch out host cfg true arts r)).
  { intros arts r w. rewrite writeBatch_dry. simpl. auto. }
  frame.
Qed.

Lemma keeps_migrateToVectorOnly_dry (cfg : VectorConfig) (batchSize : nat)
    (o : VectorOptions) :
  vo_dry o = true ->
  keeps_records (migrateToVectorOnly out host cfg batchSize o).
Proof.
  intros Hdry.
  unfold migrateToVectorOnly, migrateToVectorOnlyWith, mongo_healthCheck,
    mongo_connect, mongo_getPostCount.
  pose proof keeps_Date_now.
  pose proof keeps_initializeCollection.
  pose proof keeps_getCollectionStats.
  pose proof (fun f b t off r =>
                keeps_vectorLoop_dry f cfg b o t off r Hdry).
  frame.
Qed.

(** *** Worlds that differ in the vector points only *)

Lemma same_but_points_refl (w : World Env) : same_but_points w w.
Proof. repeat split. Qed.

Lemma same_but_points_trans (w1 w2 w3 : World Env) :
  same_but_points w1 w2 -> same_but_points w2 w3 -> same_but_points w1 w3.
Proof.
  intros (H1 & H2 & H3 & H4 & H5 & H6) (K1 & K2 & K3 & K4 & K5 & K6).
  repeat split; congruence.
Qed.

Lemma same_set_env (e : Env) (w w' : World Env) :
  same_but_points w w' -> same_but_points (set_env e w) (set_env e w').
Proof.
  intros (H1 & H2 & H3 & H4 & H5 & H6). repeat split; assumption.
Qed.

Lemma agree_ret {A} (a : A) : agree (ret (Env := Env) a) (ret a).
Proof. intros w w' Hs. split; [reflexivity | exact Hs]. Qed.

Lemma agree_throw {A} (e : Thrown) :
  agree (throw (Env := Env) (A := A) e) (throw e).
Proof. intros w w' Hs. split; [reflexivity | exact Hs]. Qed.

Lemma agree_bind {A B} (c c' : M Env A) (k k' : A -> M Env B) :
  agree c c' -> (forall a, agree (k a) (k' a)) ->
  agree (bind c k) (bind c' k').
Proof.
  intros Hc Hk w w' Hs. unfold bind.
  destruct (Hc w w' Hs) as [Hf Hw].
  destruct (c w) as [[a|e] w1], (c' w') as [[a'|e'] w1'];
    cbn [fst snd] in Hf, Hw; try discriminate.
  - injection Hf as <-. now apply Hk.
  - injection Hf as <-. split; [reflexivity | exact Hw].
Qed.

Lemma agree_try_catch {A} (c c' : M Env A) (h h' : Thrown -> M Env A) :
  agree c c' -> (forall e, agree (h e) (h' e)) ->
  agree (try_catch c h) (try_catch c' h').
Proof.
  intros Hc Hh w w' Hs. unfold try_catch.
  destruct (Hc w w' Hs) as [Hf Hw].
  destruct (c w) as [[a|e] w1], (c' w') as [[a'|e'] w1'];
    cbn [fst snd] in Hf, Hw; try discriminate.
  - injection Hf as <-. split; [reflexivity | exact Hw].
  - injection Hf as <-. now apply Hh.
Qed.

Lemma agree_ask {A} (f : Env -> A * Env) : agree (ask f) (ask f).
Proof.
  intros w w' Hs. unfold ask. destruct Hs as (He & Hrest).
  rewrite <- He. destruct (f (env w)) as [a e].
  split; [reflexivity|]. apply same_set_env. split; assumption.
Qed.

Lemma agree_call {A} (f : Env -> Outcome A * Env) : agree (call f) (call f).
Proof.
  intros w w' Hs. unfold call. destruct Hs as (He & Hrest).
  rewrite <- He. destruct (f (env w)) as [a e].
  split; [reflexivity|]. apply same_set_env. split; assumption.
Qed.

Lemma agree_guarded {A} (fault : Env -> option Thrown * Env)
    (act act' : M Env A) :
  agree act act' -> agree (guarded fault act) (guarded fault act').
Proof.
  intros Hact w w' Hs. unfold guarded.
  assert (He : env w = env w') by apply Hs. rewrite <- He.
  destruct (fault (env w)) as [[e|] e1].
  - split; [reflexivity | now apply same_set_env].
  - apply Hact. now apply same_set_env.
Qed.

Lemma agree_read {A} (f : World Env -> A) :
  (forall w w', same_but_points w w' -> f w = f w') ->
  agree (read f) (read f).
Proof.
  intros Hf w w' Hs. unfold read. split; [|exact Hs].
  cbn [fst]. f_equal. now apply Hf.
Qed.

Lemma agree_modify (f : World Env -> World Env) :
  (forall w w', same_but_points w w' -> same_but_points (f w) (f w')) ->
  agree (modify f) (modify f).
Proof.
  intros Hf w w' Hs. unfold modify. split; [reflexivity | now apply Hf].
Qed.

(** A count of the stored points that is thrown away tells nothing. *)
Lemma agree_count_discarded {A} (name : jsstring) (k k' : M Env A) :
  agree k k' ->
  agree (_ <- qdrant_getCollection out name ;; k)
        (_ <- qdrant_getCollection out name ;; k').
Proof.
  intros Hk w w' Hs. unfold bind, qdrant_getCollection, guarded, read.
  assert (He : env w = env w') by apply Hs. rewrite <- He.
  destruct (vec_fault out (GetCollection name) (env w)) as [[e|] e1].
  - split; [reflexivity | now apply same_set_env].
  - apply Hk. now apply same_set_env.
Qed.

Lemma agree_createIndexes (name : jsstring) (fields : list jsstring) :
  agree (createIndexes out name fields) (createIndexes out name fields).
Proof.
  induction fields as [|f rest IH]; simpl; [apply agree_ret|].
  apply agree_bind; [|intros _; exact IH].
  unfold qdrant_createPayloadIndex. apply agree_guarded, agree_modify.
  intros w w' (H1 & H2 & H3 & H4 & H5 & H6).
  repeat split; simpl; congruence.
Qed.

Lemma agree_initializeCollection (cfg : VectorConfig) :
  agree (initializeCollection out cfg) (initializeCollection out cfg).
Proof.
  unfold initializeCollection.
  apply agree_try_catch; [|intros e; apply agree_throw].
  apply agree_bind.
  - unfold qdrant_getCollections. apply agree_guarded, agree_read.
    intros w w' Hs. apply Hs.
  - intros cols. destruct (existsb _ cols).
    + apply agree_count_discarded, agree_ret.
    + apply agree_bind; [|intros _; apply agree_createIndexes].
      unfold qdrant_createCollection. apply agree_guarded, agree_modify.
      intros w w' (H1 & H2 & H3 & H4 & H5 & H6).
      repeat split; simpl; congruence.
Qed.

Lemma agree_collection_stats (cfg : VectorConfig) :
  agree (try_catch (_ <- getCollectionStats out cfg ;; ret tt)
           (fun _ => ret tt))
        (try_catch (_ <- getCollectionStats out cfg ;; ret tt)
           (fun _ => ret tt)).
Proof.
  intros w w' Hs.
  unfold getCollectionStats, qdrant_getCollection, try_catch, bind,
    guarded, read, throw, ret.
  assert (He : env w = env w') by apply Hs. rewrite <- He.
  destruct (vec_fault out (GetCollection (collectionName cfg)) (env w))
    as [[e|] e1]; (split; [reflexivity | now apply same_set_env]).
Qed.

Lemma agree_transformPostToVector (post : MongoPost) :
  agree (transformPostToVector out host post)
        (transformPostToVector out host post).
Proof.
  unfold transformPostToVector.
  destruct (negb (isValid (Relaxed.validatePostContent post)));
    [apply agree_ret|].
  destruct (falsy _ || _); [apply agree_ret|].
  apply agree_bind; [apply agree_ask | intros u; apply agree_ret].
Qed.

Lemma agree_collectPosts (posts : list MongoPost)
    (acc : MigrationResult * list NewsArticleVector) :
  agree (collectPosts (transformPostToVector out host) acc posts)
        (collectPosts (transformPostToVector out host) acc posts).
Proof.
  revert acc. induction posts as [|p rest IH]; intros acc; simpl;
    [apply agree_ret|].
  apply agree_bind; [|intros acc'; apply IH].
  unfold collectPost.
  apply agree_bind; [apply agree_transformPostToVector|].
  intros t. destruct (v_skipped t); [apply agree_ret|].
  destruct (v_success t), (v_data t); apply agree_ret.
Qed.

(** *** The batch write of a real run on a quiet index *)

Lemma generateEmbedding_quiet (cfg : VectorConfig) (text : jsstring)
    (w : World Env) :
  quiet_embedder out ->
  exists v w1,
    generateEmbedding out host cfg text w = (Returned v, w1)
    /\ same_but_points w w1 /\ points w1 = points w.
Proof.
  intros Hq. unfold generateEmbedding, try_catch.
  destruct (has_openai cfg).
  - unfold bind, call. pose proof (Hq text (env w)) as He.
    destruct (openai_embeddings_create out text (env w)) as [[resp|e] e1].
    + simpl in He. subst e1.
      destruct resp as [|v rest]; unfold throw, ret;
        eexists _, _; (split; [reflexivity|]); repeat split.
    + simpl in He. subst e1. unfold ret.
      eexists _, _. split; [reflexivity|]. repeat split.
  - unfold ret. eexists _, _. split; [reflexivity|]. repeat split.
Qed.

Lemma preparePoints_quiet (cfg : VectorConfig)
    (arts : list NewsArticleVector) (pts : list VectorPoint)
    (w : World Env) :
  quiet_embedder out ->
  exists pts' w1,
    preparePoints out host cfg pts arts w = (Returned pts', w1)
    /\ same_but_points w w1.
Proof.
  intros Hq. revert pts w.
  induction arts as [|a rest IH]; intros pts w; simpl.
  - unfold ret. eexists _, _. split; [reflexivity|].
    apply same_but_points_refl.
  - unfold bind at 1. unfold preparePoint, try_catch, bind.
    destruct (generateEmbedding_quiet cfg (contentForEmbedding a) w Hq)
      as (v & w1 & -> & Hs1 & _).
    destruct (nav_published_at a) as [ms|]; unfold toISOString, ret, throw.
    + destruct (IH (pts ++ [point_of a v (toISOString_of host ms)]) w1)
        as (pts' & w2 & -> & Hs2).
      eexists _, _. split; [reflexivity|].
      now apply (same_but_points_trans w w1 w2).
    + destruct (IH pts w1) as (pts' & w2 & -> & Hs2).
      eexists _, _. split; [reflexivity|].
      now apply (same_but_points_trans w w1 w2).
Qed.

Lemma storeArticlesBatch_quiet (cfg : VectorConfig)
    (arts : list NewsArticleVector) (w : World Env) :
  quiet_index out -> quiet_embedder out ->
  exists w',
    storeArticlesBatch out host cfg arts w = (Returned tt, w')
    /\ same_but_points w w'.
Proof.
  intros Hi Hq. unfold storeArticlesBatch.
  destruct (length arts =? 0).
  - unfold ret. exists w. split; [reflexivity|].
    apply same_but_points_refl.
  - unfold try_catch, bind.
    destruct (preparePoints_quiet cfg arts [] w Hq)
      as (pts & w1 & -> & Hs1).
    destruct (0 <? length pts).
    + unfold qdrant_upsert, guarded, modify. rewrite Hi.
      eexists. split; [reflexivity|].
      destruct Hs1 as (H1 & H2 & H3 & H4 & H5 & H6).
      repeat split; simpl; assumption.
    + unfold ret. exists w1. split; [reflexivity | exact Hs1].
Qed.

(** On a quiet index the write step of a dry run and that of a real run
    end alike: the real one has stored points, the result is the same. *)
Lemma writeBatch_dry_as_real (cfg : VectorConfig)
    (arts : list NewsArticleVector) (result : MigrationResult) :
  quiet_index out -> quiet_embedder out ->
  agree (writeBatch out host cfg true arts result)
        (writeBatch out host cfg false arts result).
Proof.
  intros Hi Hq w w' Hs. rewrite writeBatch_dry.
  destruct (storeArticlesBatch_quiet cfg arts w' Hi Hq) as (w'' & E & Hs').
  rewrite (writeBatch_stored cfg arts result w' w'' E).
  split; [reflexivity|]. now apply (same_but_points_trans w w' w'').
Qed.

Lemma vectorLoop_dry_as_real (cfg : VectorConfig) (batchSize : nat)
    (o : VectorOptions) (fuel total offset : nat)
    (result : MigrationResult) :
  quiet_index out -> quiet_embedder out -> vo_dry o = false ->
  agree
    (vectorLoop out host fuel (transformPostToVector out host) cfg
       batchSize (as_dry_run o) total offset result)
    (vectorLoop out host fuel (transformPostToVector out host) cfg
       batchSize o total offset result).
Proof.
  intros Hi Hq Hreal. revert offset result.
  induction fuel as [|fuel IH]; intros offset result; simpl;
    [apply agree_ret|].
  change (effectiveLimit (as_dry_run o)) with (effectiveLimit o).
  change (vo_dateRange (as_dry_run o)) with (vo_dateRange o).
  change (vo_dry (as_dry_run o)) with true. rewrite Hreal.
  destruct ((offset <? total) && (processed result <? effectiveLimit o));
    [|apply agree_ret].
  apply agree_bind; [unfold mongo_fetchPosts; apply agree_call|].
  intros batch. destruct (length batch =? 0); [apply agree_ret|].
  apply agree_bind; [apply agree_collectPosts|].
  intros acc. apply agree_bind; [now apply writeBatch_dry_as_real|].
  intros r'. apply IH.
Qed.

(** On a quiet index a dry run of [migrateToVectorOnly] ends as the real
    run with the same options does: same outcome, same result record, and
    worlds that differ in the stored points only. *)
Lemma migrateToVectorOnly_dry_as_real (cfg : VectorConfig)
    (batchSize : nat) (o : VectorOptions) :
  quiet_index out -> quiet_embedder out -> vo_dry o = false ->
  agree (migrateToVectorOnly out host cfg batchSize (as_dry_run o))
        (migrateToVectorOnly out host cfg batchSize o).
Proof.
  intros Hi Hq Hreal.
  unfold migrateToVectorOnly, migrateToVectorOnlyWith.
  change (effectiveLimit (as_dry_run o)) with (effectiveLimit o).
  change (vo_dateRange (as_dry_run o)) with (vo_dateRange o).
  change (vo_offset (as_dry_run o)) with (vo_offset o).
  apply agree_bind; [unfold Date_now; apply agree_ask|]. intros startTime.
  apply agree_try_catch.
  2:{ intros e. apply agree_bind; [unfold Date_now; apply agree_ask|].
      intros _. apply agree_throw. }
  apply agree_bind; [unfold mongo_healthCheck; apply agree_ask|].
  intros isConnected.
  apply agree_bind.
  { destruct isConnected; [apply agree_ret|].
    unfold mongo_connect. apply agree_call. }
  intros _. apply agree_bind; [apply agree_initializeCollection|].
  intros _. apply agree_bind; [unfold mongo_getPostCount; apply agree_call|].
  intros totalPosts.
  apply agree_bind; [now apply vectorLoop_dry_as_real|].
  intros result. apply agree_bind; [unfold Date_now; apply agree_ask|].
  intros endTime. apply agree_bind; [apply agree_collection_stats|].
  intros _. apply agree_ret.
Qed.

(** *** The relational dry run *)

(** The relational dry run never asks the source reader for records:
    whatever [fetchPosts] would answer, the run is the same. *)
Lemma migrateAllPosts_dry_never_fetches (fuel batchSize : nat)
    (opts : MigrateOptions) (w : World Env)
    (fetch : FetchOptions -> Env -> Outcome (list MongoPost) * Env) :
  dryRun opts = Some true ->
  migrateAllPosts (with_fetchPosts fetch out) host fuel batchSize opts w
  = migrateAllPosts out host fuel batchSize opts w.
Proof.
  intros Hdry. unfold migrateAllPosts. rewrite Hdry. reflexivity.
Qed.

Lemma migrateAllPosts_dry_keeps (fuel batchSize : nat)
    (opts : MigrateOptions) :
  dryRun opts = Some true ->
  keeps_records (migrateAllPosts out host fuel batchSize opts).
Proof.
  intros Hdry. unfold migrateAllPosts. rewrite Hdry.
  unfold mongo_connect, mongo_disconnect, mongo_getPostCount.
  pose proof keeps_Date_now. pose proof keeps_ensureDefaultChannel.
  frame.
Qed.

(** The calls of a relational dry run that returns: connect, ensure the
    channel, count, read the clock twice, disconnect; each starts where
    the one before it ended. *)
Lemma migrateAllPosts_dry_trace (fuel batchSize : nat)
    (opts : MigrateOptions) (w : World Env) :
  dryRun opts = Some true ->
  let rw := migrateAllPosts out host fuel batchSize opts w in
  (exists e, fst rw = Threw e)
  \/ (exists job e1 ch w2 e2 t0 e3 t1 e4 e5,
        rw = (Returned (Some job), set_env e5 w2)
        /\ mongo_connect_at out (env w) = (Returned tt, e1)
        /\ ensureDefaultChannel out host
             match channelName opts with
             | Some n => n
             | None => js "MongoDB Import"
             end (set_env e1 w) = (Returned ch, w2)
        /\ mongo_getPostCount_at out (fromDate opts) (toDate opts) (env w2)
           = (Returned (total_records job), e2)
        /\ Date_now_at out e2 = (t0, e3)
        /\ Date_now_at out e3 = (t1, e4)
        /\ mongo_disconnect_at out e4 = (Returned tt, e5)
        /\ job_status job = completed
        /\ target_channel_id job = ch
        /\ processed_records job = 0 /\ failed_records job = 0
        /\ last_processed_id job = None
        /\ started_at job = Some (DateAt t1)
        /\ completed_at job = None /\ error_message_of job = None).
Proof.
  intros Hdry rw. subst rw.
  unfold migrateAllPosts. rewrite Hdry.
  unfold try_finally, bind, mongo_connect, mongo_disconnect,
    mongo_getPostCount, Date_now, call, ask, ret.
  destruct (mongo_connect_at out (env w)) as [[u|e] e1] eqn:Econ;
    [destruct u | left; eexists; reflexivity].
  destruct (ensureDefaultChannel out host _ (set_env e1 w)) as [[ch|e] w2]
    eqn:Ech.
  - destruct (mongo_getPostCount_at out (fromDate opts) (toDate opts)
                (env w2)) as [[n|e] e2] eqn:Ecount.
    + cbn [env set_env].
      destruct (Date_now_at out e2) as [t0 e3] eqn:E0. cbn [env set_env].
      destruct (Date_now_at out e3) as [t1 e4] eqn:E1. cbn [env set_env].
      destruct (mongo_disconnect_at out e4) as [[u'|e] e5] eqn:Ed;
        [destruct u'; right | left; eexists; reflexivity].
      eexists _, e1, ch, w2, e2, t0, e3, t1, e4, e5.
      split; [reflexivity|]. split; [reflexivity|].
      split; [exact Ech|]. split; [exact Ecount|]. split; [exact E0|].
      split; [exact E1|]. split; [exact Ed|]. repeat split.
    + cbn [env set_env].
      destruct (mongo_disconnect_at out e2) as [[u'|e'] e5];
        left; eexists; reflexivity.
  - destruct (mongo_disconnect_at out _) as [[u'|e'] e5];
      left; eexists; reflexivity.
Qed.


End DryRun.



(* ================================================================== *)
(** ** Event categorisation *)
(* ================================================================== *)

(** C6 — [categorizeEvent] lowercases the title and the content joined by
    a space and runs the keyword rules in the fixed order politics,
    economy, sports, technology, health: the first rule that matches gives
    the category, ["general"] is the result when none matches, and a text
    that matches a politics keyword is ["politics"] even when it matches an
    economy keyword as well. *)
Theorem event_categorization (host : Host) (title content : jsstring) :
  let text := toLowerCase host (title ++ [space] ++ content) in
  categorizeEvent host title content = first_matching_rule category_rules text
  /\ map fst category_rules
     = [js "politics"; js "economy"; js "sports"; js "technology";
        js "health"]
  /\ (matches_keywords kw_politics text = true ->
      matches_keywords kw_economy text = true ->
      categorizeEvent host title content = js "politics")
  /\ (matches_keywords kw_politics text = false ->
      matches_keywords kw_economy text = true ->
      categorizeEvent host title content = js "economy")
  /\ (Forall (fun rule => matches_keywords (snd rule) text = false)
        category_rules ->
      categorizeEvent host title content = js "general").
Proof.
  intros text. unfold categorizeEvent, first_matching_rule, category_rules.
  fold text. cbn [find snd fst map].
  repeat split.
  - destruct (matches_keywords kw_politics text),
             (matches_keywords kw_economy text),
             (matches_keywords kw_sports text),
             (matches_keywords kw_technology text),
             (matches_keywords kw_health text); reflexivity.
  - intros -> _. reflexivity.
  - intros -> ->. reflexivity.
  - intros Hnone.
    repeat match goal with
           | H : Forall _ (_ :: _) |- _ => inversion_clear H
           end.
    cbn [snd] in *.
    repeat match goal with
           | H : matches_keywords _ text = false |- _ => rewrite H; clear H
           end.
    reflexivity.
Qed.

(** Witness of C6: a headline about an election and the dollar. *)
Lemma event_categorization_witness :
  categorizeEvent Demo.host
    (js "Se" ++ [231%N] ++ js "im sonrasi")
    (js "Dolar ve borsa yukseldi")
  = js "politics".
Proof.
  apply (event_categorization Demo.host
           (js "Se" ++ [231%N] ++ js "im sonrasi")
           (js "Dolar ve borsa yukseldi")); reflexivity.
Defined.

(* ================================================================== *)
(** ** Embedding generation and batch storage *)
(* ================================================================== *)

Section EmbeddingFacts.
Variable Env : Type.
Variable out : Outside Env.
Variable host : Host.

(** [generateEmbedding] returns in every world; its value is the remote
    embedding when a client is configured and its call answers with one,
    and the local fallback in every other case. *)
Lemma generateEmbedding_returns (cfg : VectorConfig) (text : jsstring)
    (w : World Env) :
  exists v w',
    generateEmbedding out host cfg text w = (Returned v, w')
    /\ articles w' = articles w /\ points w' = points w
    /\ v = (if has_openai cfg then
              match fst (openai_embeddings_create out text (env w)) with
              | Returned (embedding :: _) => embedding
              | _ => simpleEmbedding host cfg text
              end
            else simpleEmbedding host cfg text).
Proof.
  unfold generateEmbedding, try_catch.
  destruct (has_openai cfg).
  - unfold bind, call.
    destruct (openai_embeddings_create out text (env w)) as [[resp|e] e'].
    + destruct resp as [|v rest]; unfold throw, ret; simpl; eauto 8.
    + unfold ret. simpl. eauto 8.
  - unfold ret. eauto 8.
Qed.

Lemma generateEmbedding_fallback (cfg : VectorConfig) (text : jsstring)
    (w : World Env) :
  remote_unavailable out cfg ->
  exists w',
    generateEmbedding out host cfg text w
    = (Returned (simpleEmbedding host cfg text), w')
    /\ articles w' = articles w /\ points w' = points w.
Proof.
  intros Hdown.
  destruct (generateEmbedding_returns cfg text w)
    as (v & w' & E & Ha & Hp & Hv).
  exists w'. repeat split; try assumption. rewrite E. do 2 f_equal.
  rewrite Hv. destruct Hdown as [-> | Hall]; [reflexivity|].
  destruct (Hall text (env w)) as (err & e' & ->).
  simpl. now destruct (has_openai cfg).
Qed.

Lemma preparePoints_fallback_dated (cfg : VectorConfig)
    (arts : list NewsArticleVector) (pts : list VectorPoint)
    (w : World Env) :
  remote_unavailable out cfg ->
  exists w',
    preparePoints out host cfg pts arts w
    = (Returned (pts ++ map (fallback_point host cfg)
                          (filter has_valid_date arts)), w')
    /\ articles w' = articles w /\ points w' = points w.
Proof.
  intros Hdown. revert pts w.
  induction arts as [|a rest IH]; intros pts w; simpl.
  - unfold ret. exists w. now rewrite app_nil_r.
  - unfold bind at 1. unfold preparePoint, try_catch, bind.
    destruct (generateEmbedding_fallback cfg (contentForEmbedding a) w
                Hdown) as (w1 & -> & Ha1 & Hp1).
    unfold has_valid_date.
    destruct (nav_published_at a) as [ms|] eqn:Ed;
      unfold toISOString, ret, throw.
    + destruct (IH (pts ++ [point_of a
                              (simpleEmbedding host cfg
                                 (contentForEmbedding a))
                              (toISOString_of host ms)]) w1)
        as (w2 & -> & Ha2 & Hp2).
      exists w2. split; [|split; congruence].
      rewrite <- app_assoc. simpl. unfold fallback_point. now rewrite Ed.
    + destruct (IH pts w1) as (w2 & -> & Ha2 & Hp2).
      exists w2. split; [reflexivity | split; congruence].
Qed.

Lemma filter_all_dated (arts : list NewsArticleVector) :
  Forall (fun a => nav_published_at a <> InvalidDate) arts ->
  filter has_valid_date arts = arts.
Proof.
  induction 1 as [|a rest Ha _ IH]; simpl; [reflexivity|].
  unfold has_valid_date at 1.
  destruct (nav_published_at a); [now rewrite IH | congruence].
Qed.

Lemma dated_points_present (cfg : VectorConfig)
    (arts : list NewsArticleVector) :
  (0 <? length (map (fallback_point host cfg)
                  (filter has_valid_date arts)))
  = existsb has_valid_date arts.
Proof.
  rewrite length_map.
  induction arts as [|a rest IH]; simpl; [reflexivity|].
  destruct (has_valid_date a); simpl; auto.
Qed.


End EmbeddingFacts.



(* ================================================================== *)
(** ** The fallback embedding *)
(* ================================================================== *)

Lemma length_update_at (i : nat) (f : F64.float -> F64.float)
    (l : list F64.float) :
  length (update_at i f l) = length l.
Proof.
  revert i; induction l as [|x r IH]; intros [|i]; simpl; auto.
Qed.

Lemma nth_update_at_same (i : nat) (f : F64.float -> F64.float)
    (l : list F64.float) :
  i < length l ->
  nth_error (update_at i f l) i = option_map f (nth_error l i).
Proof.
  revert i; induction l as [|x r IH]; intros [|i]; simpl; try lia.
  - reflexivity.
  - intros H. apply IH. lia.
Qed.

Lemma nth_update_at_fixed (i j : nat) (f : F64.float -> F64.float)
    (l : list F64.float) (x : F64.float) :
  f x = x -> nth_error l j = Some x ->
  nth_error (update_at i f l) j = Some x.
Proof.
  intros Hf. revert i j; induction l as [|y r IH]; intros [|i] [|j];
    simpl; try discriminate; auto.
  intros E. injection E as ->. now rewrite Hf.
Qed.

Section FallbackFacts.
Variable toLowerCase : jsstring -> jsstring.
Variable Math_cos Math_sin : F64.float -> F64.float.

Lemma length_scatter_word (D n : nat) (e : jsstring * FreqVal)
    (l : list F64.float) :
  length (scatter_word Math_cos D n l e) = length l.
Proof.
  unfold scatter_word. generalize (seq 0 5). intros idx. revert l.
  induction idx as [|i idx IH]; intros l; simpl; [reflexivity|].
  rewrite IH. apply length_update_at.
Qed.

Lemma length_fill_statistics (D tl uc : nat) (l : list F64.float) :
  length (fill_statistics Math_sin D tl uc l) = length l.
Proof.
  unfold fill_statistics. generalize (seq 0 (Nat.min 100 D)).
  intros idx. revert l.
  induction idx as [|i idx IH]; intros l; simpl; [reflexivity|].
  rewrite IH. apply length_update_at.
Qed.

(** Every embedding has the configured number of dimensions. *)
Lemma generateSimpleEmbedding_length (D : nat) (text : jsstring) :
  length (generateSimpleEmbedding toLowerCase Math_cos Math_sin D text) = D.
Proof.
  unfold generateSimpleEmbedding.
  set (entries := Object_entries _).
  assert (Hs : forall l,
             length (fold_left
                       (scatter_word Math_cos D
                          (length (match_words (toLowerCase text))))
                       entries l) = length l).
  { induction entries as [|e es IH]; intros l; simpl; [reflexivity|].
    rewrite IH. apply length_scatter_word. }
  destruct (F64.ltb _ _); [rewrite length_map|];
    rewrite length_fill_statistics, Hs; apply repeat_length.
Qed.

(** *** A word that names an inherited property *)

Lemma add_nan_r (x : F64.float) : F64.add x F64.nan = F64.nan.
Proof. destruct x as [s|s| |s m e]; reflexivity. Qed.

Lemma scatter_keeps_nan (D n p : nat) (e : jsstring * FreqVal)
    (l : list F64.float) :
  nth_error l p = Some F64.nan ->
  nth_error (scatter_word Math_cos D n l e) p = Some F64.nan.
Proof.
  unfold scatter_word. generalize (seq 0 5). intros idx. revert l.
  induction idx as [|i idx IH]; intros l H; simpl; [exact H|].
  apply IH. apply nth_update_at_fixed; [reflexivity | exact H].
Qed.

Lemma scatter_not_a_numeral (D n : nat) (word : jsstring)
    (l : list F64.float) :
  length l = D -> 0 < D ->
  nth_error (scatter_word Math_cos D n l (word, NotANumeral))
    (Z.to_nat (simpleHash word mod Z.of_nat D))
  = Some F64.nan.
Proof.
  intros Hlen HD. unfold scatter_word.
  change (seq 0 5) with (0 :: seq 1 4). cbn [fold_left fst snd].
  set (p := Z.to_nat (simpleHash word mod Z.of_nat D)).
  assert (Hp : p < D).
  { subst p. pose proof (Z.mod_pos_bound (simpleHash word) (Z.of_nat D)).
    lia. }
  assert (Hfirst :
    nth_error
      (update_at
         (Z.to_nat ((simpleHash word + Z.of_nat 0 * 307) mod Z.of_nat D))
         (fun old =>
            F64.add old
              (F64.mul (freq_ratio NotANumeral n)
                 (Math_cos (F64.mul (F64.of_nat 0) F64.lit_0_1)))) l) p
    = Some F64.nan).
  { replace (simpleHash word + Z.of_nat 0 * 307)%Z with (simpleHash word)
      by (simpl; lia).
    fold p. rewrite nth_update_at_same by lia.
    destruct (nth_error l p) as [x|] eqn:E.
    - simpl. f_equal. apply add_nan_r.
    - apply nth_error_None in E. lia. }
  revert Hfirst. generalize (seq 1 4) as idx.
  match goal with |- forall idx, nth_error ?l0 p = _ -> _ =>
    generalize l0 end.
  intros l0 idx. revert l0.
  induction idx as [|i idx IH]; intros l0 H; simpl; [exact H|].
  apply IH. apply nth_update_at_fixed; [reflexivity | exact H].
Qed.

Lemma fill_keeps_nan (D tl uc p : nat) (l : list F64.float) :
  nth_error l p = Some F64.nan ->
  nth_error (fill_statistics Math_sin D tl uc l) p = Some F64.nan.
Proof.
  unfold fill_statistics. generalize (seq 0 (Nat.min 100 D)).
  intros idx. revert l.
  induction idx as [|i idx IH]; intros l H; simpl; [exact H|].
  apply IH. apply nth_update_at_fixed; [reflexivity | exact H].
Qed.

Lemma sum_squares_nan_acc (l : list F64.float) :
  fold_left (fun sum val => F64.add sum (F64.mul val val)) l F64.nan
  = F64.nan.
Proof. induction l as [|x r IH]; simpl; [reflexivity | exact IH]. Qed.

Lemma sum_squares_nan (l : list F64.float) (p : nat) (acc : F64.float) :
  nth_error l p = Some F64.nan ->
  fold_left (fun sum val => F64.add sum (F64.mul val val)) l acc = F64.nan.
Proof.
  revert p acc. induction l as [|x r IH]; intros [|p] acc; simpl;
    try discriminate.
  - intros E. injection E as ->.
    change (F64.mul F64.nan F64.nan) with F64.nan.
    rewrite add_nan_r. apply sum_squares_nan_acc.
  - intros E. eapply IH; eauto.
Qed.

(** C4, at the text ["constructor"] — the word is looked up in an object
    literal, where it names an inherited function: its frequency becomes
    a text, the ratio is NaN, the entry at the word's first position is
    NaN, the magnitude is NaN, the test [magnitude > 0] fails, and the
    vector is returned as it is.  It has the configured length, but its
    norm is NaN, not 1. *)
Theorem fallback_embedding_of_constructor (vectorSize : nat) :
  toLowerCase (js "constructor") = js "constructor" ->
  0 < vectorSize ->
  let v := generateSimpleEmbedding toLowerCase Math_cos Math_sin vectorSize
             (js "constructor") in
  length v = vectorSize
  /\ nth_error v
       (Z.to_nat (simpleHash (js "constructor") mod Z.of_nat vectorSize))
     = Some F64.nan
  /\ magnitude_of v = F64.nan.
Proof.
  intros Hlow HD v.
  split; [apply generateSimpleEmbedding_length|].
  subst v. unfold generateSimpleEmbedding. rewrite Hlow.
  replace (Object_entries
             (fold_left count_word (match_words (js "constructor")) []))
    with [(js "constructor", NotANumeral)] by (vm_compute; reflexivity).
  cbn [fold_left].
  set (scattered := scatter_word Math_cos vectorSize _ _ _).
  set (p := Z.to_nat (simpleHash (js "constructor")
                        mod Z.of_nat vectorSize)).
  assert (Hs : nth_error scattered p = Some F64.nan).
  { subst scattered p. apply scatter_not_a_numeral;
      [apply repeat_length | exact HD]. }
  set (filled := fill_statistics Math_sin vectorSize _ _ scattered).
  assert (Hf : nth_error filled p = Some F64.nan)
    by (subst filled; now apply fill_keeps_nan).
  assert (Hm : magnitude_of filled = F64.nan).
  { unfold magnitude_of. now rewrite (sum_squares_nan filled p F64.zero Hf). }
  rewrite Hm. change (F64.ltb F64.zero F64.nan) with false. cbv iota.
  split; [exact Hf | exact Hm].
Qed.

(** *** The empty text *)

Lemma Forall_update_at (P : F64.float -> Prop) (i : nat)
    (f : F64.float -> F64.float) (l : list F64.float) :
  (forall x, P x -> P (f x)) -> Forall P l -> Forall P (update_at i f l).
Proof.
  intros Hf. revert i. induction l as [|x r IH]; intros [|i] H; simpl;
    inversion_clear H; constructor; auto.
Qed.

Lemma sum_squares_zero (l : list F64.float) :
  Forall (fun x => F64.is_zero x = true) l ->
  fold_left (fun sum val => F64.add sum (F64.mul val val)) l F64.zero
  = F64.zero.
Proof.
  induction l as [|x r IH]; intros H; simpl; [reflexivity|].
  inversion_clear H as [|? ? Hx Hr].
  destruct x as [[|]|s| |s m e]; try discriminate; now apply IH.
Qed.

(** For the empty text every entry of the embedding is a zero and the
    vector has the configured length (given a sine that is finite, and a
    lowering that keeps the empty text empty). *)
Lemma fallback_embedding_of_empty_text (vectorSize : nat) :
  toLowerCase [] = [] ->
  (forall x, F64.is_finite (Math_sin x) = true) ->
  let v := generateSimpleEmbedding toLowerCase Math_cos Math_sin vectorSize
             [] in
  length v = vectorSize /\ Forall (fun x => F64.is_zero x = true) v.
Proof.
  intros Hlow Hsin v. split; [apply generateSimpleEmbedding_length|].
  subst v. unfold generateSimpleEmbedding. rewrite Hlow.
  change (Object_entries (fold_left count_word (match_words []) []))
    with (@nil (jsstring * FreqVal)).
  cbn [fold_left length code_points].
  change (distinct_count []) with 0.
  set (filled := fill_statistics Math_sin vectorSize 0 0 _).
  assert (Hz : Forall (fun x => F64.is_zero x = true) filled).
  { subst filled. unfold fill_statistics.
    generalize (seq 0 (Nat.min 100 vectorSize)). intros idx.
    assert (H0 : Forall (fun x => F64.is_zero x = true)
                   (repeat F64.zero vectorSize)).
    { apply Forall_forall. intros x Hx. apply repeat_spec in Hx.
      now subst. }
    revert H0. generalize (repeat F64.zero vectorSize).
    induction idx as [|i idx IH]; intros l Hl; simpl; [exact Hl|].
    apply IH. apply Forall_update_at; [|exact Hl].
    intros x Hx. destruct x as [[|]|s| |s m e]; try discriminate.
    - specialize (Hsin (F64.mul (F64.of_nat i) F64.lit_0_01)).
      cbn. destruct (Math_sin _) as [[|]|[|]| |[|] m e];
        try discriminate; reflexivity.
    - specialize (Hsin (F64.mul (F64.of_nat i) F64.lit_0_01)).
      cbn. destruct (Math_sin _) as [[|]|[|]| |[|] m e];
        try discriminate; reflexivity. }
  unfold magnitude_of. rewrite (sum_squares_zero filled Hz).
  change (F64.ltb F64.zero (F64.sqrt F64.zero)) with false.
  exact Hz.
Qed.

End FallbackFacts.

(** Witness of C4's failing input, on the sample host and the default
    dimension of the service: entry 1030 of 1536 is NaN. *)
Lemma fallback_embedding_of_constructor_witness :
  nth_error
    (generateSimpleEmbedding (toLowerCase Demo.host) (Math_cos Demo.host)
       (Math_sin Demo.host) 1536 (js "constructor")) 1030
  = Some F64.nan.
Proof.
  destruct (fallback_embedding_of_constructor (toLowerCase Demo.host)
              (Math_cos Demo.host) (Math_sin Demo.host) 1536)
    as (_ & Hnan & _); [reflexivity | lia |].
  exact Hnan.
Defined.

(* ================================================================== *)
(** ** The vector-only orchestrator *)
(* ================================================================== *)

Section VectorLoopFacts.
Variable Env : Type.
Variable out : Outside Env.
Variable host : Host.

Lemma bind_ext {A B} (c : M Env A) (k1 k2 : A -> M Env B) (w : World Env) :
  (forall a w', c w = (Returned a, w') -> k1 a w' = k2 a w') ->
  bind c k1 w = bind c k2 w.
Proof.
  intros Hk. unfold bind. destruct (c w) as [[a|e] w']; auto.
Qed.

(** A record whose transformation reports an error costs one error and
    one detail; the articles collected so far are kept. *)
Lemma collectPost_reported_failure (transform : VectorTransformer Env)
    (acc : MigrationResult * list NewsArticleVector) (post : MongoPost)
    (t : VectorTransformation) (w w' : World Env) :
  transform post w = (Returned t, w') ->
  v_skipped t = false -> v_success t = false ->
  exists d,
    collectPost transform acc post w
    = (Returned (count_errors 1 d (count_processed (fst acc)), snd acc), w').
Proof.
  intros Ht Hk Hs. unfold collectPost, bind. rewrite Ht, Hk, Hs.
  unfold ret. eauto.
Qed.

Lemma collectPosts_app (transform : VectorTransformer Env)
    (pre rest : list MongoPost)
    (acc : MigrationResult * list NewsArticleVector) (w : World Env) :
  collectPosts transform acc (pre ++ rest) w
  = match collectPosts transform acc pre w with
    | (Returned acc1, w1) => collectPosts transform acc1 rest w1
    | (Threw e, w1) => (Threw e, w1)
    end.
Proof.
  revert acc w. induction pre as [|p pre IH]; intros acc w; simpl.
  - reflexivity.
  - unfold bind at 1 2.
    destruct (collectPost transform acc p w) as [[acc1|e] w1];
      [apply IH | reflexivity].
Qed.

Lemma collectPosts_processed (transform : VectorTransformer Env)
    (posts : list MongoPost)
    (acc acc' : MigrationResult * list NewsArticleVector)
    (w w' : World Env) :
  collectPosts transform acc posts w = (Returned acc', w') ->
  processed (fst acc') = processed (fst acc) + length posts.
Proof.
  revert acc w. induction posts as [|p rest IH]; intros acc w; simpl.
  - unfold ret. intros E. injection E as <- _. lia.
  - unfold bind at 1.
    destruct (collectPost transform acc p w) as [[acc1|e] w1] eqn:E1;
      [|discriminate].
    intros E. apply IH in E. rewrite E.
    assert (H1 : processed (fst acc1) = S (processed (fst acc))).
    { revert E1. unfold collectPost, bind.
      destruct (transform p w) as [[t|e] w0]; [|discriminate].
      destruct (v_skipped t); [unfold ret; intros X; injection X as <- _;
                               reflexivity|].
      destruct (v_success t), (v_data t); unfold ret; intros X;
        injection X as <- _; reflexivity. }
    lia.
Qed.

Lemma writeBatch_processed (cfg : VectorConfig) (dry : bool)
    (arts : list NewsArticleVector) (r r' : MigrationResult)
    (w w' : World Env) :
  writeBatch out host cfg dry arts r w = (Returned r', w') ->
  processed r' = processed r.
Proof.
  unfold writeBatch.
  destruct (negb dry && (0 <? length arts)).
  - unfold try_catch, bind.
    destruct (storeArticlesBatch out host cfg arts w) as [[u|e] w1];
      unfold ret; intros X; injection X as <- _; reflexivity.
  - destruct dry; unfold ret; intros X; injection X as <- _; reflexivity.
Qed.

(** The bound on the turns of the loop is never the reason it stops: any
    two bounds of at least [effectiveLimit - processed] give one result. *)
Lemma vectorLoop_fuel_enough (transform : VectorTransformer Env)
    (cfg : VectorConfig) (batchSize : nat) (o : VectorOptions)
    (total : nat) (fuel1 fuel2 : nat) (offset : nat)
    (result : MigrationResult) (w : World Env) :
  effectiveLimit o - processed result <= fuel1 ->
  effectiveLimit o - processed result <= fuel2 ->
  vectorLoop out host fuel1 transform cfg batchSize o total offset result w
  = vectorLoop out host fuel2 transform cfg batchSize o total offset
      result w.
Proof.
  revert fuel2 offset result w.
  induction fuel1 as [|fuel1 IH]; intros fuel2 offset result w H1 H2.
  - destruct fuel2 as [|fuel2]; [reflexivity|]. simpl.
    assert (Hlim : (processed result <? effectiveLimit o) = false)
      by (apply Nat.ltb_ge; lia).
    now rewrite Hlim, andb_false_r.
  - destruct fuel2 as [|fuel2]; simpl.
    + assert (Hlim : (processed result <? effectiveLimit o) = false)
        by (apply Nat.ltb_ge; lia).
      now rewrite Hlim, andb_false_r.
    + destruct ((offset <? total)
                && (processed result <? effectiveLimit o)) eqn:Hcond;
        [|reflexivity].
      apply bind_ext; intros batch w1 _.
      destruct (length batch =? 0) eqn:Hb; [reflexivity|].
      apply Nat.eqb_neq in Hb.
      apply bind_ext; intros acc w2 Ecol.
      apply collectPosts_processed in Ecol. simpl in Ecol.
      apply bind_ext; intros r' w3 Ew.
      apply writeBatch_processed in Ew.
      apply IH; lia.
Qed.

End VectorLoopFacts.

Section MigrateLoopFacts.
Variable Env : Type.
Variable out : Outside Env.
Variable host : Host.

(** Once the relational loop has stopped within a bound, a larger bound
    gives the same state. *)
Lemma migrateLoop_fuel_mono (fuel : nat) (batchSize : nat)
    (opts : MigrateOptions) (ch : jsstring) (st st' : LoopState)
    (w w' : World Env) :
  migrateLoop out host fuel batchSize opts ch st w = (Returned (Some st'), w')
  ->
  migrateLoop out host (S fuel) batchSize opts ch st w
  = (Returned (Some st'), w').
Proof.
  revert st w. induction fuel as [|fuel IH]; intros st w.
  - simpl. unfold ret. discriminate.
  - intros H. revert H. cbn [migrateLoop]. unfold bind.
    destruct (loopBody out host batchSize opts ch st w) as [[[go st1]|e] w1];
      [|discriminate].
    cbn [fst snd]. destruct go; [|auto].
    intros H. apply IH in H. exact H.
Qed.

End MigrateLoopFacts.

(** The relational loop over the sample source, in batches of two, stops in
    its third turn, on the empty batch. *)
Example migrateAllPosts_sample_run :
  exists job w',
    migrateAllPosts Demo.outside Demo.host 3 2 Demo.real_options Demo.world
    = (Returned (Some job), w')
    /\ job_status job = completed
    /\ processed_records job = 3 /\ failed_records job = 1
    /\ length (articles w') = 2.
Proof. eexists _, _. vm_compute. repeat split. Qed.

(* ================================================================== *)
(** * Further properties of the cleaner and the validators *)
(* ================================================================== *)

Lemma dropWhile_length (p : jschar -> bool) (s : jsstring) :
  length (dropWhile p s) <= length s.
Proof.
  induction s as [|c r IH]; simpl; [lia|]. destruct (p c); simpl; lia.
Qed.

Lemma trimEnd_length (s : jsstring) : length (trimEnd s) <= length s.
Proof.
  unfold trimEnd. rewrite length_rev.
  pose proof (dropWhile_length is_ws (rev s)) as H.
  now rewrite length_rev in H.
Qed.

Lemma trim_length (s : jsstring) : length (trim s) <= length s.
Proof.
  unfold trim, trimStart.
  pose proof (trimEnd_length (dropWhile is_ws s)).
  pose proof (dropWhile_length is_ws s). lia.
Qed.

Lemma trimEnd_last_ws (s : jsstring) (c : jschar) :
  is_ws c = true -> length (trimEnd (s ++ [c])) <= length s.
Proof.
  intros Hc. unfold trimEnd. rewrite rev_app_distr. simpl. rewrite Hc.
  rewrite length_rev.
  pose proof (dropWhile_length is_ws (rev s)) as H.
  now rewrite length_rev in H.
Qed.

Lemma dropWhile_snoc (p : jschar -> bool) (a : jsstring) (c : jschar) :
  dropWhile p (a ++ [c]) = []
  \/ exists a', dropWhile p (a ++ [c]) = a' ++ [c] /\ length a' <= length a.
Proof.
  induction a as [|x r IH]; simpl.
  - destruct (p c); [now left | right; exists []; auto].
  - destruct (p x).
    + destruct IH as [E | (a' & E & Hl)]; [now left|].
      right. exists a'. split; [exact E | lia].
    + right. exists (x :: r). auto.
Qed.

(** A text that trimming leaves alone neither starts nor ends with white
    space. *)
Lemma trim_fixed_ends (c : jsstring) :
  trim c = c ->
  (forall ch b, c = ch :: b -> is_ws ch = false)
  /\ (forall a ch, c = a ++ [ch] -> is_ws ch = false).
Proof.
  intros Hfix. split.
  - intros ch b ->. destruct (is_ws ch) eqn:E; [|reflexivity].
    exfalso. assert (H : length (trim (ch :: b)) <= length b).
    { unfold trim, trimStart. simpl. rewrite E.
      pose proof (trimEnd_length (dropWhile is_ws b)).
      pose proof (dropWhile_length is_ws b). lia. }
    rewrite Hfix in H. simpl in H. lia.
  - intros a ch ->. destruct (is_ws ch) eqn:E; [|reflexivity].
    exfalso. assert (H : length (trim (a ++ [ch])) <= length a).
    { unfold trim, trimStart.
      destruct (dropWhile_snoc is_ws a ch) as [-> | (a' & -> & Hl)].
      - simpl. lia.
      - pose proof (trimEnd_last_ws a' ch E). lia. }
    rewrite Hfix, length_app in H. simpl in H. lia.
Qed.

Lemma tagfree_split (a b : jsstring) :
  tagfree (a ++ lt_sign :: b) -> ~ In gt_sign b.
Proof. intros H. apply tagfree_app_r in H. simpl in H. now apply H. Qed.

Lemma ws_norm_split (a b : jsstring) (ch : jschar) :
  ws_norm (a ++ ch :: b) -> is_ws ch = true ->
  ch = space /\ match b with [] => True | d :: _ => is_ws d = false end.
Proof. intros H. apply ws_norm_app_r in H. simpl in H. now apply H. Qed.

(** X1 — a cleaned text contains no markup and only single spaces: no
    ['<'] has a ['>'] anywhere behind it, and every white-space unit is a
    U+0020 that stands between two units that are not white space (so the
    text neither starts nor ends with white space and has no run of
    spaces). *)
Theorem cleanHtmlContent_output_shape (x : jsstring) :
  (forall a b, cleanHtmlContent x = a ++ lt_sign :: b -> ~ In gt_sign b)
  /\ (forall a ch b,
        cleanHtmlContent x = a ++ ch :: b -> is_ws ch = true ->
        ch = space
        /\ (exists a' p, a = a' ++ [p] /\ is_ws p = false)
        /\ (exists n b', b = n :: b' /\ is_ws n = false)).
Proof.
  destruct (clean_shape x) as (Ht & Hw & Htrim).
  split.
  - intros a b E. rewrite E in Ht. now apply tagfree_split in Ht.
  - intros a ch b E Hch.
    destruct (trim_fixed_ends _ Htrim) as [Hfirst Hlast].
    rewrite E in Hw, Hfirst, Hlast.
    destruct (ws_norm_split a b ch Hw Hch) as [-> Hnext].
    split; [reflexivity | split].
    + destruct (exists_last (l := a)) as (a' & p & ->).
      { intros ->. specialize (Hfirst space b eq_refl). congruence. }
      exists a', p. split; [reflexivity|].
      destruct (is_ws p) eqn:Ep; [|reflexivity].
      exfalso. rewrite <- app_assoc in Hw. simpl in Hw.
      destruct (ws_norm_split a' (space :: b) p Hw Ep) as [_ Hn].
      simpl in Hn. now rewrite Hn in Hch.
    + destruct b as [|n b'].
      * specialize (Hlast a space eq_refl). congruence.
      * exists n, b'. auto.
Qed.

(** X2 — the texts that cleaning leaves unchanged are exactly the texts
    without markup, with normal white space, that trimming leaves alone. *)
Theorem cleanHtmlContent_fixed_points (x : jsstring) :
  cleanHtmlContent x = x <-> tagfree x /\ ws_norm x /\ trim x = x.
Proof.
  split.
  - intros E. pose proof (clean_shape x) as H. now rewrite E in H.
  - intros (Ht & Hw & Htrim). now apply clean_fixed.
Qed.

Lemma replace_from_length (m : jsstring -> option nat) (repl : jsstring)
    (k : nat) (s : jsstring) :
  length repl <= 1 -> length (replace_from m repl k s) <= length s.
Proof.
  intros Hr. revert k. induction s as [|c r IH]; intros k; simpl; [lia|].
  destruct k as [|k].
  - destruct (m (c :: r)) as [[|n]|]; simpl.
    + specialize (IH 0). lia.
    + rewrite length_app. specialize (IH n). lia.
    + specialize (IH 0). lia.
  - specialize (IH k). lia.
Qed.

(** X3 — cleaning never lengthens a text. *)
Theorem cleanHtmlContent_length (x : jsstring) :
  length (cleanHtmlContent x) <= length x.
Proof.
  unfold cleanHtmlContent. destruct (falsy x); [simpl; lia|].
  unfold replaceAll.
  pose proof (trim_length
    (replace_from match_spaces [space] 0
       (replace_from match_tag [space] 0
          (replace_from match_style [] 0
             (replace_from match_script [] 0 x))))) as H1.
  pose proof (replace_from_length match_spaces [space] 0
    (replace_from match_tag [space] 0
       (replace_from match_style [] 0
          (replace_from match_script [] 0 x)))) as H2.
  pose proof (replace_from_length match_tag [space] 0
    (replace_from match_style [] 0 (replace_from match_script [] 0 x)))
    as H3.
  pose proof (replace_from_length match_style [] 0
    (replace_from match_script [] 0 x)) as H4.
  pose proof (replace_from_length match_script [] 0 x) as H5.
  simpl in *. lia.
Qed.

Lemma all_ws_tagfree (s : jsstring) : forallb is_ws s = true -> tagfree s.
Proof.
  induction s as [|c r IH]; simpl; [auto|].
  intros H. apply andb_prop in H as [Hc Hr]. split; [|auto].
  intros ->. discriminate.
Qed.

Lemma all_ws_takeWhile (s : jsstring) :
  forallb is_ws s = true -> takeWhile is_ws s = s.
Proof.
  induction s as [|c r IH]; simpl; [auto|].
  intros H. apply andb_prop in H as [Hc Hr]. rewrite Hc. f_equal. auto.
Qed.

Lemma all_ws_dropWhile (s : jsstring) :
  forallb is_ws s = true -> dropWhile is_ws s = [].
Proof.
  induction s as [|c r IH]; simpl; [auto|].
  intros H. apply andb_prop in H as [Hc Hr]. rewrite Hc. auto.
Qed.

Lemma replace_from_skip_all (m : jsstring -> option nat) (repl : jsstring)
    (s : jsstring) :
  replace_from m repl (length s) s = [].
Proof. induction s as [|c r IH]; simpl; auto. Qed.

Lemma clean_all_ws (x : jsstring) :
  forallb is_ws x = true -> cleanHtmlContent x = [].
Proof.
  intros Hws. unfold cleanHtmlContent.
  destruct x as [|c r]; [reflexivity|]. cbn [falsy].
  pose proof (all_ws_tagfree _ Hws) as Ht.
  unfold match_script, match_style, js. simpl map.
  rewrite (replace_id _ [] tagfree tagfree_tail
             (fun t H => match_block_tagfree _ _ t H) _ Ht).
  rewrite (replace_id _ [] tagfree tagfree_tail
             (fun t H => match_block_tagfree _ _ t H) _ Ht).
  rewrite (replace_id _ [space] tagfree tagfree_tail match_tag_tagfree _ Ht).
  unfold replaceAll. cbn [replace_from].
  simpl in Hws. apply andb_prop in Hws as [Hc Hr].
  rewrite (match_spaces_ws c r Hc).
  rewrite (all_ws_takeWhile r Hr), replace_from_skip_all. reflexivity.
Qed.

(** X4 — a text of white space only (the empty text included) is cleaned
    to the empty text. *)
Theorem cleanHtmlContent_blank (x : jsstring) :
  forallb is_ws x = true -> cleanHtmlContent x = [].
Proof. exact (clean_all_ws x). Qed.

Lemma cleanHtmlContent_blank_witness :
  cleanHtmlContent [9%N; 32%N; 10%N; 160%N; 8232%N] = [].
Proof.
  apply (cleanHtmlContent_blank [9%N; 32%N; 10%N; 160%N; 8232%N]).
  reflexivity.
Defined.

Lemma dropWhile_nil_all (p : jschar -> bool) (s : jsstring) :
  dropWhile p s = [] -> forallb p s = true.
Proof.
  induction s as [|c r IH]; simpl; [auto|].
  destruct (p c); [auto | discriminate].
Qed.

Lemma trim_nil_all_ws (s : jsstring) : trim s = [] -> forallb is_ws s = true.
Proof.
  unfold trim, trimEnd, trimStart. intros H.
  assert (Hd : dropWhile is_ws (rev (dropWhile is_ws s)) = []).
  { apply (f_equal (@rev jschar)) in H. now rewrite rev_involutive in H. }
  apply dropWhile_nil_all in Hd.
  destruct (dropWhile is_ws s) as [|c r] eqn:E.
  - now apply dropWhile_nil_all.
  - pose proof (dropWhile_head _ _ _ _ E) as Hc.
    rewrite forallb_forall in Hd.
    assert (Hin : In c (rev (c :: r))) by (apply in_rev; rewrite rev_involutive; now left).
    apply Hd in Hin. congruence.
Qed.

Lemma blank_cleans_to_nil (b : jsstring) :
  (length (trim b) =? 0) = true -> cleanHtmlContent b = [].
Proof.
  intros H. apply Nat.eqb_eq in H.
  apply clean_all_ws, trim_nil_all_ws. now destruct (trim b).
Qed.

Lemma In_push_when (m x : jsstring) (c : bool) (l : list jsstring) :
  In m (push_when c x l) <-> In m l \/ (c = true /\ m = x).
Proof.
  unfold push_when. destruct c.
  - rewrite in_app_iff. simpl. intuition congruence.
  - intuition congruence.
Qed.

(** X5 — a record that the strict validator accepts is accepted by the
    relaxed validator as well. *)
Theorem strict_valid_is_relaxed_valid (post : MongoPost) :
  isValid (Strict.validatePostContent post) = true ->
  isValid (Relaxed.validatePostContent post) = true.
Proof.
  intros H. apply strict_valid_iff in H
    as ((t & Et & Htrim & Hlen) & (b & Eb & Hb & Hmin) & Hst).
  apply relaxed_valid_iff.
  assert (Hres : resolve_content post = b).
  { unfold resolve_content. rewrite Eb. simpl.
    destruct b; [now elim Hb | reflexivity]. }
  rewrite Hres. repeat split.
  - exists t. repeat split; auto. lia.
  - exact Hb.
  - lia.
  - auto.
Qed.

Lemma strict_valid_is_relaxed_valid_witness :
  isValid (Relaxed.validatePostContent Demo.first_post) = true.
Proof.
  apply (strict_valid_is_relaxed_valid Demo.first_post). reflexivity.
Defined.

(** X6 — the rule on a present body never decides by itself: whenever a
    validator reports the body missing or blank, it also reports it too
    short (the cleaned body is then empty). *)
Theorem missing_body_is_also_too_short (post : MongoPost) :
  (In (js "Missing or empty content")
      (issues (Strict.validatePostContent post)) ->
   In (js "Content too short (minimum 50 characters)")
      (issues (Strict.validatePostContent post)))
  /\ (In (js "Missing or empty content in all possible fields")
         (issues (Relaxed.validatePostContent post)) ->
      In (js "Content too short (0 chars, minimum 5 characters)")
         (issues (Relaxed.validatePostContent post))).
Proof.
  split.
  - unfold Strict.validatePostContent. cbn [issues].
    rewrite !In_push_when. cbn [In].
    intros [[[[[[]|[_ H]]|[Hc _]]|[_ H]]|[_ H]]|[_ H]];
      try (apply (f_equal (fun l => nth 17 l 0%N)) in H;
           vm_compute in H; discriminate);
      try (apply (f_equal (@hd_error jschar)) in H;
           vm_compute in H; discriminate).
    left. left. right. split; [|reflexivity].
    apply Nat.ltb_lt.
    assert (E : cleanHtmlContent (or_empty (content_text post)) = []).
    { apply orb_prop in Hc as [Hc|Hc].
      - destruct (content_text post) as [[|c r]|]; try discriminate;
          reflexivity.
      - now apply blank_cleans_to_nil. }
    rewrite E. simpl. lia.
  - unfold Relaxed.validatePostContent. cbn [issues].
    rewrite !In_push_when. cbn [In].
    assert (Hempty : (falsy (resolve_content post)
                      || (length (trim (resolve_content post)) =? 0)) = true
                     -> cleanHtmlContent (resolve_content post) = []).
    { intros Hc. apply orb_prop in Hc as [Hc|Hc].
      - destruct (resolve_content post); [reflexivity | discriminate].
      - now apply blank_cleans_to_nil. }
    intros [[[[[[]|[_ H]]|[Hc _]]|[_ H]]|[_ H]]|[_ H]];
      try (apply (f_equal (fun l => nth 17 l 0%N)) in H;
           vm_compute in H; discriminate);
      try (apply (f_equal (@hd_error jschar)) in H;
           vm_compute in H; discriminate).
    left. left. right. rewrite (Hempty Hc). split; reflexivity.
Qed.

Lemma missing_body_is_also_too_short_witness :
  In (js "Content too short (minimum 50 characters)")
     (issues (Strict.validatePostContent summary_only_post)).
Proof.
  destruct (missing_body_is_also_too_short summary_only_post) as [H _].
  apply H. vm_compute. auto.
Defined.

(* ================================================================== *)
(** * Further properties of the relational orchestrator *)
(* ================================================================== *)

Lemma jsstring_eqb_eq (a b : jsstring) : jsstring_eqb a b = true <-> a = b.
Proof.
  revert b. induction a as [|x a IH]; intros [|y b]; simpl;
    try (split; [discriminate | congruence]); [tauto|].
  unfold jschar_eqb. rewrite andb_true_iff, N.eqb_eq, IH.
  split; [intros [-> ->]; reflexivity | intros E; injection E; auto].
Qed.

Section BatchStoreFacts.
Variable Env : Type.
Variable out : Outside Env.
Variable host : Host.

Lemma rest_kept_refl (w : World Env) : rest_kept w w.
Proof. repeat split. Qed.

Lemma rest_kept_trans (w1 w2 w3 : World Env) :
  rest_kept w1 w2 -> rest_kept w2 w3 -> rest_kept w1 w3.
Proof. unfold rest_kept. intuition congruence. Qed.

Lemma rest_kept_set_env (e : Env) (w : World Env) : rest_kept w (set_env e w).
Proof. repeat split. Qed.

(** A record that fails validation is skipped without a call on the
    outside. *)
Lemma processPost_invalid (ch : jsstring) (p : MongoPost) (r : BatchResults)
    (w : World Env) :
  isValid (Strict.validatePostContent p) = false ->
  processPost out host (transformPost out host) ch p r w
  = (Returned (record_skip r), w).
Proof.
  intros Hv. unfold processPost, attemptPost, try_catch, bind, transformPost.
  rewrite Hv. reflexivity.
Qed.

(** A valid record is inserted, or fails because the store refuses it. *)
Lemma processPost_valid (ch : jsstring) (p : MongoPost) (r : BatchResults)
    (w : World Env) :
  isValid (Strict.validatePostContent p) = true ->
  exists w1 row e,
    rest_kept w w1
    /\ analysis_completed row = false
    /\ art_channel_id (row_data row) = ch
    /\ ((processPost out host (transformPost out host) ch p r w
         = (Returned (record_success r), w1)
         /\ articles w1 = articles w ++ [row]
         /\ fst (rel_fault out (ArticlesCreate row) e) = None)
        \/ (exists err,
              processPost out host (transformPost out host) ch p r w
              = (Returned
                   (record_failure
                      (post_label p ++ error_message (js "Unknown error") err)
                      r), w1)
              /\ articles w1 = articles w
              /\ fst (rel_fault out (ArticlesCreate row) e) = Some err)).
Proof.
  intros Hv.
  remember (processPost out host (transformPost out host) ch p r w) as run
    eqn:Erun.
  revert Erun.
  unfold processPost, attemptPost, try_catch, transformPost.
  rewrite Hv. cbn [negb].
  unfold now_iso, Date_now, newsArticlesApi_create, guarded, modify, bind,
    ask, ret.
  destruct (Date_now_at out (env w)) as [t0 e0].
  cbn [success negb data env set_env].
  destruct (Date_now_at out e0) as [t1 e1]. cbn [env set_env].
  match goal with
  | |- context [rel_fault out (ArticlesCreate ?row) ?e] =>
      set (the_row := row); set (the_env := e);
      destruct (rel_fault out (ArticlesCreate the_row) the_env)
        as [[err|] e2] eqn:Ef
  end; intros ->.
  - eexists _, the_row, the_env. split; [|split; [reflexivity|split;
      [reflexivity|]]].
    2:{ right. exists err. split; [reflexivity|]. split; [reflexivity|].
        now rewrite Ef. }
    repeat split.
  - eexists _, the_row, the_env. split; [|split; [reflexivity|split;
      [reflexivity|]]].
    2:{ left. split; [reflexivity|]. split; [reflexivity|].
        now rewrite Ef. }
    repeat split.
Qed.

Lemma processPosts_store (ch : jsstring) (posts : list MongoPost)
    (r : BatchResults) (w : World Env) :
  exists r' w' rows,
    processPosts out host (transformPost out host) ch posts r w
    = (Returned r', w')
    /\ articles w' = articles w ++ rows
    /\ successful r' = successful r + length rows
    /\ Forall (fun row => analysis_completed row = false
                          /\ art_channel_id (row_data row) = ch) rows
    /\ rest_kept w w'.
Proof.
  revert r w. induction posts as [|p rest IH]; intros r w; simpl.
  - unfold ret. exists r, w, []. rewrite app_nil_r. simpl.
    repeat split; auto.
  - unfold bind.
    destruct (isValid (Strict.validatePostContent p)) eqn:Hv.
    + destruct (processPost_valid ch p r w Hv)
        as (w1 & row & e & Hk & Hflag & Hch & Hcase).
      destruct Hcase as [(-> & Ha & _) | (err & -> & Ha & _)].
      * destruct (IH (record_success r) w1)
          as (r' & w' & rows & -> & Ha' & Hs & Hall & Hk').
        exists r', w', (row :: rows). split; [reflexivity|].
        split; [rewrite Ha', Ha, <- app_assoc; reflexivity|].
        split; [simpl in *; lia|].
        split; [constructor; auto | eapply rest_kept_trans; eauto].
      * destruct (IH (record_failure
                        (post_label p
                           ++ error_message (js "Unknown error") err) r) w1)
          as (r' & w' & rows & -> & Ha' & Hs & Hall & Hk').
        exists r', w', rows. split; [reflexivity|].
        split; [now rewrite Ha', Ha|].
        split; [simpl in *; lia|].
        split; [assumption | eapply rest_kept_trans; eauto].
    + rewrite (processPost_invalid ch p r w Hv).
      destruct (IH (record_skip r) w)
        as (r' & w' & rows & -> & Ha' & Hs & Hall & Hk').
      exists r', w', rows. repeat split; auto; apply Hk'.
Qed.

(** X8 — [processBatch] appends one row per successful record to the
    article table and touches nothing else: the rows that were there stay,
    each new row carries the given channel and [analysis_completed = false],
    and channels, vector index and cached channel are as before. *)
Theorem processBatch_store_effect (posts : list MongoPost)
    (channelId : jsstring) (w : World Env) :
  exists r w' rows,
    processBatch out host posts channelId w = (Returned r, w')
    /\ articles w' = articles w ++ rows
    /\ length rows = successful r
    /\ Forall (fun row => analysis_completed row = false
                          /\ art_channel_id (row_data row) = channelId) rows
    /\ rest_kept w w'.
Proof.
  unfold processBatch, processBatchWith.
  destruct (processPosts_store channelId posts no_results w)
    as (r & w' & rows & E & Ha & Hs & Hall & Hk).
  exists r, w', rows. simpl in Hs. repeat split; auto; apply Hk.
Qed.

Lemma processPosts_healthy (ch : jsstring) (posts : list MongoPost)
    (r : BatchResults) (w : World Env) :
  (forall row e, fst (rel_fault out (ArticlesCreate row) e) = None) ->
  exists r' w',
    processPosts out host (transformPost out host) ch posts r w
    = (Returned r', w')
    /\ successful r'
       = successful r
         + length (filter (fun p => isValid (Strict.validatePostContent p))
                     posts)
    /\ skipped_count r'
       = skipped_count r
         + length (filter
                     (fun p => negb (isValid (Strict.validatePostContent p)))
                     posts)
    /\ failed_count r' = failed_count r /\ errors r' = errors r.
Proof.
  intros Hok. revert r w. induction posts as [|p rest IH]; intros r w; simpl.
  - unfold ret. exists r, w. repeat split; auto; lia.
  - unfold bind.
    destruct (isValid (Strict.validatePostContent p)) eqn:Hv; cbn [negb].
    + destruct (processPost_valid ch p r w Hv)
        as (w1 & row & e & _ & _ & _ & Hcase).
      destruct Hcase as [(-> & _ & _) | (err & _ & _ & Hbad)].
      * destruct (IH (record_success r) w1)
          as (r' & w' & -> & Hs & Hk & Hf & He).
        exists r', w'. simpl in *. rewrite ?Hv. simpl.
        repeat split; auto; lia.
      * rewrite Hok in Hbad. discriminate.
    + rewrite (processPost_invalid ch p r w Hv).
      destruct (IH (record_skip r) w) as (r' & w' & -> & Hs & Hk & Hf & He).
      exists r', w'. simpl in *. rewrite ?Hv. simpl.
        repeat split; auto; lia.
Qed.

(** X7 — when the store refuses no insert, [processBatch] inserts every
    record the strict validator accepts and skips every other record:
    nothing fails and no error message is produced. *)
Theorem processBatch_healthy_store (posts : list MongoPost)
    (channelId : jsstring) (w : World Env) :
  (forall row e, fst (rel_fault out (ArticlesCreate row) e) = None) ->
  exists r w',
    processBatch out host posts channelId w = (Returned r, w')
    /\ successful r
       = length (filter (fun p => isValid (Strict.validatePostContent p))
                   posts)
    /\ skipped_count r
       = length (filter
                   (fun p => negb (isValid (Strict.validatePostContent p)))
                   posts)
    /\ failed_count r = 0 /\ errors r = [].
Proof.
  intros Hok. unfold processBatch, processBatchWith.
  destruct (processPosts_healthy channelId posts no_results w Hok)
    as (r & w' & E & Hs & Hk & Hf & He).
  exists r, w'. simpl in *. repeat split; auto.
Qed.

End BatchStoreFacts.

Lemma processBatch_healthy_store_witness :
  exists r w',
    processBatch healthy_outside Demo.host Demo.source (js "channel-4")
      Demo.world = (Returned r, w')
    /\ successful r = 3 /\ skipped_count r = 1 /\ failed_count r = 0.
Proof.
  destruct (processBatch_healthy_store nat healthy_outside Demo.host
              Demo.source (js "channel-4") Demo.world)
    as (r & w' & E & Hs & Hk & Hf & _); [reflexivity|].
  exists r, w'. split; [exact E|]. split; [exact Hs|]. split; [exact Hk|].
  exact Hf.
Defined.

Section LoopFacts.
Variable Env : Type.
Variable out : Outside Env.
Variable host : Host.

Lemma afterFetch_effect (batch : list MongoPost) (ch : jsstring)
    (st : LoopState) (w : World Env) :
  job_tracks st ->
  exists st' w' rows,
    afterFetch out host batch ch st w = (Returned st', w')
    /\ job_tracks st'
    /\ job_status (migrationJob st') = job_status (migrationJob st)
    /\ error_message_of (migrationJob st')
       = error_message_of (migrationJob st)
    /\ completed_at (migrationJob st') = completed_at (migrationJob st)
    /\ started_at (migrationJob st') = started_at (migrationJob st)
    /\ total_records (migrationJob st') = total_records (migrationJob st)
    /\ totalProcessed st' + totalFailed st'
       = totalProcessed st + totalFailed st + length batch
    /\ articles w' = articles w ++ rows
    /\ totalProcessed st + length rows <= totalProcessed st'
    /\ rest_kept w w'.
Proof.
  intros (Hp & Hf & He & Hc).
  unfold afterFetch, bind, processBatch, processBatchWith.
  destruct (processPosts_store Env out host ch batch no_results w)
    as (r & w' & rows & E & Ha & Hs & _ & Hk).
  destruct (processPosts_counts Env out host (transformPost out host) ch
              batch no_results w) as (r0 & w0 & E0 & Hsum & Herr).
  rewrite E in E0. injection E0 as <- <-. rewrite E.
  unfold ret. eexists _, w', rows. split; [reflexivity|].
  simpl in *. unfold job_tracks. simpl.
  rewrite length_app. repeat split; auto; try lia; apply Hk.
Qed.

(** A turn of the loop never throws. *)
Lemma loopBody_effect (batchSize : nat) (opts : MigrateOptions)
    (ch : jsstring) (st : LoopState) (w : World Env) :
  job_tracks st -> job_live (migrationJob st) ->
  exists go st' w' rows,
    loopBody out host batchSize opts ch st w = (Returned (go, st'), w')
    /\ job_tracks st'
    /\ (if go then job_live (migrationJob st')
        else job_live (migrationJob st')
             \/ (job_status (migrationJob st') = failed
                 /\ exists msg, error_message_of (migrationJob st') = Some msg))
    /\ completed_at (migrationJob st') = completed_at (migrationJob st)
    /\ started_at (migrationJob st') = started_at (migrationJob st)
    /\ total_records (migrationJob st') = total_records (migrationJob st)
    /\ articles w' = articles w ++ rows
    /\ totalProcessed st + length rows <= totalProcessed st'
    /\ rest_kept w w'.
Proof.
  intros Ht Hl.
  unfold loopBody, try_catch, bind at 1, mongo_fetchPosts, call.
  destruct (mongo_fetchPosts_at out _ (env w)) as [[batch|e] e1].
  - destruct (length batch =? 0).
    + unfold ret. exists false, st, (set_env e1 w), [].
      rewrite app_nil_r. simpl. repeat split; auto; try apply Ht; lia.
    + unfold bind.
      destruct (afterFetch_effect batch ch st (set_env e1 w) Ht)
        as (st' & w' & rows & -> & Ht' & Hs & Hm & Hc & Hsa & Htot & _ & Ha
            & Hlen & Hk).
      unfold ret. exists true, st', w', rows. split; [reflexivity|].
      split; [exact Ht'|]. split.
      { destruct Hl as [Hl1 Hl2]. split; congruence. }
      repeat split; auto; apply Hk.
  - unfold ret. eexists false, _, (set_env e1 w), [].
    split; [reflexivity|]. rewrite app_nil_r. simpl.
    split; [exact Ht|]. split; [right; eauto|].
    repeat split; auto; lia.
Qed.

Lemma migrateLoop_effect (fuel batchSize : nat) (opts : MigrateOptions)
    (ch : jsstring) (st : LoopState) (w : World Env) :
  job_tracks st -> job_live (migrationJob st) ->
  exists r w' rows,
    migrateLoop out host fuel batchSize opts ch st w = (Returned r, w')
    /\ articles w' = articles w ++ rows
    /\ rest_kept w w'
    /\ (forall st', r = Some st' ->
          job_tracks st'
          /\ (job_live (migrationJob st')
              \/ (job_status (migrationJob st') = failed
                  /\ exists msg,
                       error_message_of (migrationJob st') = Some msg))
          /\ completed_at (migrationJob st') = completed_at (migrationJob st)
          /\ started_at (migrationJob st') = started_at (migrationJob st)
          /\ total_records (migrationJob st') = total_records (migrationJob st)
          /\ totalProcessed st + length rows <= totalProcessed st').
Proof.
  revert st w. induction fuel as [|fuel IH]; intros st w Ht Hl; simpl.
  - unfold ret. exists None, w, []. rewrite app_nil_r.
    repeat split; discriminate.
  - unfold bind.
    destruct (loopBody_effect batchSize opts ch st w Ht Hl)
      as (go & st1 & w1 & rows1 & -> & Ht1 & Hgo & Hc1 & Hs1 & Htot1 & Ha1
          & Hlen1 & Hk1).
    cbn [fst snd]. destruct go.
    + destruct (IH st1 w1 Ht1 Hgo)
        as (r & w' & rows & -> & Ha & Hk & Hfin).
      exists r, w', (rows1 ++ rows). split; [reflexivity|].
      split; [now rewrite Ha, Ha1, app_assoc|].
      split; [eapply rest_kept_trans; eauto|].
      intros st' Hr. destruct (Hfin st' Hr)
        as (Ht' & Hend & Hc' & Hs' & Htot' & Hlen').
      rewrite length_app. repeat split; try apply Ht'; auto;
        try congruence; lia.
    + unfold ret. exists (Some st1), w1, rows1. split; [reflexivity|].
      split; [exact Ha1|]. split; [exact Hk1|].
      intros st' Hr. injection Hr as <-. repeat split; auto; apply Ht1.
Qed.

(** What a run that returns a job has done. *)
Lemma migrateAllPosts_outcome (fuel batchSize : nat) (opts : MigrateOptions)
    (w w' : World Env) (job : MigrationJob) :
  migrateAllPosts out host fuel batchSize opts w = (Returned (Some job), w') ->
  job_ended job
  /\ (exists t, started_at job = Some (DateAt t))
  /\ (dryRun opts <> Some true -> exists t, completed_at job = Some (DateAt t))
  /\ (dryRun opts = Some true -> completed_at job = None)
  /\ (exists rows,
        articles w' = articles w ++ rows
        /\ length rows <= processed_records job)
  /\ points w' = points w.
Proof.
  unfold migrateAllPosts.
  unfold bind at 1. unfold mongo_connect, call.
  destruct (mongo_connect_at out (env w)) as [[u|e] e1]; [|discriminate].
  unfold try_finally.
  match goal with
  | |- context [ensureDefaultChannel out host ?n] => set (nm := n)
  end.
  unfold bind at 1.
  pose proof (keeps_ensureDefaultChannel Env out host nm (set_env e1 w))
    as [Hea Hep].
  destruct (ensureDefaultChannel out host nm (set_env e1 w)) as [[ch|e] w2].
  2:{ destruct (mongo_disconnect out w2) as [[u'|e'] w5]; discriminate. }
  cbn [snd] in Hea, Hep. simpl in Hea, Hep.
  unfold bind at 1. unfold mongo_getPostCount, call.
  destruct (mongo_getPostCount_at out (fromDate opts) (toDate opts) (env w2))
    as [[n|e] e2].
  2:{ destruct (mongo_disconnect out _) as [[u'|e'] w5]; discriminate. }
  unfold bind at 1. unfold Date_now at 1. unfold ask.
  destruct (Date_now_at out (env (set_env e2 w2))) as [t0 e3].
  unfold bind at 1. unfold Date_now at 1. unfold ask.
  destruct (Date_now_at out (env (set_env e3 (set_env e2 w2)))) as [t1 e4].
  set (job0 := {| job_id := js "migration_" ++ Z_to_js t0;
                  source_db := js "mongodb"; target_channel_id := ch;
                  job_status := running; total_records := n;
                  processed_records := 0; failed_records := 0;
                  started_at := Some (DateAt t1); completed_at := None;
                  error_message_of := None; last_processed_id := None |}).
  set (w4 := set_env e4 (set_env e3 (set_env e2 w2))).
  assert (Hw4a : articles w4 = articles w) by exact Hea.
  assert (Hw4p : points w4 = points w) by exact Hep.
  destruct (match dryRun opts with Some b => b | None => false end) eqn:Hdry.
  - unfold ret, mongo_disconnect, call.
    destruct (mongo_disconnect_at out (env w4)) as [[u'|e'] e5];
      [|discriminate].
    intros E. injection E as <- <-.
    split; [left; split; reflexivity|].
    split; [exists t1; reflexivity|].
    split.
    { intros Hn. destruct (dryRun opts) as [[|]|]; try discriminate.
      now elim Hn. }
    split; [reflexivity|].
    split; [exists []; rewrite app_nil_r; simpl; split; [exact Hw4a | lia]|].
    exact Hw4p.
  - unfold bind at 1.
    set (st0 := {| migrationJob := job0; lastId := None; totalProcessed := 0;
                   totalFailed := 0; allErrors := [] |}).
    destruct (migrateLoop_effect fuel batchSize opts ch st0 w4)
      as (r & wL & rows & -> & Ha & Hk & Hfin);
      [repeat split | split; reflexivity |].
    destruct r as [st'|].
    2:{ unfold ret. destruct (mongo_disconnect out wL) as [[u'|e'] w5];
          discriminate. }
    destruct (Hfin st' eq_refl) as (Ht' & Hend & Hc' & Hs' & Htot' & Hlen').
    unfold bind, Date_now, ask, ret.
    destruct (Date_now_at out (env wL)) as [t2 e5].
    unfold mongo_disconnect, call.
    destruct (mongo_disconnect_at out _) as [[u'|e'] e6]; [|discriminate].
    intros E. injection E as <- <-.
    assert (Hproc : length rows <= processed_records (migrationJob st')).
    { destruct Ht' as (Hp & _). rewrite Hp. simpl in Hlen'. lia. }
    split.
    { destruct Hend as [[Hr Hm] | [Hf (msg & Hm)]].
      - left. cbn. rewrite Hr. cbn. split; [reflexivity | exact Hm].
      - right. cbn. rewrite Hf. cbn. split; [exact Hf | eauto]. }
    split.
    { exists t1. destruct (job_status (migrationJob st')); cbn;
        now rewrite Hs'. }
    split.
    { intros _. exists t2.
      destruct (job_status (migrationJob st')); reflexivity. }
    split.
    { intros Hd. rewrite Hd in Hdry. discriminate. }
    split.
    { exists rows. split.
      - simpl. now rewrite Ha, Hw4a.
      - destruct (job_status (migrationJob st')); exact Hproc. }
    simpl. destruct Hk as (_ & _ & _ & Hp & _). now rewrite Hp, Hw4p.
Qed.

(** X9 — a job returned by [migrateAllPosts] has ended: it is completed
    without an error message, or failed with one; it is never handed back
    pending or running.  It has a start time; it has a completion time
    unless the run was a dry run, whose completed job has none. *)
Theorem migrateAllPosts_returns_ended_job (fuel batchSize : nat)
    (opts : MigrateOptions) (w w' : World Env) (job : MigrationJob) :
  migrateAllPosts out host fuel batchSize opts w = (Returned (Some job), w') ->
  job_ended job
  /\ (exists t, started_at job = Some (DateAt t))
  /\ (dryRun opts <> Some true -> exists t, completed_at job = Some (DateAt t))
  /\ (dryRun opts = Some true -> completed_at job = None).
Proof.
  intros E. destruct (migrateAllPosts_outcome fuel batchSize opts w w' job E)
    as (H1 & H2 & H3 & H4 & _). auto.
Qed.

(** X10 — a run of [migrateAllPosts] only appends to the article table,
    never more rows than the job reports as processed, and leaves the
    vector index alone. *)
Theorem migrateAllPosts_rows_within_processed (fuel batchSize : nat)
    (opts : MigrateOptions) (w w' : World Env) (job : MigrationJob) :
  migrateAllPosts out host fuel batchSize opts w = (Returned (Some job), w') ->
  (exists rows,
     articles w' = articles w ++ rows
     /\ length rows <= processed_records job)
  /\ points w' = points w.
Proof.
  intros E. destruct (migrateAllPosts_outcome fuel batchSize opts w w' job E)
    as (_ & _ & _ & _ & H5 & H6). auto.
Qed.

End LoopFacts.

Lemma migrateAllPosts_returns_ended_job_witness :
  exists job w',
    migrateAllPosts Demo.outside Demo.host 3 2 Demo.real_options Demo.world
    = (Returned (Some job), w')
    /\ job_ended job.
Proof.
  eexists _, _. split; [vm_compute; reflexivity|].
  eapply (migrateAllPosts_returns_ended_job nat Demo.outside Demo.host 3 2
            Demo.real_options Demo.world).
  vm_compute. reflexivity.
Defined.

Lemma migrateAllPosts_rows_within_processed_witness :
  exists job w' rows,
    migrateAllPosts Demo.outside Demo.host 3 2 Demo.real_options Demo.world
    = (Returned (Some job), w')
    /\ articles w' = articles Demo.world ++ rows
    /\ length rows <= processed_records job.
Proof.
  assert (E : exists job w',
             migrateAllPosts Demo.outside Demo.host 3 2 Demo.real_options
               Demo.world = (Returned (Some job), w'))
    by (eexists _, _; vm_compute; reflexivity).
  destruct E as (job & w' & E).
  destruct (migrateAllPosts_rows_within_processed nat Demo.outside Demo.host
              3 2 Demo.real_options Demo.world w' job E)
    as ((rows & Ha & Hl) & _).
  exists job, w', rows. auto.
Defined.

(* ================================================================== *)
(** * Channel and collection set-up *)
(* ================================================================== *)

Section SetupFacts.
Variable Env : Type.
Variable out : Outside Env.
Variable host : Host.

Lemma ensureDefaultChannel_cached (name i : jsstring) (w : World Env) :
  defaultChannelId w = Some i -> i <> [] ->
  ensureDefaultChannel out host name w = (Returned i, w).
Proof.
  intros Hc Hi. unfold ensureDefaultChannel, bind, read. rewrite Hc.
  destruct i; [now elim Hi | reflexivity].
Qed.

Lemma ensureDefaultChannel_result (name i : jsstring) (w w' : World Env) :
  ensureDefaultChannel out host name w = (Returned i, w') ->
  defaultChannelId w' = Some i
  /\ articles w' = articles w /\ points w' = points w
  /\ (falsy_opt (defaultChannelId w) = true ->
      (channels w' = channels w
       /\ exists c, In c (channels w) /\ channel_name c = name
                    /\ channel_id c = i)
      \/ (channels w' = channels w
                        ++ [{| channel_id := i; channel_name := name |}]
          /\ forall c, In c (channels w) -> channel_name c <> name)).
Proof.
  unfold ensureDefaultChannel, bind at 1, read.
  destruct (defaultChannelId w) as [[|c0 i0]|] eqn:Hc; cbn [falsy_opt falsy negb or_empty].
  3:{ (* no cached id *)
      unfold try_catch, bind at 1, newsChannelsApi_getAll, guarded, read.
      destruct (rel_fault out ChannelsGetAll (env w)) as [[e|] e1];
        [unfold throw; discriminate|].
      cbn [channels set_env].
      destruct (find (fun c => jsstring_eqb (channel_name c) name)
                  (channels w)) as [c|] eqn:Hfind.
      - unfold bind, set_defaultChannelId, modify, ret.
        intros E. injection E as <- <-. cbn.
        repeat split. intros _. left. split; [reflexivity|].
        apply find_some in Hfind as [Hin Hn].
        apply jsstring_eqb_eq in Hn. eauto.
      - unfold bind at 1, now_iso, bind at 1, Date_now, ask, ret.
        cbn [env set_env].
        destruct (Date_now_at out e1) as [t e2].
        unfold bind at 1, newsChannelsApi_create, guarded. cbn [env set_env].
        destruct (rel_fault out (ChannelsCreate name) e2) as [[e|] e3];
          [unfold throw; discriminate|].
        unfold bind, ask, modify, set_defaultChannelId, ret.
        cbn [env set_env].
        destruct (fresh_channel_id out e3) as [i' e4].
        intros E. injection E as <- <-. cbn.
        repeat split. intros _. right. split; [reflexivity|].
        intros c Hin Hn.
        apply (find_none _ _ Hfind) in Hin.
        apply jsstring_eqb_eq in Hn. congruence. }
  2:{ unfold ret. intros E. injection E as <- <-.
      repeat split; auto. discriminate. }
  (* a cached empty id counts as none *)
  unfold try_catch, bind at 1, newsChannelsApi_getAll, guarded, read.
  destruct (rel_fault out ChannelsGetAll (env w)) as [[e|] e1];
    [unfold throw; discriminate|].
  cbn [channels set_env].
  destruct (find (fun c => jsstring_eqb (channel_name c) name)
              (channels w)) as [c|] eqn:Hfind.
  - unfold bind, set_defaultChannelId, modify, ret.
    intros E. injection E as <- <-. cbn.
    repeat split. intros _. left. split; [reflexivity|].
    apply find_some in Hfind as [Hin Hn].
    apply jsstring_eqb_eq in Hn. eauto.
  - unfold bind at 1, now_iso, bind at 1, Date_now, ask, ret.
    cbn [env set_env].
    destruct (Date_now_at out e1) as [t e2].
    unfold bind at 1, newsChannelsApi_create, guarded. cbn [env set_env].
    destruct (rel_fault out (ChannelsCreate name) e2) as [[e|] e3];
      [unfold throw; discriminate|].
    unfold bind, ask, modify, set_defaultChannelId, ret.
    cbn [env set_env].
    destruct (fresh_channel_id out e3) as [i' e4].
    intros E. injection E as <- <-. cbn.
    repeat split. intros _. right. split; [reflexivity|].
    intros c Hin Hn.
    apply (find_none _ _ Hfind) in Hin.
    apply jsstring_eqb_eq in Hn. congruence.
Qed.

(** X11 — the channel cache is not keyed by name: once a call of
    [ensureDefaultChannel] has returned a non-empty identifier, every later
    call returns that identifier, whatever channel name it asks for, and
    does so without a call on the store or a change of the world. *)
Theorem ensureDefaultChannel_cache_ignores_name (name name' i : jsstring)
    (w w' : World Env) :
  ensureDefaultChannel out host name w = (Returned i, w') ->
  i <> [] ->
  ensureDefaultChannel out host name' w' = (Returned i, w').
Proof.
  intros E Hi. apply ensureDefaultChannel_result in E as (Hc & _).
  now apply ensureDefaultChannel_cached.
Qed.

(** X12 — with no channel cached, a call of [ensureDefaultChannel] that
    returns looks the name up first: it returns the identifier of a channel
    of that name that the store already holds and creates nothing, or, when
    the store holds none, appends exactly one channel of that name.  In both
    cases the identifier is cached, and articles and vector points are
    untouched. *)
Theorem ensureDefaultChannel_lookup_then_create (name i : jsstring)
    (w w' : World Env) :
  falsy_opt (defaultChannelId w) = true ->
  ensureDefaultChannel out host name w = (Returned i, w') ->
  defaultChannelId w' = Some i
  /\ articles w' = articles w /\ points w' = points w
  /\ ((channels w' = channels w
       /\ exists c, In c (channels w) /\ channel_name c = name
                    /\ channel_id c = i)
      \/ (channels w' = channels w
                        ++ [{| channel_id := i; channel_name := name |}]
          /\ forall c, In c (channels w) -> channel_name c <> name)).
Proof.
  intros Hnone E.
  apply ensureDefaultChannel_result in E as (Hc & Ha & Hp & Hcase).
  repeat split; auto.
Qed.

Lemma createIndexes_healthy (name : jsstring) (fields : list jsstring)
    (w : World Env) :
  index_healthy out ->
  exists w',
    createIndexes out name fields w = (Returned tt, w')
    /\ collections w' = collections w
    /\ payload_indexes w' = payload_indexes w ++ map (pair name) fields
    /\ points w' = points w /\ articles w' = articles w
    /\ channels w' = channels w.
Proof.
  intros Hok. revert w. induction fields as [|f rest IH]; intros w; simpl.
  - unfold ret. exists w. rewrite app_nil_r. repeat split.
  - unfold bind, qdrant_createPayloadIndex, guarded, modify.
    pose proof (Hok (CreatePayloadIndex name f) (env w)) as Hf.
    destruct (vec_fault out (CreatePayloadIndex name f) (env w)) as [fl e1].
    simpl in Hf. subst fl.
    match goal with |- context [createIndexes out name rest ?w1] =>
      destruct (IH w1) as (w' & -> & Hc & Hi & Hp & Ha & Hch) end.
    exists w'. split; [reflexivity|]. simpl in *.
    rewrite Hi, <- app_assoc. repeat split; auto.
Qed.

Lemma initializeCollection_existing (cfg : VectorConfig) (w : World Env) :
  existsb (fun col => jsstring_eqb (fst col) (collectionName cfg))
    (collections w) = true ->
  collections (snd (initializeCollection out cfg w)) = collections w
  /\ payload_indexes (snd (initializeCollection out cfg w))
     = payload_indexes w
  /\ points (snd (initializeCollection out cfg w)) = points w.
Proof.
  intros Hex.
  unfold initializeCollection, try_catch, bind, qdrant_getCollections,
    qdrant_getCollection, guarded, read.
  destruct (vec_fault out GetCollections (env w)) as [[e|] e1];
    [unfold throw; simpl; auto|].
  cbn [collections set_env env]. rewrite Hex. simpl.
  destruct (vec_fault out (GetCollection (collectionName cfg)) e1)
    as [[e|] e2]; unfold throw, ret; simpl; auto.
Qed.

(** X13 — when the collection exists, [initializeCollection] creates
    neither a collection nor a payload index, whether its calls succeed or
    fail: indexes that are missing on an existing collection are never
    added. *)
Theorem initializeCollection_existing_untouched (cfg : VectorConfig)
    (w : World Env) :
  existsb (fun col => jsstring_eqb (fst col) (collectionName cfg))
    (collections w) = true ->
  collections (snd (initializeCollection out cfg w)) = collections w
  /\ payload_indexes (snd (initializeCollection out cfg w))
     = payload_indexes w
  /\ points (snd (initializeCollection out cfg w)) = points w.
Proof. exact (initializeCollection_existing cfg w). Qed.

(** X14 — on a healthy index without the collection,
    [initializeCollection] creates it with the configured vector size and
    then the six payload indexes, in the order channel_id, categories,
    published_at, event_category, topics, political_score; a second call
    changes neither collections nor indexes. *)
Theorem initializeCollection_creates_once (cfg : VectorConfig)
    (w : World Env) :
  index_healthy out ->
  existsb (fun col => jsstring_eqb (fst col) (collectionName cfg))
    (collections w) = false ->
  exists w',
    initializeCollection out cfg w = (Returned tt, w')
    /\ collections w'
       = collections w ++ [(collectionName cfg, vectorSize cfg)]
    /\ payload_indexes w'
       = payload_indexes w
         ++ map (pair (collectionName cfg))
              [js "channel_id"; js "categories"; js "published_at";
               js "event_category"; js "topics"; js "political_score"]
    /\ points w' = points w
    /\ exists w'',
         initializeCollection out cfg w' = (Returned tt, w'')
         /\ collections w'' = collections w'
         /\ payload_indexes w'' = payload_indexes w'.
Proof.
  intros Hok Hex.
  assert (Hfresh : exists w',
    initializeCollection out cfg w = (Returned tt, w')
    /\ collections w' = collections w ++ [(collectionName cfg, vectorSize cfg)]
    /\ payload_indexes w'
       = payload_indexes w ++ map (pair (collectionName cfg)) index_fields
    /\ points w' = points w).
  { unfold initializeCollection, try_catch, bind at 1, qdrant_getCollections,
      guarded, read.
    pose proof (Hok GetCollections (env w)) as H1.
    destruct (vec_fault out GetCollections (env w)) as [f1 e1].
    simpl in H1. subst f1. cbn [collections set_env]. rewrite Hex.
    unfold bind, qdrant_createCollection, guarded, modify.
    cbn [env set_env].
    pose proof (Hok (CreateCollection (collectionName cfg) (vectorSize cfg))
                  e1) as H2.
    destruct (vec_fault out (CreateCollection _ _) e1) as [f2 e2].
    simpl in H2. subst f2.
    match goal with |- context [createIndexes out ?n ?fs ?w1] =>
      destruct (createIndexes_healthy n fs w1 Hok)
        as (w' & -> & Hc & Hi & Hp & _) end.
    exists w'. repeat split; auto. }
  destruct Hfresh as (w' & E & Hc & Hi & Hp).
  exists w'. repeat split; auto.
  assert (Hex' : existsb
                   (fun col => jsstring_eqb (fst col) (collectionName cfg))
                   (collections w') = true).
  { rewrite Hc, existsb_app. simpl.
    assert (Hrefl : jsstring_eqb (collectionName cfg) (collectionName cfg)
                    = true) by now apply jsstring_eqb_eq.
    rewrite Hrefl. now rewrite orb_true_r. }
  destruct (initializeCollection_existing cfg w' Hex') as (Hc2 & Hi2 & _).
  assert (Hret : exists w'',
             initializeCollection out cfg w' = (Returned tt, w'')).
  { unfold initializeCollection, try_catch, bind at 1,
      qdrant_getCollections, guarded, read.
    pose proof (Hok GetCollections (env w')) as H1.
    destruct (vec_fault out GetCollections (env w')) as [f1 e1].
    simpl in H1. subst f1. cbn [collections set_env]. rewrite Hex'.
    unfold bind, qdrant_getCollection, guarded, read. cbn [env set_env].
    pose proof (Hok (GetCollection (collectionName cfg)) e1) as H2.
    destruct (vec_fault out (GetCollection _) e1) as [f2 e2].
    simpl in H2. subst f2. unfold ret. eauto. }
  destruct Hret as (w'' & E2). exists w''. rewrite E2 in Hc2, Hi2.
  repeat split; auto.
Qed.

End SetupFacts.

Lemma ensureDefaultChannel_cache_ignores_name_witness :
  exists i w',
    ensureDefaultChannel Demo.outside Demo.host (js "Haber") Demo.world
    = (Returned i, w')
    /\ ensureDefaultChannel Demo.outside Demo.host (js "Spor") w'
       = (Returned i, w').
Proof.
  eexists _, _. split; [vm_compute; reflexivity|].
  apply (ensureDefaultChannel_cache_ignores_name nat Demo.outside Demo.host
           (js "Haber") (js "Spor") _ Demo.world _);
    [vm_compute; reflexivity | discriminate].
Defined.

Lemma ensureDefaultChannel_lookup_then_create_witness :
  exists i w',
    ensureDefaultChannel Demo.outside Demo.host (js "Haber") Demo.world
    = (Returned i, w')
    /\ defaultChannelId w' = Some i.
Proof.
  eexists _, _. split; [vm_compute; reflexivity|].
  destruct (ensureDefaultChannel_lookup_then_create nat Demo.outside
              Demo.host (js "Haber") (js "channel-3")
              Demo.world
              (snd (ensureDefaultChannel Demo.outside Demo.host (js "Haber")
                      Demo.world)))
    as (Hc & _); [reflexivity | vm_compute; reflexivity |].
  vm_compute. reflexivity.
Defined.

Lemma initializeCollection_existing_untouched_witness :
  payload_indexes
    (snd (initializeCollection Demo.outside Demo.config_with_key
            {| env := 0; channels := []; articles := [];
               collections := [(collectionName Demo.config_with_key, 8)];
               payload_indexes := []; points := [];
               defaultChannelId := None |}))
  = [].
Proof.
  destruct (initializeCollection_existing_untouched nat Demo.outside
              Demo.config_with_key
              {| env := 0; channels := []; articles := [];
                 collections := [(collectionName Demo.config_with_key, 8)];
                 payload_indexes := []; points := [];
                 defaultChannelId := None |})
    as (_ & Hi & _); [vm_compute; reflexivity | exact Hi].
Defined.

Lemma initializeCollection_creates_once_witness :
  exists w',
    initializeCollection Demo.outside Demo.config_with_key Demo.world
    = (Returned tt, w')
    /\ length (payload_indexes w') = 6.
Proof.
  destruct (initializeCollection_creates_once nat Demo.outside
              Demo.config_with_key Demo.world)
    as (w' & E & _ & Hi & _);
    [intros c e; reflexivity | reflexivity |].
  exists w'. split; [exact E|]. rewrite Hi. reflexivity.
Defined.

(* ================================================================== *)
(** * Vector store and vector-only migration *)
(* ================================================================== *)

Section VectorStoreFacts.
Variable Env : Type.
Variable out : Outside Env.
Variable host : Host.

Lemma preparePoints_ids (cfg : VectorConfig) (arts : list NewsArticleVector)
    (pts : list VectorPoint) (w : World Env) :
  exists pts' w',
    preparePoints out host cfg pts arts w = (Returned pts', w')
    /\ map point_id pts'
       = map point_id pts ++ map nav_id (filter has_valid_date arts)
    /\ articles w' = articles w /\ points w' = points w.
Proof.
  revert pts w. induction arts as [|a rest IH]; intros pts w; simpl.
  - unfold ret. exists pts, w. now rewrite app_nil_r.
  - unfold bind at 1. unfold preparePoint, try_catch, bind.
    destruct (generateEmbedding_returns Env out host cfg
                (contentForEmbedding a) w) as (v & w1 & -> & Ha & Hp & _).
    unfold has_valid_date.
    destruct (nav_published_at a) as [ms|]; unfold toISOString, ret, throw.
    + destruct (IH (pts ++ [point_of a v (toISOString_of host ms)]) w1)
        as (pts' & w2 & -> & Hids & Ha2 & Hp2).
      exists pts', w2. split; [reflexivity|]. rewrite Hids, map_app.
      simpl. rewrite <- app_assoc. simpl. split; [reflexivity|].
      split; congruence.
    + destruct (IH pts w1) as (pts' & w2 & -> & Hids & Ha2 & Hp2).
      exists pts', w2. repeat split; auto; congruence.
Qed.

Lemma storeArticlesBatch_shape (cfg : VectorConfig)
    (arts : list NewsArticleVector) (w : World Env) :
  exists pts w1,
    map point_id pts = map nav_id (filter has_valid_date arts)
    /\ articles w1 = articles w /\ points w1 = points w
    /\ storeArticlesBatch out host cfg arts w
       = if existsb has_valid_date arts
         then qdrant_upsert out (collectionName cfg) pts w1
         else (Returned tt, w1).
Proof.
  unfold storeArticlesBatch.
  destruct arts as [|a rest].
  - exists [], w. simpl. unfold ret. auto.
  - change (length (a :: rest) =? 0) with false. cbv iota.
    destruct (preparePoints_ids cfg (a :: rest) [] w)
      as (pts & w1 & E & Hids & Ha & Hp).
    assert (Hids' : map point_id pts
                    = map nav_id (filter has_valid_date (a :: rest)))
      by exact Hids.
    clear Hids. rename Hids' into Hids.
    exists pts, w1.
    split; [exact Hids|]. split; [exact Ha|]. split; [exact Hp|].
    unfold try_catch, bind. rewrite E.
    assert (Hlen : (0 <? length pts) = existsb has_valid_date (a :: rest)).
    { rewrite <- (length_map point_id), Hids, length_map.
      generalize (a :: rest). intros l. induction l as [|x l IHl]; simpl;
        [reflexivity|]. destruct (has_valid_date x); simpl; auto. }
    rewrite Hlen. destruct (existsb has_valid_date (a :: rest)).
    + destruct (qdrant_upsert out (collectionName cfg) pts w1)
        as [[u|e] w2]; [destruct u|]; reflexivity.
    + reflexivity.
Qed.

(** X15 — [storeArticlesBatch] leaves out, without any error, every article
    whose publication date is invalid: the points it prepares are those of
    the articles with a valid date, in order, and preparing them writes
    nothing.  It then behaves as one upsert of these points, and when no
    article has a valid date it returns without calling the index. *)
Theorem storeArticlesBatch_drops_undated (cfg : VectorConfig)
    (arts : list NewsArticleVector) (w : World Env) :
  exists pts w1,
    map point_id pts = map nav_id (filter has_valid_date arts)
    /\ articles w1 = articles w /\ points w1 = points w
    /\ storeArticlesBatch out host cfg arts w
       = if existsb has_valid_date arts
         then qdrant_upsert out (collectionName cfg) pts w1
         else (Returned tt, w1).
Proof. exact (storeArticlesBatch_shape cfg arts w). Qed.

(** X16 — a batch in which no article has a valid publication date is
    reported as inserted in full by the write step of the vector-only
    migration, although not one point reaches the index. *)
Theorem writeBatch_counts_undated_as_inserted (cfg : VectorConfig)
    (arts : list NewsArticleVector) (result : MigrationResult)
    (w : World Env) :
  existsb has_valid_date arts = false ->
  exists w',
    writeBatch out host cfg false arts result w
    = (Returned (count_inserted (length arts) result), w')
    /\ points w' = points w.
Proof.
  intros Hnone. unfold writeBatch. cbn [negb andb].
  destruct (storeArticlesBatch_shape cfg arts w)
    as (pts & w1 & _ & _ & Hp & E).
  rewrite Hnone in E.
  destruct arts as [|a rest].
  - simpl. unfold ret. exists w. split; [|reflexivity].
    f_equal. destruct result; unfold count_inserted; simpl.
    now rewrite Nat.add_0_r.
  - change (0 <? length (a :: rest)) with true. cbv iota.
    unfold try_catch, bind. rewrite E. unfold ret. eauto.
Qed.

Lemma writeBatch_accounts (cfg : VectorConfig) (dry : bool)
    (arts : list NewsArticleVector) (result : MigrationResult)
    (w : World Env) :
  exists r' w',
    writeBatch out host cfg dry arts result w = (Returned r', w')
    /\ processed r' = processed result
    /\ mr_skipped r' = mr_skipped result
    /\ mr_success r' = mr_success result
    /\ inserted r' + mr_errors r'
       = inserted result + mr_errors result + length arts
    /\ (dry = true -> w' = w).
Proof.
  unfold writeBatch. destruct dry; cbn [negb andb].
  - unfold ret. eexists _, _. split; [reflexivity|]. simpl.
    repeat split; auto; lia.
  - destruct (0 <? length arts) eqn:Hn.
    + unfold try_catch, bind.
      destruct (storeArticlesBatch out host cfg arts w) as [[u|e] w1];
        unfold ret; eexists _, _; (split; [reflexivity|]); simpl;
        repeat split; auto; try lia; discriminate.
    + apply Nat.ltb_ge in Hn. unfold ret. eexists _, _.
      split; [reflexivity|]. repeat split; auto; try lia; discriminate.
Qed.

(** X17 — the write step of the vector-only migration never throws,
    whatever the vector store does: every article handed to it is counted
    exactly once, as inserted or as an error, the processed and skipped
    counts and the success flag are left as they were, and in a dry run the
    world is untouched. *)
Theorem writeBatch_never_throws (cfg : VectorConfig) (dry : bool)
    (arts : list NewsArticleVector) (result : MigrationResult)
    (w : World Env) :
  exists r' w',
    writeBatch out host cfg dry arts result w = (Returned r', w')
    /\ processed r' = processed result
    /\ mr_skipped r' = mr_skipped result
    /\ mr_success r' = mr_success result
    /\ inserted r' + mr_errors r'
       = inserted result + mr_errors result + length arts
    /\ (dry = true -> w' = w).
Proof. exact (writeBatch_accounts cfg dry arts result w). Qed.

Lemma collectPost_balanced (transform : VectorTransformer Env)
    (acc acc' : MigrationResult * list NewsArticleVector) (post : MongoPost)
    (w w' : World Env) :
  collectPost transform acc post w = (Returned acc', w') ->
  balanced (fst acc) (length (snd acc)) ->
  balanced (fst acc') (length (snd acc'))
  /\ mr_success (fst acc') = mr_success (fst acc).
Proof.
  unfold collectPost, bind, balanced.
  destruct (transform post w) as [[t|e] w0]; [|discriminate].
  destruct (v_skipped t).
  - unfold ret. intros X Hb. injection X as <- _. simpl.
    split; [lia|reflexivity].
  - destruct (v_success t), (v_data t); unfold ret; intros X Hb;
      injection X as <- _; simpl; rewrite ?length_app; simpl;
      (split; [lia|reflexivity]).
Qed.

Lemma collectPosts_balanced (transform : VectorTransformer Env)
    (posts : list MongoPost)
    (acc acc' : MigrationResult * list NewsArticleVector)
    (w w' : World Env) :
  collectPosts transform acc posts w = (Returned acc', w') ->
  balanced (fst acc) (length (snd acc)) ->
  balanced (fst acc') (length (snd acc'))
  /\ mr_success (fst acc') = mr_success (fst acc).
Proof.
  revert acc w. induction posts as [|p rest IH]; intros acc w; simpl.
  - unfold ret. intros X. injection X as <- _. auto.
  - unfold bind at 1.
    destruct (collectPost transform acc p w) as [[acc1|e] w1] eqn:E1;
      [|discriminate].
    intros E Hb.
    destruct (collectPost_balanced _ _ _ _ _ _ E1 Hb) as (Hb1 & Hs1).
    destruct (IH _ _ E Hb1) as (Hb2 & Hs2). split; [exact Hb2|congruence].
Qed.

Lemma vectorLoop_balanced (transform : VectorTransformer Env)
    (cfg : VectorConfig) (batchSize : nat) (o : VectorOptions)
    (total fuel offset : nat) (result r' : MigrationResult)
    (w w' : World Env) :
  vectorLoop out host fuel transform cfg batchSize o total offset result w
  = (Returned r', w') ->
  balanced result 0 ->
  balanced r' 0 /\ mr_success r' = mr_success result.
Proof.
  revert offset result w.
  induction fuel as [|fuel IH]; intros offset result w; simpl.
  - unfold ret. intros X. injection X as <- _. auto.
  - destruct ((offset <? total) && (processed result <? effectiveLimit o));
      [|unfold ret; intros X; injection X as <- _; auto].
    unfold bind at 1.
    destruct (mongo_fetchPosts out _ w) as [[batch|e] w1]; [|discriminate].
    destruct (length batch =? 0);
      [unfold ret; intros X; injection X as <- _; auto|].
    unfold bind at 1.
    destruct (collectPosts transform (result, []) batch w1)
      as [[acc|e] w2] eqn:Ecol; [|discriminate].
    unfold bind at 1.
    destruct (writeBatch_accounts cfg (vo_dry o) (snd acc) (fst acc) w2)
      as (r1 & w3 & -> & Hp & Hk & Hs & Hsum & _).
    intros E Hb.
    destruct (collectPosts_balanced _ _ _ _ _ _ Ecol Hb) as (Hb1 & Hs1).
    simpl in Hs1.
    assert (Hb2 : balanced r1 0).
    { unfold balanced in *. lia. }
    destruct (IH _ _ _ E Hb2) as (Hb3 & Hs3).
    split; [exact Hb3|congruence].
Qed.

Lemma vectorLoop_capped (transform : VectorTransformer Env)
    (cfg : VectorConfig) (batchSize : nat) (o : VectorOptions)
    (total fuel offset : nat) (result r' : MigrationResult)
    (w w' : World Env) :
  honours_limit out -> 0 < batchSize ->
  vectorLoop out host fuel transform cfg batchSize o total offset result w
  = (Returned r', w') ->
  processed result <= effectiveLimit o ->
  processed r' <= effectiveLimit o.
Proof.
  intros Hlim Hbs. revert offset result w.
  induction fuel as [|fuel IH]; intros offset result w; simpl.
  - unfold ret. intros X. injection X as <- _. auto.
  - destruct ((offset <? total) && (processed result <? effectiveLimit o))
      eqn:Hcond; [|unfold ret; intros X; injection X as <- _; auto].
    apply andb_prop in Hcond as [_ Hlt]. apply Nat.ltb_lt in Hlt.
    unfold bind at 1.
    destruct (mongo_fetchPosts out _ w) as [[batch|e] w1] eqn:Ef;
      [|discriminate].
    destruct (length batch =? 0);
      [unfold ret; intros X; injection X as <- _; auto|].
    unfold bind at 1.
    destruct (collectPosts transform (result, []) batch w1)
      as [[acc|e] w2] eqn:Ecol; [|discriminate].
    unfold bind at 1.
    destruct (writeBatch out host cfg (vo_dry o) (snd acc) (fst acc) w2)
      as [[r1|e] w3] eqn:Ew; [|discriminate].
    intros E Hle. apply (IH _ _ _ E).
    apply writeBatch_processed in Ew.
    apply collectPosts_processed in Ecol. simpl in Ecol.
    unfold mongo_fetchPosts, call in Ef.
    match type of Ef with
    | (let (_, _) := mongo_fetchPosts_at out ?fo (env w) in _) = _ =>
        destruct (mongo_fetchPosts_at out fo (env w)) as [rb eb] eqn:Eo;
        injection Ef as -> _;
        pose proof (Hlim fo (env w) batch eb _ Eo eq_refl) as Hbatch
    end.
    assert (Hpos : 0 < Nat.min batchSize
                         (effectiveLimit o - processed result)) by lia.
    specialize (Hbatch Hpos). lia.
Qed.

Lemma effectiveLimit_max (o : VectorOptions) : effectiveLimit o <= 500.
Proof.
  unfold effectiveLimit. destruct (vo_limit o) as [[|n]|]; lia.
Qed.

Lemma migrateToVectorOnlyWith_loop (transform : VectorTransformer Env)
    (cfg : VectorConfig) (batchSize : nat) (o : VectorOptions)
    (r : MigrationResult) (w w' : World Env) :
  migrateToVectorOnlyWith out host transform cfg batchSize o w
  = (Returned r, w') ->
  exists total offset r0 w0 w1 d,
    vectorLoop out host (effectiveLimit o) transform cfg batchSize o total
      offset no_migration w0 = (Returned r0, w1)
    /\ r = with_duration d r0.
Proof.
  unfold migrateToVectorOnlyWith, bind at 1, Date_now at 1, ask at 1.
  destruct (Date_now_at out (env w)) as [t0 e0].
  unfold try_catch at 1.
  match goal with |- (match ?c ?w0 with _ => _ end) = _ -> _ =>
    destruct (c w0) as [[r1|e] wz] eqn:E end.
  2:{ unfold bind, Date_now, ask. destruct (Date_now_at out (env wz)).
      unfold throw. discriminate. }
  intros X. injection X as -> ->.
  revert E. unfold bind at 1, mongo_healthCheck, ask at 1.
  destruct (mongo_healthCheck_at out _) as [ok e1]. cbn [env set_env].
  unfold bind at 1.
  match goal with |- (match ?c ?w0 with _ => _ end) = _ -> _ =>
    destruct (c w0) as [[u|e] w2] end; [|discriminate].
  unfold bind at 1.
  destruct (initializeCollection out cfg w2) as [[u2|e] w3]; [|discriminate].
  unfold bind at 1.
  destruct (mongo_getPostCount out _ _ w3) as [[total|e] w4]; [|discriminate].
  unfold bind at 1.
  match goal with |- context [vectorLoop out host ?f ?tr ?c ?b ?oo ?t ?off
                                ?r0 ?ww] =>
    destruct (vectorLoop out host f tr c b oo t off r0 ww)
      as [[r0'|e] w5] eqn:Eloop; [|discriminate];
    intros E; exists t, off, r0', ww, w5 end.
  revert E. unfold bind at 1, Date_now, ask.
  destruct (Date_now_at out (env w5)) as [t1 e5].
  unfold bind at 1, try_catch, bind.
  intros E.
  exists (round_seconds t0 t1). split; [exact Eloop|].
  revert E.
  destruct (getCollectionStats out cfg _) as [[n|e] w6]; unfold ret;
    intros X; injection X as <- _; reflexivity.
Qed.

(** X18 — in every result that [migrateToVectorOnly] returns, whatever the
    transformer, the source and the vector store do, each processed record
    is counted exactly once more: processed = inserted + skipped + errors;
    and the success flag of a returned result is always true (a failure is
    a throw, never a returned result). *)
Theorem migrateToVectorOnly_accounts_every_record
    (transform : VectorTransformer Env) (cfg : VectorConfig)
    (batchSize : nat) (o : VectorOptions) (r : MigrationResult)
    (w w' : World Env) :
  migrateToVectorOnlyWith out host transform cfg batchSize o w
  = (Returned r, w') ->
  processed r = inserted r + mr_skipped r + mr_errors r
  /\ mr_success r = true.
Proof.
  intros E.
  apply migrateToVectorOnlyWith_loop in E
    as (total & offset & r0 & w0 & w1 & d & Eloop & ->).
  apply vectorLoop_balanced in Eloop as (Hb & Hs);
    [|unfold balanced; reflexivity].
  unfold balanced in Hb. simpl. split; [lia|exact Hs].
Qed.

(** X19 — the vector-only migration is capped: when the source reader
    honours a positive limit and the batch size is positive, a returned
    result has processed at most min(limit, 500) records, 500 when no
    limit (or a limit of 0) is given. *)
Theorem migrateToVectorOnly_processes_at_most_500
    (transform : VectorTransformer Env) (cfg : VectorConfig)
    (batchSize : nat) (o : VectorOptions) (r : MigrationResult)
    (w w' : World Env) :
  honours_limit out -> 0 < batchSize ->
  migrateToVectorOnlyWith out host transform cfg batchSize o w
  = (Returned r, w') ->
  processed r <= effectiveLimit o
  /\ effectiveLimit o <= 500
  /\ (forall n, vo_limit o = Some (S n) -> processed r <= S n).
Proof.
  intros Hlim Hbs E.
  apply migrateToVectorOnlyWith_loop in E
    as (total & offset & r0 & w0 & w1 & d & Eloop & ->).
  apply vectorLoop_capped in Eloop; auto; [|simpl; lia].
  simpl. split; [exact Eloop|]. split; [apply effectiveLimit_max|].
  intros n Hn. unfold effectiveLimit in Eloop. rewrite Hn in Eloop. lia.
Qed.

End VectorStoreFacts.

Lemma writeBatch_counts_undated_as_inserted_witness :
  exists w',
    writeBatch Demo.outside Demo.host Demo.config_without_key false
      [undated_article] (no_migration) Demo.world
    = (Returned (count_inserted 1 no_migration), w')
    /\ points w' = [].
Proof.
  destruct (writeBatch_counts_undated_as_inserted nat Demo.outside Demo.host
              Demo.config_without_key [undated_article] no_migration
              Demo.world) as (w' & E & Hp); [reflexivity|].
  exists w'. split; [exact E | exact Hp].
Defined.

Lemma demo_honours_limit : honours_limit Demo.outside.
Proof.
  intros o e posts e' k E Hk _.
  cbn [mongo_fetchPosts_at Demo.outside] in E. injection E as <- _.
  unfold Demo.fetch. rewrite Hk. apply firstn_le_length.
Qed.

Lemma migrateToVectorOnly_accounts_every_record_witness :
  exists r w',
    migrateToVectorOnly Demo.outside Demo.host Demo.config_without_key 2
      dry_vector_options Demo.world = (Returned r, w')
    /\ processed r = inserted r + mr_skipped r + mr_errors r
    /\ mr_success r = true.
Proof.
  eexists _, _. split; [vm_compute; reflexivity|].
  eapply (migrateToVectorOnly_accounts_every_record nat Demo.outside
           Demo.host (transformPostToVector Demo.outside Demo.host)
           Demo.config_without_key 2 dry_vector_options _ Demo.world _).
  vm_compute. reflexivity.
Defined.

Lemma migrateToVectorOnly_processes_at_most_500_witness :
  exists r w',
    migrateToVectorOnly Demo.outside Demo.host Demo.config_without_key 2
      dry_vector_options Demo.world = (Returned r, w')
    /\ processed r <= 3.
Proof.
  eexists _, _. split; [vm_compute; reflexivity|].
  refine (proj2 (proj2
            (migrateToVectorOnly_processes_at_most_500 nat Demo.outside
               Demo.host (transformPostToVector Demo.outside Demo.host)
               Demo.config_without_key 2 dry_vector_options _ Demo.world _
               demo_honours_limit _ _)) 2 eq_refl);
    [lia | vm_compute; reflexivity].
Defined.

(* ================================================================== *)
(** * Hash, keywords and the vector transformer *)
(* ================================================================== *)

Lemma to_int32_range (z : Z) :
  (-2147483648 <= to_int32 z < 2147483648)%Z.
Proof.
  unfold to_int32.
  pose proof (Z.mod_pos_bound (z + 2147483648) 4294967296 eq_refl). lia.
Qed.

Lemma simpleHash_fold_range (str : jsstring) (h : Z) :
  (-2147483648 <= h < 2147483648)%Z ->
  (-2147483648 <= fold_left simpleHash_step str h < 2147483648)%Z.
Proof.
  revert h. induction str as [|c r IH]; intros h Hh; simpl; [exact Hh|].
  apply IH. unfold simpleHash_step. apply to_int32_range.
Qed.

(** X20 — [simpleHash] stays within 0 .. 2^31 whatever the word, so for a
    positive vector size every slot [(hash + i * 307) % vectorSize] that
    the fallback embedding writes lies inside the vector: no write lands
    on a negative or out-of-range index. *)
Theorem simpleHash_slots_in_range (str : jsstring) (vectorSize i : nat) :
  0 < vectorSize ->
  (0 <= simpleHash str <= 2147483648)%Z
  /\ Z.to_nat ((simpleHash str + Z.of_nat i * 307) mod Z.of_nat vectorSize)
     < vectorSize.
Proof.
  intros HD.
  assert (Hr : (0 <= simpleHash str <= 2147483648)%Z).
  { unfold simpleHash.
    pose proof (simpleHash_fold_range str 0%Z ltac:(lia)). lia. }
  split; [exact Hr|].
  pose proof (Z.mod_pos_bound (simpleHash str + Z.of_nat i * 307)
                (Z.of_nat vectorSize) ltac:(lia)).
  lia.
Qed.

Lemma simpleHash_slots_in_range_witness :
  (0 <= simpleHash (js "faiz") <= 2147483648)%Z
  /\ Z.to_nat ((simpleHash (js "faiz") + Z.of_nat 4 * 307) mod Z.of_nat 8)
     < 8.
Proof. apply (simpleHash_slots_in_range (js "faiz") 8 4). lia. Defined.

Lemma prefix_by_split (kw s : jsstring) :
  prefix_by jschar_eqb kw s = true -> s = kw ++ skipn (length kw) s.
Proof.
  revert s. induction kw as [|k kw IH]; intros s; simpl; [reflexivity|].
  destruct s as [|c r]; [discriminate|].
  intros H. apply andb_prop in H as [Hc Hr].
  apply N.eqb_eq in Hc. subst c. f_equal. now apply IH.
Qed.

Lemma last_map_Some (kw : jsstring) (prev : option jschar) :
  kw <> [] -> last (map Some kw) prev = Some (last kw 0%N).
Proof.
  induction kw as [|k kw IH]; [congruence|]. intros _.
  destruct kw as [|k' kw']; [reflexivity|].
  change (last (map Some (k :: k' :: kw')) prev)
    with (last (map Some (k' :: kw')) prev).
  change (last (k :: k' :: kw') 0%N) with (last (k' :: kw') 0%N).
  apply IH. discriminate.
Qed.

Lemma keyword_at_occurrence (prev : option jschar) (s kw : jsstring) :
  kw <> [] -> keyword_at prev s kw = true ->
  exists b, s = kw ++ b
            /\ (ends_outside_ascii kw = true ->
                exists c b', b = c :: b' /\ is_word c = true).
Proof.
  intros Hne H. unfold keyword_at in H.
  apply andb_prop in H as [H Hafter]. apply andb_prop in H as [Hpre _].
  exists (skipn (length kw) s). split; [now apply prefix_by_split|].
  unfold ends_outside_ascii. intros Hend. apply negb_true_iff in Hend.
  rewrite (last_map_Some kw prev Hne) in Hafter.
  unfold boundary in Hafter. cbn [is_word_opt] in Hafter.
  rewrite Hend in Hafter. cbn [xorb] in Hafter.
  destruct (skipn (length kw) s) as [|c b']; [discriminate|].
  exists c, b'. split; [reflexivity | exact Hafter].
Qed.

Lemma keywords_from_occurrence (kws : list jsstring) (s : jsstring)
    (prev : option jschar) :
  Forall (fun kw => kw <> []) kws ->
  keywords_from kws prev s = true ->
  exists kw a b,
    In kw kws /\ s = a ++ kw ++ b
    /\ (ends_outside_ascii kw = true ->
        exists c b', b = c :: b' /\ is_word c = true).
Proof.
  intros Hne. revert prev.
  assert (Hhere : forall prev s,
             existsb (keyword_at prev s) kws = true ->
             exists kw a b,
               In kw kws /\ s = a ++ kw ++ b
               /\ (ends_outside_ascii kw = true ->
                   exists c b', b = c :: b' /\ is_word c = true)).
  { intros prev s0 H. apply existsb_exists in H as (kw & Hin & Hat).
    rewrite Forall_forall in Hne.
    destruct (keyword_at_occurrence prev s0 kw (Hne kw Hin) Hat)
      as (b & -> & Hb).
    exists kw, [], b. auto. }
  induction s as [|c r IH]; intros prev H.
  - simpl in H. rewrite orb_false_r in H. now apply (Hhere prev).
  - cbn [keywords_from] in H. apply orb_prop in H as [H|H].
    + now apply (Hhere prev).
    + destruct (IH _ H) as (kw & a & b & Hin & -> & Hb).
      exists kw, (c :: a), b. auto.
Qed.

(** X21 — a keyword rule fires only when one of its keywords occurs in the
    text; and a keyword whose last letter lies outside ASCII counts only
    where a letter, digit or underscore of ASCII follows it directly, so
    such a keyword at the end of the text or before a space or a
    punctuation mark is never found.  The keywords concerned are
    merkez bankası, maç, beşiktaş and aşı. *)
Theorem keyword_ending_outside_ascii_needs_word_after
    (kws : list jsstring) (text : jsstring) :
  Forall (fun kw => kw <> []) kws ->
  matches_keywords kws text = true ->
  (exists kw a b,
     In kw kws /\ text = a ++ kw ++ b
     /\ (ends_outside_ascii kw = true ->
         exists c b', b = c :: b' /\ is_word c = true))
  /\ filter ends_outside_ascii all_keywords
     = [js "merkez bankas" ++ [305%N]; js "ma" ++ [231%N];
        js "be" ++ [351%N] ++ js "ikta" ++ [351%N];
        js "a" ++ [351%N; 305%N]].
Proof.
  intros Hne H. split; [|reflexivity].
  now apply (keywords_from_occurrence kws text None).
Qed.

Lemma keyword_ending_outside_ascii_needs_word_after_witness :
  exists kw a b,
    In kw kw_sports
    /\ js "ma" ++ [231%N] ++ js "a gidiyoruz" = a ++ kw ++ b.
Proof.
  destruct (keyword_ending_outside_ascii_needs_word_after kw_sports
              (js "ma" ++ [231%N] ++ js "a gidiyoruz"))
    as ((kw & a & b & Hin & E & _) & _).
  - repeat constructor; discriminate.
  - vm_compute. reflexivity.
  - exists kw, a, b. split; [exact Hin | exact E].
Defined.

Section VectorTransformerFacts.
Variable Env : Type.
Variable out : Outside Env.
Variable host : Host.

(** X22 — [transformPostToVector] always returns, never reports an error,
    and skips a record exactly when the permissive validator rejects it,
    with the validator's issues as the reason and the world untouched; the
    later check "content too short after cleaning" can never fire.  An
    accepted record yields an article carrying the cleaned body (at least
    5 units), a fresh identifier, the record's title and its source
    identifier. *)
Theorem transformPostToVector_skips_exactly_invalid (post : MongoPost)
    (w : World Env) :
  exists t w',
    transformPostToVector out host post w = (Returned t, w')
    /\ v_success t = isValid (Relaxed.validatePostContent post)
    /\ v_skipped t = negb (isValid (Relaxed.validatePostContent post))
    /\ v_error t = None
    /\ (isValid (Relaxed.validatePostContent post) = false ->
        w' = w /\ v_data t = None
        /\ v_skip_reason t
           = Some (js "Validation failed: "
                   ++ join (js ", ")
                        (issues (Relaxed.validatePostContent post))))
    /\ (isValid (Relaxed.validatePostContent post) = true ->
        exists d,
          v_data t = Some d
          /\ nav_content d = cleanHtmlContent (resolve_content post)
          /\ 5 <= length (nav_content d)
          /\ nav_id d = fst (randomUUID_at out (env w))
          /\ nav_title d = title post
          /\ nav_channel_id d = js "mongodb-import"
          /\ original_mongo_id d = Some (ObjectId_toString (_id post))
          /\ articles w' = articles w /\ points w' = points w).
Proof.
  unfold transformPostToVector.
  destruct (isValid (Relaxed.validatePostContent post)) eqn:Hv;
    cbn [negb].
  - pose proof (proj1 (relaxed_valid_iff post) Hv) as (_ & (_ & Hlen) & _).
    destruct (clean_shape (resolve_content post)) as (_ & _ & Htrim).
    rewrite Htrim.
    assert (Hf : falsy (cleanHtmlContent (resolve_content post)) = false).
    { destruct (cleanHtmlContent (resolve_content post));
        [simpl in Hlen; lia | reflexivity]. }
    assert (Hs : (length (cleanHtmlContent (resolve_content post)) <? 5)
                 = false) by (apply Nat.ltb_ge; exact Hlen).
    rewrite Hf, Hs. cbn [orb].
    unfold bind, randomUUID, ask, ret.
    destruct (randomUUID_at out (env w)) as [uuid e1].
    eexists _, _. split; [reflexivity|]. cbn.
    repeat split; try discriminate.
    intros _. eexists. split; [reflexivity|]. cbn.
    repeat split. exact Hlen.
  - unfold ret. eexists _, _. split; [reflexivity|]. cbn.
    repeat split; discriminate.
Qed.

End VectorTransformerFacts.

(* ================================================================== *)
(** * Single store, statistics, the combined migration and the edge
      function *)
(* ================================================================== *)

Section MoreServiceFacts.
Variable Env : Type.
Variable out : Outside Env.
Variable host : Host.

(** X23 — [storeArticle] and [storeArticlesBatch] treat a titled article
    alike when its publication date is valid: the single store is the
    batch store of the one-article list.  They differ on an invalid date:
    the single store throws the RangeError of the date rendering, the
    batch store returns as if the article had been stored; neither writes
    a point. *)
Theorem storeArticle_versus_batch (cfg : VectorConfig)
    (article : NewsArticleVector) (w : World Env) :
  nav_title article <> None ->
  (has_valid_date article = true ->
   storeArticle Env out host cfg article w
   = storeArticlesBatch out host cfg [article] w)
  /\ (has_valid_date article = false ->
      exists w1,
        storeArticle Env out host cfg article w
        = (Threw (ErrorObj (js "Invalid time value")), w1)
        /\ storeArticlesBatch out host cfg [article] w = (Returned tt, w1)
        /\ points w1 = points w).
Proof.
  intros Ht. unfold storeArticle, storeArticlesBatch, has_valid_date.
  change (length [article] =? 0) with false. cbv iota.
  destruct (nav_title article) as [t|] eqn:Et; [|congruence].
  cbn [preparePoints]. unfold preparePoint, try_catch, bind.
  destruct (generateEmbedding_returns Env out host cfg
              (contentForEmbedding article) w)
    as (v & w1 & E & _ & Hp & _).
  destruct (nav_published_at article) as [ms|];
    unfold toISOString, ret, throw; rewrite !E;
    cbn [app length Nat.ltb Nat.leb].
  - split; [intros _|discriminate].
    destruct (qdrant_upsert out (collectionName cfg) _ w1)
      as [[u|e] w2]; [destruct u|]; reflexivity.
  - split; [discriminate|intros _]. exists w1. auto.
Qed.

Section StatsFacts.
Variable getByChannelId : jsstring -> nat -> M Env (list ArticleInsert).
Variable Date_parse : jsstring -> JsDate.

Lemma latest_from_Some (rows : list ArticleInsert) (d : JsDate) :
  exists d', fold_left (latest_step Date_parse) rows (Some d) = Some d'.
Proof.
  revert d. induction rows as [|r rows IH]; intros d; simpl; [eauto|].
  unfold latest_step at 2.
  destruct (falsy (migrated_at r)); [apply IH|].
  destruct (date_gt (Date_parse (migrated_at r)) d); apply IH.
Qed.

Lemma latest_none_iff (rows : list ArticleInsert) :
  fold_left (latest_step Date_parse) rows None = None
  <-> Forall (fun r => migrated_at r = []) rows.
Proof.
  induction rows as [|r rows IH]; simpl.
  - split; auto.
  - unfold latest_step at 2.
    destruct (migrated_at r) as [|c s] eqn:Em; cbn [falsy].
    + rewrite IH. split; [intros H; constructor; auto|].
      intros H. inversion H. assumption.
    + split.
      * intros H. destruct (latest_from_Some rows (Date_parse (c :: s)))
          as (d' & E). congruence.
      * intros H. inversion H. congruence.
Qed.

Lemma latest_attained (rows : list ArticleInsert) (acc : option JsDate)
    (d : JsDate) :
  fold_left (latest_step Date_parse) rows acc = Some d ->
  acc = Some d
  \/ exists r, In r rows /\ migrated_at r <> []
               /\ Date_parse (migrated_at r) = d.
Proof.
  revert acc. induction rows as [|r rows IH]; intros acc; simpl; [auto|].
  intros H. apply IH in H as [H|(r' & Hin & Hs & Hd)].
  - unfold latest_step in H.
    destruct (migrated_at r) as [|c s] eqn:Em; cbn [falsy] in H; [auto|].
    assert (Hne : migrated_at r <> []) by (rewrite Em; discriminate).
    destruct acc as [l|].
    + destruct (date_gt (Date_parse (c :: s)) l); [|auto].
      injection H as <-. right. exists r. rewrite Em.
      repeat split; [now left | discriminate].
    + injection H as <-. right. exists r. rewrite Em.
      repeat split; [now left | discriminate].
  - right. exists r'. auto.
Qed.

Lemma latest_bounds (rows : list ArticleInsert) (m0 : Z) :
  Forall (fun r => migrated_at r = []
                   \/ exists ms, Date_parse (migrated_at r) = DateAt ms)
    rows ->
  exists m,
    fold_left (latest_step Date_parse) rows (Some (DateAt m0))
    = Some (DateAt m)
    /\ (m0 <= m)%Z
    /\ forall r ms, In r rows -> migrated_at r <> [] ->
                    Date_parse (migrated_at r) = DateAt ms -> (ms <= m)%Z.
Proof.
  revert m0. induction rows as [|r rows IH]; intros m0 Hall; simpl.
  - exists m0. repeat split; [lia | intros r ms []].
  - inversion_clear Hall as [|? ? Hr Hrows].
    unfold latest_step at 2.
    destruct (migrated_at r) as [|c s] eqn:Em; cbn [falsy].
    + destruct (IH m0 Hrows) as (m & E & Hle & Hub).
      exists m. repeat split; auto.
      intros r' ms [<-|Hin] Hs Hp; [congruence | eauto].
    + destruct Hr as [Hr|(ms0 & Hr)]; [discriminate|].
      rewrite Hr. cbn [date_gt].
      destruct (m0 <? ms0)%Z eqn:Hcmp.
      * apply Z.ltb_lt in Hcmp.
        destruct (IH ms0 Hrows) as (m & E & Hle & Hub).
        exists m. repeat split; auto; [lia|].
        intros r' ms [<-|Hin] Hs Hp; [|eauto].
        rewrite Em, Hr in Hp. injection Hp as <-. exact Hle.
      * apply Z.ltb_ge in Hcmp.
        destruct (IH m0 Hrows) as (m & E & Hle & Hub).
        exists m. repeat split; auto.
        intros r' ms [<-|Hin] Hs Hp; [|eauto].
        rewrite Em, Hr in Hp. injection Hp as <-. lia.
Qed.

Lemma latest_bounds_None (rows : list ArticleInsert) (r : ArticleInsert)
    (ms : Z) :
  Forall (fun r => migrated_at r = []
                   \/ exists ms, Date_parse (migrated_at r) = DateAt ms)
    rows ->
  In r rows -> migrated_at r <> [] ->
  Date_parse (migrated_at r) = DateAt ms ->
  exists m,
    fold_left (latest_step Date_parse) rows None = Some (DateAt m)
    /\ (ms <= m)%Z.
Proof.
  induction rows as [|r0 rows IH]; intros Hall Hin Hs Hp; [now elim Hin|].
  inversion_clear Hall as [|? ? Hr0 Hrows]. simpl.
  unfold latest_step at 2.
  destruct (migrated_at r0) as [|c s] eqn:Em; cbn [falsy].
  - destruct Hin as [<-|Hin]; [congruence|]. now apply IH.
  - destruct Hr0 as [Hr0|(ms0 & Hr0)]; [discriminate|]. rewrite Hr0.
    destruct (latest_bounds rows ms0 Hrows) as (m & E & Hle & Hub).
    exists m. split; [exact E|].
    destruct Hin as [<-|Hin]; [|eauto].
    rewrite Em, Hr0 in Hp. injection Hp as <-. exact Hle.
Qed.

Lemma getMigrationStats_fetch (channelId : jsstring) (s : MigrationStats)
    (w w' : World Env) :
  getMigrationStats Env getByChannelId Date_parse channelId w
  = (Returned s, w') ->
  exists rows,
    getByChannelId channelId 1000 w = (Returned rows, w')
    /\ s = {| total_articles := length rows;
              analyzed_articles :=
                length (filter analysis_completed rows);
              migration_sources := [];
              latest_migration :=
                fold_left (latest_step Date_parse) rows None |}.
Proof.
  unfold getMigrationStats, try_catch, bind.
  destruct (getByChannelId channelId 1000 w) as [[rows|e] w1];
    unfold ret, throw; [|discriminate].
  intros X. injection X as <- <-. eauto.
Qed.

(** X24 — a result of [getMigrationStats] describes the rows fetched for
    the channel: the total is their number, the analysed count never
    exceeds it, the list of migration sources is always empty, and the
    latest migration is absent exactly when no row carries a migration
    stamp; a reported date is the parsed stamp of some row, and when every
    stamp parses to a valid date no row has a later one. *)
Theorem getMigrationStats_describes_rows (channelId : jsstring)
    (s : MigrationStats) (w w' : World Env) :
  getMigrationStats Env getByChannelId Date_parse channelId w
  = (Returned s, w') ->
  exists rows,
    getByChannelId channelId 1000 w = (Returned rows, w')
    /\ total_articles s = length rows
    /\ analyzed_articles s <= total_articles s
    /\ migration_sources s = []
    /\ (latest_migration s = None
        <-> Forall (fun r => migrated_at r = []) rows)
    /\ (forall d, latest_migration s = Some d ->
          exists r, In r rows /\ migrated_at r <> []
                    /\ Date_parse (migrated_at r) = d)
    /\ (Forall (fun r => migrated_at r = []
                         \/ exists ms,
                              Date_parse (migrated_at r) = DateAt ms)
          rows ->
        forall r ms, In r rows -> migrated_at r <> [] ->
          Date_parse (migrated_at r) = DateAt ms ->
          exists m, latest_migration s = Some (DateAt m) /\ (ms <= m)%Z).
Proof.
  intros E. apply getMigrationStats_fetch in E as (rows & E & ->).
  exists rows. cbn [total_articles analyzed_articles migration_sources
                     latest_migration].
  split; [exact E|]. split; [reflexivity|].
  split; [apply filter_length_le|]. split; [reflexivity|].
  split; [apply latest_none_iff|]. split.
  - intros d Hd. apply latest_attained in Hd as [Hd|Hd];
      [discriminate | exact Hd].
  - intros Hall r ms Hin Hs Hp. now apply (latest_bounds_None rows r ms).
Qed.

Lemma latest_invalid_sticks (rows : list ArticleInsert) :
  fold_left (latest_step Date_parse) rows (Some InvalidDate)
  = Some InvalidDate.
Proof.
  induction rows as [|r rows IH]; simpl; [reflexivity|].
  unfold latest_step at 2.
  destruct (falsy (migrated_at r)); [exact IH|].
  destruct (Date_parse (migrated_at r)); cbn [date_gt]; exact IH.
Qed.

Lemma latest_skips_unstamped (pre rest : list ArticleInsert)
    (acc : option JsDate) :
  Forall (fun r => migrated_at r = []) pre ->
  fold_left (latest_step Date_parse) (pre ++ rest) acc
  = fold_left (latest_step Date_parse) rest acc.
Proof.
  induction pre as [|r pre IH]; intros H; simpl; [reflexivity|].
  inversion_clear H as [|? ? Hr Hpre].
  unfold latest_step at 2. rewrite Hr. cbn [falsy]. now apply IH.
Qed.

(** X25 — when the first stamped row that [getMigrationStats] meets has a
    stamp that does not parse, the latest migration is reported as the
    invalid date, whatever valid stamps the later rows carry: an invalid
    date is never replaced. *)
Theorem getMigrationStats_invalid_stamp_sticks (channelId : jsstring)
    (pre rest : list ArticleInsert) (r : ArticleInsert) (w w' : World Env) :
  getByChannelId channelId 1000 w = (Returned (pre ++ r :: rest), w') ->
  Forall (fun r => migrated_at r = []) pre ->
  migrated_at r <> [] ->
  Date_parse (migrated_at r) = InvalidDate ->
  exists s,
    getMigrationStats Env getByChannelId Date_parse channelId w
    = (Returned s, w')
    /\ latest_migration s = Some InvalidDate.
Proof.
  intros E Hpre Hs Hp. unfold getMigrationStats, try_catch, bind.
  rewrite E. unfold ret. eexists. split; [reflexivity|].
  cbn [latest_migration]. rewrite (latest_skips_unstamped pre _ None Hpre).
  simpl. unfold latest_step at 2.
  destruct (migrated_at r) as [|c x] eqn:Em; [congruence|]. cbn [falsy].
  rewrite Hp. apply latest_invalid_sticks.
Qed.

End StatsFacts.

Lemma strict_valid_truthy (post : MongoPost) :
  isValid (Strict.validatePostContent post) = true ->
  falsy_opt (title post) = false /\ falsy_opt (content_text post) = false
  /\ 50 <= length (cleanHtmlContent (or_empty (content_text post))).
Proof.
  intros Hv. apply strict_valid_iff in Hv
    as ((t & Et & Htt & _) & (b & Eb & Hbt & Hlen) & _).
  rewrite Et, Eb. cbn [falsy_opt or_empty].
  repeat split; [| |exact Hlen].
  - destruct t; [now elim Htt | reflexivity].
  - destruct b; [now elim Hbt | reflexivity].
Qed.

Lemma transformPost_accepts (post : MongoPost) (ch : jsstring)
    (w : World Env) :
  isValid (Strict.validatePostContent post) = true ->
  exists t d w',
    transformPost out host post ch w = (Returned t, w')
    /\ success t = true /\ data t = Some d
    /\ art_title d = title post
    /\ art_content d = cleanHtmlContent (or_empty (content_text post))
    /\ art_summary d
       = truthy_or_undefined
           (derive_summary post
              (cleanHtmlContent (or_empty (content_text post))))
    /\ art_channel_id d = ch.
Proof.
  intros Hv. unfold transformPost. rewrite Hv. cbn [negb].
  unfold bind, now_iso, bind, Date_now, ask, ret.
  destruct (Date_now_at out (env w)) as [t0 e0].
  eexists _, _, _. split; [reflexivity|]. cbn. auto 10.
Qed.

(** X26 — on every record that the strict validator accepts,
    [transformPost] succeeds and the vector transformer of the combined
    migration, [transformToVector], gives an article for the same record,
    under the identifier it is handed and with the channel, the title and
    the content of the relational row; its content has at least 50
    units. *)
Theorem transformToVector_follows_transformPost (post : MongoPost)
    (ch supabaseArticleId : jsstring) (w : World Env) :
  isValid (Strict.validatePostContent post) = true ->
  exists t d w' v,
    transformPost out host post ch w = (Returned t, w')
    /\ data t = Some d
    /\ transformToVector host post ch supabaseArticleId = Some v
    /\ nav_id v = supabaseArticleId
    /\ nav_channel_id v = art_channel_id d
    /\ nav_title v = art_title d
    /\ nav_content v = art_content d
    /\ 50 <= length (nav_content v).
Proof.
  intros Hv.
  destruct (transformPost_accepts post ch w Hv)
    as (t & d & w' & E & _ & Hd & Ht & Hc & _ & Hch).
  destruct (strict_valid_truthy post Hv) as (Hft & Hfc & Hlen).
  unfold transformToVector. rewrite Hft, Hfc. cbn [orb].
  assert (Hlt : (length (cleanHtmlContent (or_empty (content_text post)))
                 <? 50) = false) by (apply Nat.ltb_ge; exact Hlen).
  rewrite Hlt. exists t, d, w'. eexists. split; [exact E|].
  split; [exact Hd|].
  split; [reflexivity|]. cbn. rewrite Ht, Hc, Hch. auto.
Qed.

Lemma transformToVector_id (post : MongoPost) (ch i : jsstring)
    (v : NewsArticleVector) :
  transformToVector host post ch i = Some v ->
  nav_id v = i /\ nav_title v = title post
  /\ nav_content v = cleanHtmlContent (or_empty (content_text post)).
Proof.
  unfold transformToVector.
  destruct (falsy_opt (title post) || falsy_opt (content_text post));
    [discriminate|].
  destruct (length _ <? 50); [discriminate|].
  intros X. injection X as <-. cbn. auto.
Qed.

Lemma vectorBatchOf_ids (ids : list jsstring) (posts : list MongoPost)
    (ch : jsstring) (v : NewsArticleVector) :
  In v (vectorBatchOf host ids posts ch) -> In (nav_id v) ids.
Proof.
  revert posts. induction ids as [|i ids IH]; intros posts; simpl; [auto|].
  intros H. apply in_app_or in H as [H|H].
  - left. destruct posts as [|p ps]; [now elim H|].
    destruct (transformToVector host p ch i) as [v'|] eqn:E;
      [|now elim H].
    destruct H as [<-|[]]. symmetry.
    now apply (transformToVector_id p ch i v').
  - right. now apply (IH (tl posts)).
Qed.

(** X27 — the combined migration pairs inserted rows and fetched posts by
    position: the vector article that carries the identifier of the i-th
    inserted row is built from the i-th post of the fetched batch, with
    that post's title and cleaned body.  The rows come from the accepted
    posts only, so after a skipped post each row is paired with a post
    other than its own. *)
Theorem vector_articles_paired_by_position (ids : list jsstring)
    (posts : list MongoPost) (ch : jsstring) (i : nat)
    (v : NewsArticleVector) :
  NoDup ids ->
  nth_error ids i = Some (nav_id v) ->
  In v (vectorBatchOf host ids posts ch) ->
  exists p,
    nth_error posts i = Some p
    /\ transformToVector host p ch (nav_id v) = Some v
    /\ nav_title v = title p
    /\ nav_content v = cleanHtmlContent (or_empty (content_text p)).
Proof.
  revert posts i. induction ids as [|i0 ids IH]; intros posts i Hnd Hi Hin.
  - destruct i; discriminate.
  - inversion_clear Hnd as [|? ? Hnot Hnd'].
    simpl in Hin. apply in_app_or in Hin as [Hin|Hin].
    + destruct posts as [|p ps]; [now elim Hin|].
      destruct (transformToVector host p ch i0) as [v'|] eqn:E;
        [|now elim Hin].
      destruct Hin as [<-|[]].
      destruct (transformToVector_id p ch i0 v' E) as (Hid & Ht & Hc).
      destruct i as [|i'].
      * exists p. rewrite Hid. auto.
      * simpl in Hi. apply nth_error_In in Hi. rewrite Hid in Hi.
        now elim Hnot.
    + destruct i as [|i'].
      * simpl in Hi. injection Hi as ->.
        apply vectorBatchOf_ids in Hin. now elim Hnot.
      * simpl in Hi.
        destruct (IH (tl posts) i' Hnd' Hi Hin) as (p & Hp & Hrest).
        exists p. split; [|exact Hrest].
        destruct posts as [|p0 ps]; [destruct i'; discriminate|exact Hp].
Qed.

Section EdgeFacts.
Variable edge_insert : EdgeArticle -> M Env bool.

(** X28 — the edge function agrees with the library on every record the
    library accepts: when the strict validator passes a record whose
    publication date is absent or valid, one turn of the edge function's
    loop does not skip it but hands the store a row with the same channel,
    title, content and summary as the row [transformPost] builds, and
    counts it as processed or failed by the store's answer alone. *)
Theorem migrateRecord_agrees_with_transformPost (ch : jsstring)
    (counts : EdgeCounts) (post : MongoPost) (w w0 : World Env) :
  isValid (Strict.validatePostContent post) = true ->
  published_at post <> Some InvalidDate ->
  exists t d w0' a w1,
    transformPost out host post ch w0 = (Returned t, w0')
    /\ data t = Some d
    /\ art_title d = Some (ea_title a)
    /\ ea_content a = art_content d
    /\ ea_summary a = art_summary d
    /\ ea_channel_id a = art_channel_id d
    /\ migrateRecord Env out host edge_insert ch counts post w
       = match edge_insert a w1 with
         | (Returned true, w2) => (Returned (edge_failed counts), w2)
         | (Returned false, w2) => (Returned (edge_processed counts), w2)
         | (Threw _, w2) => (Returned (edge_failed counts), w2)
         end.
Proof.
  intros Hv Hdate.
  destruct (transformPost_accepts post ch w0 Hv)
    as (t & d & w0' & E & _ & Hd & Ht & Hc & Hsum & Hch).
  destruct (strict_valid_truthy post Hv) as (Hft & Hfc & _).
  assert (Htitle : title post = Some (or_empty (title post))).
  { destruct (title post); [reflexivity | discriminate]. }
  unfold migrateRecord, try_catch. rewrite Hft, Hfc. cbn [orb].
  exists t, d, w0'.
  destruct (Date_now_at out (env w)) as [t0 e0] eqn:Enow.
  exists {| ea_channel_id := ch;
            ea_title := or_empty (title post);
            ea_content := cleanHtmlContent (or_empty (content_text post));
            ea_summary :=
              truthy_or_undefined
                (derive_summary post
                   (cleanHtmlContent (or_empty (content_text post))));
            ea_published_at :=
              match published_at post with
              | Some (DateAt ms) => Some (toISOString_of host ms)
              | _ => None
              end;
            ea_analysis_completed := false;
            ea_migrated_at := toISOString_of host t0 |}, (set_env e0 w).
  cbn [ea_title ea_content ea_summary ea_channel_id].
  rewrite Ht, Hc, Hsum, Hch.
  split; [exact E|].
  split; [exact Hd|]. split; [exact Htitle|]. do 3 (split; [reflexivity|]).
  destruct (published_at post) as [[ms|]|] eqn:Ep; [|congruence|];
    unfold bind, toISOString, now_iso, bind, Date_now, ask, ret;
    rewrite Enow;
    destruct (edge_insert _ (set_env e0 w)) as [[[|]|e] w2]; reflexivity.
Qed.

Lemma migrateRecord_counts (ch : jsstring) (counts : EdgeCounts)
    (post : MongoPost) (w : World Env) :
  exists c' w',
    migrateRecord Env out host edge_insert ch counts post w
    = (Returned c', w')
    /\ ec_processed c' + ec_failed c' + ec_skip c'
       = S (ec_processed counts + ec_failed counts + ec_skip counts)
    /\ ec_skip c'
       = ec_skip counts
         + (if falsy_opt (title post) || falsy_opt (content_text post)
            then 1 else 0).
Proof.
  unfold migrateRecord, try_catch.
  destruct (falsy_opt (title post) || falsy_opt (content_text post)).
  - unfold ret. eexists _, _. split; [reflexivity|]. simpl. lia.
  - match goal with |- context [bind ?c ?k w] =>
      destruct (bind c k w) as [[c'|e] w1] eqn:E end.
    + revert E. unfold bind at 1.
      match goal with |- context [match ?c w with _ => _ end] =>
        destruct (c w) as [[iso|e] w2] end; [|discriminate].
      unfold bind at 1.
      destruct (now_iso out host w2) as [[stamp|e] w3]; [|discriminate].
      unfold bind.
      destruct (edge_insert _ w3) as [[[|]|e] w4]; unfold ret;
        intros X; try discriminate; injection X as <- <-;
        eexists _, _; (split; [reflexivity|]); simpl; lia.
    + unfold ret. eexists _, _. split; [reflexivity|]. simpl. lia.
Qed.

(** X29 — the record loop of the edge function never throws, whatever
    the store and the records do: each record moves exactly one of the
    three counters, and the skip counter grows by the number of records
    without a title or without a primary body. *)
Theorem migrateRecords_counts_every_record (ch : jsstring)
    (counts : EdgeCounts) (posts : list MongoPost) (w : World Env) :
  exists c' w',
    migrateRecords Env out host edge_insert ch counts posts w
    = (Returned c', w')
    /\ ec_processed c' + ec_failed c' + ec_skip c'
       = ec_processed counts + ec_failed counts + ec_skip counts
         + length posts
    /\ ec_skip c'
       = ec_skip counts
         + length (filter (fun p => falsy_opt (title p)
                                    || falsy_opt (content_text p)) posts).
Proof.
  revert counts w. induction posts as [|p rest IH]; intros counts w; simpl.
  - unfold ret. eexists _, _. split; [reflexivity|]. lia.
  - unfold bind.
    destruct (migrateRecord_counts ch counts p w)
      as (c1 & w1 & -> & Hsum & Hskip).
    destruct (IH c1 w1) as (c2 & w2 & -> & Hsum2 & Hskip2).
    exists c2, w2. split; [reflexivity|].
    destruct (falsy_opt (title p) || falsy_opt (content_text p));
      simpl; lia.
Qed.

End EdgeFacts.

End MoreServiceFacts.

Lemma storeArticle_versus_batch_witness :
  exists w1,
    storeArticle nat Demo.outside Demo.host Demo.config_without_key
      undated_article Demo.world
    = (Threw (ErrorObj (js "Invalid time value")), w1)
    /\ storeArticlesBatch Demo.outside Demo.host Demo.config_without_key
         [undated_article] Demo.world = (Returned tt, w1).
Proof.
  destruct (storeArticle_versus_batch nat Demo.outside Demo.host
              Demo.config_without_key undated_article Demo.world)
    as (_ & H); [discriminate|].
  destruct H as (w1 & E1 & E2 & _); [reflexivity|].
  exists w1. split; [exact E1 | exact E2].
Defined.

Lemma getMigrationStats_describes_rows_witness :
  exists s w',
    getMigrationStats nat sound_reader sample_parse (js "channel-4")
      Demo.world = (Returned s, w')
    /\ total_articles s = 2
    /\ migration_sources s = []
    /\ latest_migration s <> None.
Proof.
  destruct (getMigrationStats nat sound_reader sample_parse
              (js "channel-4") Demo.world) as [[s|e] w'] eqn:E;
    [|vm_compute in E; discriminate].
  exists s, w'. split; [reflexivity|].
  destruct (getMigrationStats_describes_rows nat sound_reader sample_parse
              (js "channel-4") s Demo.world w' E)
    as (rows & Er & Ht & _ & Hm & Hnone & _).
  vm_compute in Er. injection Er as <- _.
  split; [exact Ht|]. split; [exact Hm|].
  intros Hn. apply Hnone in Hn.
  inversion_clear Hn as [|? ? _ Hrest].
  inversion_clear Hrest as [|? ? Hbad _]. discriminate.
Defined.

Lemma getMigrationStats_invalid_stamp_sticks_witness :
  exists s,
    getMigrationStats nat sample_reader sample_parse (js "channel-4")
      Demo.world = (Returned s, Demo.world)
    /\ latest_migration s = Some InvalidDate.
Proof.
  apply (getMigrationStats_invalid_stamp_sticks nat sample_reader
           sample_parse (js "channel-4") [sample_row []]
           [sample_row (js "2025-06-16T20:30:56.000Z")]
           (sample_row (js "bozuk")) Demo.world Demo.world).
  - reflexivity.
  - repeat constructor.
  - discriminate.
  - reflexivity.
Defined.

Lemma transformToVector_follows_transformPost_witness :
  exists v,
    transformToVector Demo.host Demo.first_post (js "channel-4")
      (js "row-1") = Some v
    /\ nav_id v = js "row-1".
Proof.
  destruct (transformToVector_follows_transformPost nat Demo.outside
              Demo.host Demo.first_post (js "channel-4") (js "row-1")
              Demo.world)
    as (t & d & w' & v & _ & _ & Hv & Hid & _); [reflexivity|].
  exists v. split; [exact Hv | exact Hid].
Defined.

Lemma vector_articles_paired_by_position_witness :
  exists v p,
    In v (vectorBatchOf Demo.host [js "row-1"] [draft_post; Demo.last_post]
            (js "channel-4"))
    /\ nav_id v = js "row-1"
    /\ nth_error [draft_post; Demo.last_post] 0 = Some p
    /\ nav_title v = title p.
Proof.
  destruct (transformToVector Demo.host draft_post (js "channel-4")
              (js "row-1")) as [v|] eqn:Ev;
    [|vm_compute in Ev; discriminate].
  assert (Hid : nav_id v = js "row-1")
    by (apply (transformToVector_id Demo.host draft_post (js "channel-4")
                 (js "row-1") v Ev)).
  assert (Hin : In v (vectorBatchOf Demo.host [js "row-1"]
                        [draft_post; Demo.last_post] (js "channel-4"))).
  { cbn [vectorBatchOf tl]. rewrite Ev. left. reflexivity. }
  destruct (vector_articles_paired_by_position Demo.host [js "row-1"]
              [draft_post; Demo.last_post] (js "channel-4") 0 v)
    as (p & Hp & _ & Ht & _).
  - repeat constructor. intros [].
  - rewrite Hid. reflexivity.
  - exact Hin.
  - exists v, p. auto.
Defined.

Lemma migrateRecord_agrees_with_transformPost_witness :
  exists c' w',
    migrateRecord nat Demo.outside Demo.host accepting_insert
      (js "channel-4")
      {| ec_processed := 0; ec_failed := 0; ec_skip := 0 |}
      Demo.first_post Demo.world = (Returned c', w')
    /\ ec_processed c' = 1.
Proof.
  destruct (migrateRecord_agrees_with_transformPost nat Demo.outside
              Demo.host accepting_insert (js "channel-4")
              {| ec_processed := 0; ec_failed := 0; ec_skip := 0 |}
              Demo.first_post Demo.world Demo.world)
    as (t & d & w0' & a & w1 & _ & _ & _ & _ & _ & _ & E);
    [reflexivity | vm_compute; discriminate |].
  rewrite E. unfold accepting_insert, ret. eexists _, _.
  split; reflexivity.
Defined.

Lemma cleanHtmlContent_output_shape_witness :
  exists a' p, [97%N] = a' ++ [p] /\ is_ws p = false.
Proof.
  destruct (cleanHtmlContent_output_shape (js "a   b")) as (_ & H).
  destruct (H [97%N] 32%N [98%N]) as (_ & Ha & _);
    [vm_compute; reflexivity | reflexivity | exact Ha].
Defined.

Lemma cleanHtmlContent_fixed_points_witness :
  cleanHtmlContent (js "a b") = js "a b".
Proof.
  apply (proj2 (cleanHtmlContent_fixed_points (js "a b"))).
  split; [|split].
  - cbv. intuition discriminate.
  - cbv. intuition discriminate.
  - vm_compute. reflexivity.
Defined.

Lemma writeBatch_never_throws_witness :
  exists r' w',
    writeBatch Demo.outside Demo.host Demo.config_without_key true
      Demo.two_articles no_migration Demo.world = (Returned r', w')
    /\ inserted r' + mr_errors r' = 2
    /\ w' = Demo.world.
Proof.
  destruct (writeBatch_never_throws nat Demo.outside Demo.host
              Demo.config_without_key true Demo.two_articles no_migration
              Demo.world) as (r' & w' & E & _ & _ & _ & Hsum & Hw).
  exists r', w'. split; [exact E|]. split; [exact Hsum|].
  apply Hw. reflexivity.
Defined.

Lemma transformPostToVector_skips_exactly_invalid_witness :
  exists t w' d,
    transformPostToVector Demo.outside Demo.host Demo.first_post Demo.world
    = (Returned t, w')
    /\ v_skipped t = false
    /\ v_data t = Some d
    /\ 5 <= length (nav_content d).
Proof.
  destruct (transformPostToVector_skips_exactly_invalid nat Demo.outside
              Demo.host Demo.first_post Demo.world)
    as (t & w' & E & _ & Hk & _ & _ & Hvalid).
  destruct Hvalid as (d & Hd & _ & Hlen & _); [reflexivity|].
  exists t, w', d. split; [exact E|]. split; [exact Hk|].
  split; [exact Hd | exact Hlen].
Defined.
